(** * sv4git: the git gateway of package [sv] (sv/git.go)

    A shallow embedding of the parsers and of the argument builder of
    [sv/git.go], together with the parts of the Go standard library they
    call ([bytes.Index], [strings.Split], [strings.Trim],
    [strings.TrimSpace], [strconv.Atoi], [time.Parse], [bufio.Scanner]),
    as of Go 1.23, the version of [go.mod].

    Go [string] is modelled as [string], Go [[]byte] as [list ascii]; the
    conversions [[]byte(s)] and [string(b)] are [list_ascii_of_string] and
    [string_of_list_ascii].  Go [int] is 64 bits wide.  A function that
    returns [(T, error)] returns a pair with an [option error] where the
    caller reads the value next to the error ([Atoi], [time.Parse]), and a
    sum where it does not ([MessageProcessor.Parse]).  A run-time panic is
    a result of its own.

    The file has three parts: the standard library and the package
    (modules [GoBytes] to [sv]), the functions the statements compare the
    code with (module [Ref]), and the facts: the [Scanner] with a
    separator-cutting split function hands out the tokens of
    [Ref.scanSpec] for every input, and on that the statements about the
    record splitter, the commit log parser, the tag parser, the range
    arguments of [Log] and [IsDetached] are proved.  The sections behind
    them follow the output of a command through [Log], [Tags], [LastTag]
    and [Branch]: what the parsers keep for every input, what they drop,
    where they panic, and that [Log] gives back the commits that
    [git log] printed. *)

From Stdlib Require Import List String Ascii ZArith Lia Bool Arith.
Import ListNotations.

Local Open Scope string_scope.
Local Open Scope list_scope.

(** ** Go [error] values

    The values of Go's [error] interface that flow through the package:
    the sentinels of [io] and [bufio], the errors of [strconv] and [time],
    the exit error of [os/exec], and the errors built by [errors.New] and
    by [fmt.Errorf] with the verbs ["%v - %s"]. *)

Inductive error : Type :=
| errors_New (text : string)
| fmt_Errorf (e : error) (s : string)
| io_EOF
| io_ErrNoProgress
| ErrTooLong
| ErrAdvanceTooFar
| ErrFinalToken
| ErrSyntax (num : string)
| ErrRange (num : string)
| ParseError (layout value : string)
| ExitError (status : Z).

(** ** Package [bytes] *)

Module GoBytes.

Definition bytes := list ascii.

(** [bytes.HasPrefix] *)
Fixpoint HasPrefix (s prefix : bytes) : bool :=
  match prefix, s with
  | [], _ => true
  | _ :: _, [] => false
  | p :: ps, c :: cs => Ascii.eqb c p && HasPrefix cs ps
  end.

(** [bytes.Index]: the index of the first instance of [sep] in [s];
    [None] stands for Go's [-1]. *)
Fixpoint Index (s sep : bytes) : option nat :=
  if HasPrefix s sep then Some 0
  else match s with
       | [] => None
       | _ :: tl => option_map S (Index tl sep)
       end.

(** [bytes.IndexByte] *)
Definition IndexByte (s : bytes) (c : ascii) : option nat := Index s [c].

(** The loop of [genSplit] (shared by [bytes.Split] and [strings.Split])
    for a non-empty separator: cut at each first instance of [sep] in
    what is left.  Every round consumes at least one byte, so
    [length s] rounds are enough. *)
Fixpoint genSplit (rounds : nat) (s sep : bytes) : list bytes :=
  match rounds with
  | 0 => [s]
  | S k =>
      match Index s sep with
      | None => [s]
      | Some m => firstn m s :: genSplit k (skipn (m + List.length sep) s) sep
      end
  end.

Definition Split (s sep : bytes) : list bytes := genSplit (List.length s) s sep.

(** The loop of [Count] for a non-empty separator: the number of
    non-overlapping instances. *)
Fixpoint countLoop (rounds : nat) (s sep : bytes) : nat :=
  match rounds with
  | 0 => 0
  | S k =>
      match Index s sep with
      | None => 0
      | Some i => S (countLoop k (skipn (i + List.length sep) s) sep)
      end
  end.

Definition Count (s sep : bytes) : nat := countLoop (List.length s) s sep.

Fixpoint dropWhile (p : ascii -> bool) (s : bytes) : bytes :=
  match s with
  | [] => []
  | c :: tl => if p c then dropWhile p tl else s
  end.

Definition dropWhileEnd (p : ascii -> bool) (s : bytes) : bytes :=
  rev (dropWhile p (rev s)).

End GoBytes.

(** ** Package [strings] *)

Module GoStrings.
Import GoBytes.

(** The conversions [[]byte(s)] and [string(x)]. *)
Definition b (s : string) : bytes := list_ascii_of_string s.
Definition ofBytes (x : bytes) : string := string_of_list_ascii x.

(** [strings.Split] and [strings.Count]; the separator is a non-empty
    constant at every call site of the package, the rune-exploding
    branch for an empty separator is not used. *)
Definition Split (s sep : string) : list string := map ofBytes (GoBytes.Split (b s) (b sep)).
Definition Count (s sep : string) : nat := GoBytes.Count (b s) (b sep).
Definition Index (s sep : string) : option nat := GoBytes.Index (b s) (b sep).

Definition inCutset (cutset : bytes) (c : ascii) : bool :=
  existsb (Ascii.eqb c) cutset.

(** [strings.Trim] for a cutset of ASCII bytes (here always the double
    quote): [trimLeft (trimRight s)]. *)
Definition Trim (s cutset : string) : string :=
  ofBytes (dropWhile (inCutset (b cutset)) (dropWhileEnd (inCutset (b cutset)) (b s))).

(** [asciiSpace]: tab, newline, vertical tab, form feed, carriage return,
    space. *)
Definition asciiSpace (c : ascii) : bool :=
  let n := nat_of_ascii c in
  ((9 <=? n)%nat && (n <=? 13)%nat) || (n =? 32)%nat.

Definition byte (n : nat) : ascii := ascii_of_nat n.

(** The UTF-8 encodings of the runes of [unicode.IsSpace] above U+007F:
    U+0085, U+00A0, U+1680, U+2000..U+200A, U+2028, U+2029, U+202F,
    U+205F, U+3000. *)
Definition unicodeSpaces : list bytes :=
  [ [byte 194; byte 133]; [byte 194; byte 160]; [byte 225; byte 154; byte 128] ]
  ++ map (fun k => [byte 226; byte 128; byte (128 + k)]) (seq 0 11)
  ++ [ [byte 226; byte 128; byte 168]; [byte 226; byte 128; byte 169];
       [byte 226; byte 128; byte 175]; [byte 226; byte 129; byte 159];
       [byte 227; byte 128; byte 128] ].

(** Width in bytes of the white-space rune [s] starts with, if any. *)
Definition leadingSpace (s : bytes) : option nat :=
  match s with
  | [] => None
  | c :: _ =>
      if asciiSpace c then Some 1
      else option_map (@List.length ascii) (find (HasPrefix s) unicodeSpaces)
  end.

(** Width in bytes of the white-space rune [s] ends with, if any
    ([utf8.DecodeLastRuneInString] steps back to the lead byte). *)
Definition trailingSpace (s : bytes) : option nat :=
  match rev s with
  | [] => None
  | c :: _ =>
      if asciiSpace c then Some 1
      else option_map (@List.length ascii)
             (find (fun enc => HasPrefix (rev s) (rev enc)) unicodeSpaces)
  end.

Fixpoint trimLeftSpace (rounds : nat) (s : bytes) : bytes :=
  match rounds with
  | 0 => s
  | S k => match leadingSpace s with
           | Some w => trimLeftSpace k (skipn w s)
           | None => s
           end
  end.

Fixpoint trimRightSpace (rounds : nat) (s : bytes) : bytes :=
  match rounds with
  | 0 => s
  | S k => match trailingSpace s with
           | Some w => trimRightSpace k (firstn (List.length s - w) s)
           | None => s
           end
  end.

(** [strings.TrimSpace]: leading, then trailing white space removed. *)
Definition TrimSpace (s : string) : string :=
  let l := trimLeftSpace (String.length s) (b s) in
  ofBytes (trimRightSpace (List.length l) l).

End GoStrings.

(** ** Package [strconv] *)

Module GoStrconv.
Import GoBytes GoStrings.

Definition IntSize : Z := 64.

Definition isDigit (c : ascii) : bool :=
  let n := nat_of_ascii c in (48 <=? n)%nat && (n <=? 57)%nat.

Definition digit (c : ascii) : Z := Z.of_nat (nat_of_ascii c) - 48.

Definition isSign (c : ascii) : bool := Ascii.eqb c "+" || Ascii.eqb c "-".

Definition maxUint64 : Z := 2 ^ 64 - 1.

(** The digit loop of [ParseUint] for base 10 and bit size 64: it
    leaves with a range error as soon as the next digit would overflow,
    before it looks at the bytes behind. *)
Fixpoint parseUintLoop (s0 : string) (n : Z) (s : bytes) : Z * option error :=
  match s with
  | [] => (n, None)
  | c :: tl =>
      if negb (isDigit c) then (0%Z, Some (ErrSyntax s0))
      else if (maxUint64 / 10 + 1 <=? n)%Z then (maxUint64, Some (ErrRange s0))
      else
        let n1 := (n * 10 + digit c)%Z in
        if (maxUint64 <? n1)%Z then (maxUint64, Some (ErrRange s0))
        else parseUintLoop s0 n1 tl
  end.

Definition ParseUint (s : string) : Z * option error :=
  match b s with
  | [] => (0%Z, Some (ErrSyntax s))
  | l => parseUintLoop s 0%Z l
  end.

(** [ParseInt(s, 10, 0)] *)
Definition ParseInt (s0 : string) : Z * option error :=
  match b s0 with
  | [] => (0%Z, Some (ErrSyntax s0))
  | c :: tl =>
      let neg := Ascii.eqb c "-" in
      let s := if isSign c then tl else c :: tl in
      let (un, err) := ParseUint (ofBytes s) in
      let cutoff := (2 ^ (IntSize - 1))%Z in
      match err with
      | Some (ErrRange _) | None =>
          if negb neg && (cutoff <=? un)%Z then ((cutoff - 1)%Z, Some (ErrRange s0))
          else if neg && (cutoff <? un)%Z then ((- cutoff)%Z, Some (ErrRange s0))
          else ((if neg then - un else un)%Z, None)
      | Some _ => (0%Z, Some (ErrSyntax s0))
      end
  end.

(** The fast path of [Atoi] for inputs that cannot overflow. *)
Fixpoint atoiFast (s0 : string) (n : Z) (s : bytes) : Z * option error :=
  match s with
  | [] => (n, None)
  | ch :: tl =>
      if isDigit ch then atoiFast s0 (n * 10 + digit ch)%Z tl
      else (0%Z, Some (ErrSyntax s0))
  end.

(** [strconv.Atoi] *)
Definition Atoi (s : string) : Z * option error :=
  let sLen := String.length s in
  if (0 <? sLen)%nat && (sLen <? 19)%nat then
    match b s with
    | [] => (0%Z, Some (ErrSyntax s))
    | c :: tl =>
        let digits := if isSign c then tl else c :: tl in
        match digits with
        | [] => (0%Z, Some (ErrSyntax s))
        | _ =>
            let (n, err) := atoiFast s 0%Z digits in
            match err with
            | Some e => (0%Z, Some e)
            | None => ((if Ascii.eqb c "-" then - n else n)%Z, None)
            end
        end
    end
  else ParseInt s.

End GoStrconv.

(** ** Package [time] *)

Module GoTime.
Import GoBytes GoStrings GoStrconv.
Local Open Scope Z_scope.

(** A [time.Time] as its civil date and clock reading in its own
    location; the location is kept as its offset from UTC in seconds. *)
Record Time := mkTime {
  Year : Z; Month : Z; Day : Z;
  Hour : Z; Minute : Z; Second : Z; Nanosecond : Z;
  Offset : Z }.

(** The zero value [Time{}]: January 1, year 1, 00:00:00 UTC. *)
Definition zero : Time := mkTime 1 1 1 0 0 0 0 0.

Definition isLeap (year : Z) : bool :=
  (year mod 4 =? 0) && (negb (year mod 100 =? 0) || (year mod 400 =? 0)).

Definition daysIn (m year : Z) : Z :=
  if m =? 2 then (if isLeap year then 29 else 28)
  else if (m =? 4) || (m =? 6) || (m =? 9) || (m =? 11) then 30
  else 31.

Definition nextMonth (y m : Z) : Z * Z := if m =? 12 then (y + 1, 1) else (y, m + 1).
Definition prevMonth (y m : Z) : Z * Z := if m =? 1 then (y - 1, 12) else (y, m - 1).

(** Days outside the month are carried into the neighbouring months
    ("October 32 converts to November 1"). *)
Fixpoint normDay (rounds : nat) (y m d : Z) : Z * Z * Z :=
  match rounds with
  | O => (y, m, d)
  | S k =>
      if d <? 1 then
        let (y', m') := prevMonth y m in normDay k y' m' (d + daysIn m' y')
      else if daysIn m y <? d then
        let (y', m') := nextMonth y m in normDay k y' m' (d - daysIn m y)
      else (y, m, d)
  end.

(** [time.Date] for a clock reading that is in range: the month is
    normalised into the year, the day into the month. *)
Definition Date (year month day hour min sec nsec offset : Z) : Time :=
  let y := year + (month - 1) / 12 in
  let m := (month - 1) mod 12 + 1 in
  let '(y', m', d') := normDay (S (Z.to_nat (Z.abs day))) y m day in
  mkTime y' m' d' hour min sec nsec offset.

(** [Time.AddDate] *)
Definition AddDate (t : Time) (years months days : Z) : Time :=
  Date (Year t + years) (Month t + months) (Day t + days)
       (Hour t) (Minute t) (Second t) (Nanosecond t) (Offset t).

Definition digitChar (d : Z) : ascii := ascii_of_nat (48 + Z.to_nat d).

Fixpoint fmtUint (rounds : nat) (u : Z) (acc : bytes) : bytes :=
  match rounds with
  | O => acc
  | S k =>
      let acc' := digitChar (u mod 10) :: acc in
      if u / 10 =? 0 then acc' else fmtUint k (u / 10) acc'
  end.

(** [appendInt]: the decimal form of [x], zero-padded to [width]. *)
Definition appendInt (x : Z) (width : nat) : bytes :=
  let u := Z.abs x in
  let ds := fmtUint (S (Z.to_nat (Z.log2 u))) u [] in
  (if x <? 0 then ["-"%char] else [])
    ++ repeat "0"%char (width - List.length ds) ++ ds.

(** [t.Format("2006-01-02")] *)
Definition FormatDate (t : Time) : string :=
  ofBytes (appendInt (Year t) 4 ++ ["-"%char] ++ appendInt (Month t) 2
             ++ ["-"%char] ++ appendInt (Day t) 2).

(** [getnum]: one or two leading digits, exactly two when [fixed]. *)
Definition getnum (s : bytes) (fixed : bool) : option (Z * bytes) :=
  match s with
  | [] => None
  | c0 :: tl =>
      if isDigit c0 then
        match tl with
        | c1 :: tl' =>
            if isDigit c1 then Some (digit c0 * 10 + digit c1, tl')
            else if fixed then None else Some (digit c0, tl)
        | [] => if fixed then None else Some (digit c0, tl)
        end
      else None
  end.

(** [skip] for a one-byte literal prefix of the layout. *)
Definition skip (value : bytes) (prefix : ascii) : option bytes :=
  match value with
  | c :: tl => if Ascii.eqb c prefix then Some tl else None
  | [] => None
  end.

(** The chunk ["2006"]: four bytes, all digits. *)
Definition longYear (value : bytes) : option (Z * bytes) :=
  match value with
  | c0 :: c1 :: c2 :: c3 :: tl =>
      if isDigit c0 && isDigit c1 && isDigit c2 && isDigit c3
      then Some (((digit c0 * 10 + digit c1) * 10 + digit c2) * 10 + digit c3, tl)
      else None
  | _ => None
  end.

(** The steps of [time.Parse] for the layout ["2006-01-02"]. *)
Definition parseDate (value : bytes) : option Time :=
  match longYear value with
  | None => None
  | Some (year, v1) =>
  match skip v1 "-" with
  | None => None
  | Some v2 =>
  match getnum v2 true with
  | None => None
  | Some (month, v3) =>
  if (month <=? 0) || (12 <? month) then None else
  match skip v3 "-" with
  | None => None
  | Some v4 =>
  match getnum v4 true with
  | None => None
  | Some (day, v5) =>
  match v5 with
  | _ :: _ => None
  | [] =>
      if (day <? 1) || (daysIn month year <? day) then None
      else Some (Date year month day 0 0 0 0 0)
  end end end end end end.

Definition dateLayout : string := "2006-01-02".

(** [time.Parse("2006-01-02", value)]; every error return of [Parse]
    carries [Time{}]. *)
Definition ParseDate (value : string) : Time * option error :=
  match parseDate (b value) with
  | Some t => (t, None)
  | None => (zero, Some (ParseError dateLayout value))
  end.

End GoTime.

(** ** Package [bufio]: the [Scanner] *)

Module GoBufio.
Import GoBytes.
Local Open Scope nat_scope.

(** [bufio.SplitFunc]: [(advance, token, err)]; a [nil] token is [None].
    [advance] is a natural number: the split functions of this package
    never return a negative one. *)
Definition SplitFunc : Type := bytes -> bool -> nat * option bytes * option error.

Definition MaxScanTokenSize : nat := 64 * 1024.
Definition startBufSize : nat := 4096.
Definition maxConsecutiveEmptyReads : nat := 100.

(** The scanner over a [strings.Reader].  [rd] is the part of the string
    the reader has not handed out yet, [window] is [buf[start:end]] and
    [bufLen] is [len(buf)]; [end] is [start + len(window)]. *)
Record Scanner := mkScanner {
  rd : bytes;
  split : SplitFunc;
  maxTokenSize : nat;
  start : nat;
  window : bytes;
  bufLen : nat;
  empties : nat;
  err : option error;
  done : bool }.

Definition end_ (s : Scanner) : nat := start s + List.length (window s).

Definition dropCR (data : bytes) : bytes :=
  match rev data with
  | c :: tl => if Ascii.eqb c "013" then rev tl else data
  | [] => data
  end.

(** [bufio.ScanLines], the default split function. *)
Definition ScanLines : SplitFunc := fun data atEOF =>
  if atEOF && (List.length data =? 0) then (0, None, None)
  else match IndexByte data "010" with
       | Some i => (i + 1, Some (dropCR (firstn i data)), None)
       | None =>
           if atEOF then (List.length data, Some (dropCR data), None)
           else (0, None, None)
       end.

Definition NewScanner (r : bytes) : Scanner :=
  mkScanner r ScanLines MaxScanTokenSize 0 [] 0 0 None false.

(** [Scanner.Split] *)
Definition Split (s : Scanner) (f : SplitFunc) : Scanner :=
  mkScanner (rd s) f (maxTokenSize s) (start s) (window s) (bufLen s)
            (empties s) (err s) (done s).

Definition setErr (s : Scanner) (e : error) : Scanner :=
  match err s with
  | None | Some io_EOF =>
      mkScanner (rd s) (split s) (maxTokenSize s) (start s) (window s)
                (bufLen s) (empties s) (Some e) (done s)
  | Some _ => s
  end.

Definition setBuf (s : Scanner) (start' : nat) (window' : bytes) (bufLen' : nat) : Scanner :=
  mkScanner (rd s) (split s) (maxTokenSize s) start' window' bufLen'
            (empties s) (err s) (done s).

Definition setEmpties (s : Scanner) (n : nat) : Scanner :=
  mkScanner (rd s) (split s) (maxTokenSize s) (start s) (window s)
            (bufLen s) n (err s) (done s).

Definition setDone (s : Scanner) : Scanner :=
  mkScanner (rd s) (split s) (maxTokenSize s) (start s) (window s)
            (bufLen s) (empties s) (err s) true.

(** What one round of the loop of [Scan] ends in: [Scan] returns [true]
    with a token, returns [false], goes round again after a read, or
    panics on too many empty tokens. *)
Inductive round : Type :=
| Token (token : bytes)
| Stop
| Again
| TooManyEmpties.

(** [s.r.Read(s.buf[s.end:len(s.buf)])] on a [strings.Reader]: at the
    end of the string it returns [0, io.EOF], before it copies what
    fits. *)
Definition read (s : Scanner) : Scanner :=
  match rd s with
  | [] => setErr s io_EOF
  | _ =>
      let n := Nat.min (bufLen s - end_ s) (List.length (rd s)) in
      if n =? 0 then setErr s io_ErrNoProgress
      else mkScanner (skipn n (rd s)) (split s) (maxTokenSize s) (start s)
                     (window s ++ firstn n (rd s)) (bufLen s) 0 (err s) (done s)
  end.

(** "Must read more data": shift the window to the front of the buffer,
    grow a full buffer up to [maxTokenSize], then read.  A buffer that is
    full of one token of [maxTokenSize] bytes ends the scan with
    [ErrTooLong]; the second guard of that test, [len(buf) > maxInt/2],
    never holds for a buffer of at most [maxTokenSize] bytes. *)
Definition readMore (s : Scanner) : Scanner * round :=
  let s1 :=
    if (0 <? start s) && ((end_ s =? bufLen s) || (bufLen s / 2 <? start s))
    then setBuf s 0 (window s) (bufLen s) else s in
  if end_ s1 =? bufLen s1 then
    if maxTokenSize s1 <=? bufLen s1 then (setErr s1 ErrTooLong, Stop)
    else
      let newSize := bufLen s1 * 2 in
      let newSize := if newSize =? 0 then startBufSize else newSize in
      let newSize := Nat.min newSize (maxTokenSize s1) in
      (read (setBuf s1 0 (window s1) newSize), Again)
  else (read s1, Again).

(** "We cannot generate a token with what we are holding." *)
Definition noToken (s : Scanner) : Scanner * round :=
  match err s with
  | Some _ => (setBuf s 0 [] (bufLen s), Stop)
  | None => readMore s
  end.

(** One round of the loop of [Scanner.Scan]. *)
Definition scanRound (s : Scanner) : Scanner * round :=
  if done s then (s, Stop)
  else
    let atEOF := match err s with Some _ => true | None => false end in
    if (0 <? List.length (window s)) || atEOF then
      match split s (window s) atEOF with
      | (_, token, Some ErrFinalToken) =>
          (setDone s, match token with Some t => Token t | None => Stop end)
      | (_, _, Some e) => (setErr s e, Stop)
      | (advance, token, None) =>
          if List.length (window s) <? advance then (setErr s ErrAdvanceTooFar, Stop)
          else
            let s1 := setBuf s (start s + advance) (skipn advance (window s)) (bufLen s) in
            match token with
            | Some t =>
                if negb atEOF || (0 <? advance) then (setEmpties s1 0, Token t)
                else if maxConsecutiveEmptyReads <? S (empties s1)
                     then (setEmpties s1 (S (empties s1)), TooManyEmpties)
                     else (setEmpties s1 (S (empties s1)), Token t)
            | None => noToken s1
            end
      end
    else noToken s.

(** How the loop [for scanner.Scan() { ... }] leaves the scanner. *)
Inductive ending : Type :=
| Finished
| Panicked
| OutOfRounds.

(** The tokens of [for scanner.Scan() { ... scanner.Bytes() ... }], in
    order, within [rounds] rounds of the loop of [Scan]. *)
Fixpoint scan (rounds : nat) (s : Scanner) : list bytes * ending :=
  match rounds with
  | 0 => ([], OutOfRounds)
  | S k =>
      match scanRound s with
      | (s', Token t) => let (ts, e) := scan k s' in (t :: ts, e)
      | (s', Again) => scan k s'
      | (_, Stop) => ([], Finished)
      | (_, TooManyEmpties) => ([], Panicked)
      end
  end.

(** Rounds that are enough when every token advances the input: each
    round hands out a token, reads at least one byte, meets the end of
    the input or stops. *)
Definition rounds (s : Scanner) : nat :=
  List.length (window s) + 2 * List.length (rd s) + 2.

Definition tokens (s : Scanner) : list bytes * ending := scan (rounds s) s.

End GoBufio.

(** ** Package [sv]: sv/git.go *)

Module sv.
Import GoBytes GoStrings GoStrconv GoTime GoBufio.

Definition logSeparator : string := "###".
Definition endLine : string := "~~~".

(** The one-byte string made of a double quote. *)
Definition dquote : string := String "034" EmptyString.

(** Run-time panics of the package. *)
Inductive panic : Type :=
| IndexOutOfRange (index len : nat)
| TooManyEmptyTokens.

(** What a call ends in: a value, a Go [error], a panic; [Unfinished]
    is the model running out of scanner rounds. *)
Inductive result (A : Type) : Type :=
| Ok (a : A)
| Err (e : error)
| Panic (p : panic)
| Unfinished.
Arguments Ok {A} a.
Arguments Err {A} e.
Arguments Panic {A} p.
Arguments Unfinished {A}.

Definition bind {A B : Type} (x : result A) (k : A -> result B) : result B :=
  match x with
  | Ok a => k a
  | Err e => Err e
  | Panic p => Panic p
  | Unfinished => Unfinished
  end.

Notation "x <- e ;; k" := (bind e (fun x => k))
  (at level 61, e at next level, right associativity).

(** [l[i]] with Go's bounds check. *)
Definition index {A : Type} (l : list A) (i : nat) : result A :=
  match nth_error l i with
  | Some x => Ok x
  | None => Panic (IndexOutOfRange i (List.length l))
  end.

Module GitCommitLog.
Record t (CommitMessage : Type) : Type := mk {
  Date : string;
  Timestamp : Z;
  AuthorName : string;
  Hash : string;
  Message : CommitMessage }.
Arguments mk {CommitMessage}.
Arguments Date {CommitMessage}.
Arguments Timestamp {CommitMessage}.
Arguments AuthorName {CommitMessage}.
Arguments Hash {CommitMessage}.
Arguments Message {CommitMessage}.
End GitCommitLog.

Module GitTag.
Record t : Type := mk { Name : string; Date : Time }.
End GitTag.

(** [LogRangeType] is a string type with three named constants. *)
Definition LogRangeType : Type := string.
Definition TagRange : LogRangeType := "tag".
Definition DateRange : LogRangeType := "date".
Definition HashRange : LogRangeType := "hash".

Record LogRange : Type := mkLogRange {
  rangeType : LogRangeType;
  start : string;
  end_ : string }.

Definition NewLogRange (t : LogRangeType) (start end_ : string) : LogRange :=
  mkLogRange t start end_.

(** The interface [MessageProcessor], as far as this file calls it;
    the type [CommitMessage] is declared elsewhere in the package. *)
Class MessageProcessor (CommitMessage : Type) : Type := {
  Parse : string -> string -> CommitMessage + error }.

Definition splitAt (b : bytes) : SplitFunc := fun data atEOF =>
  let dataLen := List.length data in
  if atEOF && (dataLen =? 0)%nat then (0, None, None)
  else match GoBytes.Index data b with
       | Some i => (i + List.length b, Some (firstn i data), None)
       | None =>
           if atEOF then (dataLen, Some data, None)
           else (0, None, None)
       end.

Definition addDay (value : string) : string :=
  if value =? EmptyString then value
  else match ParseDate value with
       | (_, Some _) => value
       | (t, None) => FormatDate (AddDate t 0 0 1)
       end.

Definition str (value defaultValue : string) : string :=
  if negb (value =? EmptyString) then value else defaultValue.

Definition combinedOutputErr (err : error) (out : bytes) : error :=
  let msg := GoStrings.Split (ofBytes out) (String "010" EmptyString) in
  fmt_Errorf err (hd EmptyString msg).

(** The loop [for scanner.Scan() { body(scanner.Text()) }] over an
    accumulator; the body may leave the function early. *)
Fixpoint forScan {A : Type} (rounds : nat) (s : Scanner)
         (body : A -> string -> result A) (acc : A) : result A :=
  match rounds with
  | 0 => Unfinished
  | S k =>
      match scanRound s with
      | (s', Token t) =>
          match body acc (ofBytes t) with
          | Ok acc' => forScan k s' body acc'
          | other => other
          end
      | (s', Again) => forScan k s' body acc
      | (_, Stop) => Ok acc
      | (_, TooManyEmpties) => Panic TooManyEmptyTokens
      end
  end.

(** [TagConfig] is declared with the configuration of the package; this
    file reads its two fields, both pointers to a string, through a
    dereference.  A [nil] pointer is [None]. *)
Record TagConfig : Type := mkTagConfig {
  Pattern : option string;
  Filter : option string }.

(** What a method that dereferences a pointer of the configuration ends
    in: its return value, or the run-time panic of a [nil] dereference. *)
Inductive deref (A : Type) : Type :=
| Value (a : A)
| NilDereference.
Arguments Value {A} a.
Arguments NilDereference {A}.

Section Gateway.

Context {CommitMessage : Type}.

(** What [time.Parse("2006-01-02 15:04:05 -0700", value)] reads, when
    it reads the value; the zone of the result depends on the local
    time zone of the process. *)
Variable parseTagTime : string -> option Time.

Definition tagLayout : string := "2006-01-02 15:04:05 -0700".

(** Every error return of [time.Parse] carries [Time{}]. *)
Definition ParseTagTime (value : string) : Time * option error :=
  match parseTagTime value with
  | Some t => (t, None)
  | None => (zero, Some (ParseError tagLayout value))
  end.

(** [cmd.CombinedOutput()] of [exec.Command("git", params...)]: what
    the process wrote and how it exited. *)
Variable CombinedOutput : list string -> bytes * option error.

Definition parseTagsOutput (input : string) : result (list GitTag.t) :=
  let scanner := NewScanner (b input) in
  forScan (rounds scanner) scanner
    (fun result text =>
       let line := TrimSpace text in
       if negb (line =? EmptyString) then
         let values := GoStrings.Split line "#" in
         v0 <- index values 0 ;;
         let (date, _) := ParseTagTime v0 in
         v1 <- index values 1 ;;
         Ok (result ++ [GitTag.mk v1 date])
       else Ok result)
    [].

Definition parseCommitLog (messageProcessor : MessageProcessor CommitMessage)
           (commit : string) : result (GitCommitLog.t CommitMessage) :=
  let content := GoStrings.Split (Trim commit dquote) logSeparator in
  c1 <- index content 1 ;;
  let (timestamp, _) := Atoi c1 in
  c4 <- index content 4 ;;
  c5 <- index content 5 ;;
  match Parse c4 c5 with
  | inr err => Err err
  | inl message =>
      c0 <- index content 0 ;;
      c2 <- index content 2 ;;
      c3 <- index content 3 ;;
      Ok (GitCommitLog.mk c0 timestamp c2 c3 message)
  end.

Definition parseLogOutput (messageProcessor : MessageProcessor CommitMessage)
           (log : string) : result (list (GitCommitLog.t CommitMessage)) :=
  let scanner := GoBufio.Split (NewScanner (b log)) (splitAt (b endLine)) in
  forScan (rounds scanner) scanner
    (fun logs token =>
       let text := TrimSpace (Trim token dquote) in
       if negb (text =? EmptyString) then
         match parseCommitLog messageProcessor text with
         | Ok log => Ok (logs ++ [log])
         | Err err => Err err
         | Panic p => Panic p
         | Unfinished => Unfinished
         end
       else Ok logs)
    [].

(** The [params] that [Log] hands to [exec.Command("git", params...)]. *)
Definition logParams (lr : LogRange) : list string :=
  let format := ("--pretty=format:" ++ dquote ++ "%ad" ++ logSeparator ++ "%at"
                  ++ logSeparator ++ "%cN" ++ logSeparator ++ "%h" ++ logSeparator
                  ++ "%s" ++ logSeparator ++ "%b" ++ endLine ++ dquote)%string in
  let params := ["log"; "--date=short"; format] in
  if negb (start lr =? EmptyString) || negb (end_ lr =? EmptyString) then
    if rangeType lr =? DateRange then
      params ++ ["--since"; start lr; "--until"; addDay (end_ lr)]
    else if start lr =? EmptyString then params ++ [end_ lr]
    else params ++ [(start lr ++ ".." ++ str (end_ lr) "HEAD")%string]
  else params.

Definition Log (messageProcessor : MessageProcessor CommitMessage)
           (lr : LogRange) : result (list (GitCommitLog.t CommitMessage)) :=
  let (out, err) := CombinedOutput ("git" :: logParams lr) in
  match err with
  | Some e => Err (combinedOutputErr e out)
  | None => parseLogOutput messageProcessor (ofBytes out)
  end.

Definition IsDetached : bool * option error :=
  let (out, err) := CombinedOutput ["git"; "symbolic-ref"; "-q"; "HEAD"] in
  let output := ofBytes out in
  match err with
  | Some _ =>
      if output =? EmptyString then (true, None)
      else (false, Some (errors_New output))
  | None => (false, None)
  end.

(** [LastTag]: the arguments of [exec.Command] are evaluated first, the
    filter pointer is dereferenced before anything is run. *)
Definition LastTag (tagCfg : TagConfig) : deref string :=
  match Filter tagCfg with
  | None => NilDereference
  | Some filter =>
      let (out, err) :=
        CombinedOutput
          ["git"; "for-each-ref"; ("refs/tags/" ++ filter)%string;
           "--sort"; "-version:refname"; "--sort"; "-creatordate";
           "--format"; "%(refname:short)"; "--count"; "1"] in
      match err with
      | Some _ => Value EmptyString
      | None => Value (TrimSpace (Trim (ofBytes out) (String "010" EmptyString)))
      end
  end.

Definition Tags (tagCfg : TagConfig) : deref (result (list GitTag.t)) :=
  match Filter tagCfg with
  | None => NilDereference
  | Some filter =>
      let (out, err) :=
        CombinedOutput
          ["git"; "for-each-ref"; "--sort"; "creatordate"; "--format";
           "%(creatordate:iso8601)#%(refname:short)";
           ("refs/tags/" ++ filter)%string] in
      match err with
      | Some e => Value (Err (combinedOutputErr e out))
      | None => Value (parseTagsOutput (ofBytes out))
      end
  end.

Definition Branch : string :=
  let (out, err) := CombinedOutput ["git"; "symbolic-ref"; "--short"; "HEAD"] in
  match err with
  | Some _ => EmptyString
  | None => TrimSpace (Trim (ofBytes out) (String "010" EmptyString))
  end.

End Gateway.

End sv.

(** * Reference definitions

    What the statements below compare the code with. *)

Module Ref.
Import GoBytes GoStrings GoStrconv GoTime GoBufio.

(** The common shape of [splitAt b] and of [bufio.ScanLines]: cut at the
    first instance of a separator, hand out what is left at the end of
    the input, and pass every token through [post]. *)
Definition delimSplit (sep : bytes) (post : bytes -> bytes) : SplitFunc :=
  fun data atEOF =>
    if atEOF && (List.length data =? 0)%nat then (0, None, None)
    else match GoBytes.Index data sep with
         | Some i => (i + List.length sep, Some (post (firstn i data)), None)
         | None =>
             if atEOF then (List.length data, Some (post data), None)
             else (0, None, None)
         end.

(** The records of [data] that end in the separator, cut from the left;
    the cutting stops at a record that does not fit, separator included,
    in [limit] bytes. *)
Fixpoint markedLoop (rounds limit : nat) (sep data : bytes) : list bytes :=
  match rounds with
  | 0 => []
  | S k =>
      match GoBytes.Index data sep with
      | Some i =>
          if (i + List.length sep <=? limit)%nat
          then firstn i data :: markedLoop k limit sep (skipn (i + List.length sep) data)
          else []
      | None => []
      end
  end.

Definition marked (limit : nat) (sep data : bytes) : list bytes :=
  markedLoop (List.length data) limit sep data.

(** What is left behind the last separator, when the cutting gets there
    and the rest is not empty and shorter than [limit]. *)
Fixpoint tailLoop (rounds limit : nat) (sep data : bytes) : option bytes :=
  match GoBytes.Index data sep with
  | Some i =>
      match rounds with
      | 0 => None
      | S k =>
          if (i + List.length sep <=? limit)%nat
          then tailLoop k limit sep (skipn (i + List.length sep) data)
          else None
      end
  | None =>
      match data with
      | [] => None
      | _ => if (List.length data <? limit)%nat then Some data else None
      end
  end.

Definition tail (limit : nat) (sep data : bytes) : option bytes :=
  tailLoop (List.length data) limit sep data.

(** The tokens a scanner with a token limit of [limit] bytes is to hand
    out for [data]. *)
Definition scanSpec (limit : nat) (sep : bytes) (post : bytes -> bytes)
           (data : bytes) : list bytes :=
  map post (marked limit sep data)
    ++ match tail limit sep data with Some t => [post t] | None => [] end.

(** Records joined by the separator, with a trailing separator. *)
Definition join (sep : bytes) (records : list bytes) : bytes :=
  List.concat (map (fun r => r ++ sep) records).

(** The loop [for scanner.Scan() { body(scanner.Text()) }] over the
    tokens the scanner hands out. *)
Fixpoint foldTokens {A : Type} (body : A -> string -> sv.result A) (acc : A)
         (ts : list bytes) (e : ending) : sv.result A :=
  match ts with
  | [] =>
      match e with
      | Finished => sv.Ok acc
      | Panicked => sv.Panic sv.TooManyEmptyTokens
      | OutOfRounds => sv.Unfinished
      end
  | t :: ts' =>
      match body acc (ofBytes t) with
      | sv.Ok acc' => foldTokens body acc' ts' e
      | other => other
      end
  end.

(** The tokens of the scanner of [parseLogOutput]. *)
Definition logTokens (log : string) : list bytes * ending :=
  tokens (GoBufio.Split (NewScanner (b log)) (sv.splitAt (b sv.endLine))).

(** The tokens of the scanner of [parseTagsOutput]. *)
Definition tagTokens (input : string) : list bytes * ending :=
  tokens (NewScanner (b input)).

(** A message processor that accepts everything and keeps the subject
    and the body as they are. *)
Definition echo : sv.MessageProcessor (string * string) :=
  {| sv.Parse := fun subject body => inl (subject, body) |}.

(** A record as the splitter cuts it: its separator is the first one,
    and both fit the token limit. *)
Definition cutRecord (limit : nat) (sep r : bytes) : Prop :=
  GoBytes.Index (r ++ sep) sep = Some (List.length r)
  /\ (List.length r + List.length sep <= limit)%nat.

(** What is left of [s] behind its [n]-th separator. *)
Fixpoint afterSep (n : nat) (sep s : bytes) : option bytes :=
  match n with
  | 0 => Some s
  | S k =>
      match GoBytes.Index s sep with
      | Some i => afterSep k sep (skipn (i + List.length sep) s)
      | None => None
      end
  end.

(** [s] up to its first separator, all of [s] when it has none. *)
Definition firstField (sep s : bytes) : bytes :=
  match GoBytes.Index s sep with
  | Some i => firstn i s
  | None => s
  end.

(** The calendar day after a day of the Gregorian calendar. *)
Definition nextDay (ymd : Z * Z * Z) : Z * Z * Z :=
  let '(y, m, d) := ymd in
  if (d <? daysIn m y)%Z then (y, m, d + 1)%Z
  else if (m <? 12)%Z then (y, m + 1, 1)%Z
  else (y + 1, 1, 1)%Z.

Definition num2 (c0 c1 : ascii) : Z := (digit c0 * 10 + digit c1)%Z.

(** A valid [YYYY-MM-DD] date string: ten bytes, digits around two
    hyphens, a month of the year and a day of that month. *)
Definition validDate (value : string) : option (Z * Z * Z) :=
  match b value with
  | [y0; y1; y2; y3; h0; m0; m1; h1; d0; d1] =>
      if isDigit y0 && isDigit y1 && isDigit y2 && isDigit y3
         && Ascii.eqb h0 "-" && isDigit m0 && isDigit m1
         && Ascii.eqb h1 "-" && isDigit d0 && isDigit d1
      then
        let y := (num2 y0 y1 * 100 + num2 y2 y3)%Z in
        let m := num2 m0 m1 in
        let d := num2 d0 d1 in
        if (1 <=? m)%Z && (m <=? 12)%Z && (1 <=? d)%Z && (d <=? daysIn m y)%Z
        then Some (y, m, d) else None
      else None
  | _ => None
  end.

Definition midnightUTC (ymd : Z * Z * Z) : Time :=
  let '(y, m, d) := ymd in mkTime y m d 0 0 0 0 0.

(** The arguments of [git log] that do not depend on the range: the
    subcommand, the date format and the pretty format, which is written
    between double quotes. *)
Definition baseParams : list string :=
  ["log"; "--date=short";
   ("--pretty=format:" ++ sv.dquote ++ "%ad###%at###%cN###%h###%s###%b~~~" ++ sv.dquote)%string].

(** A decimal integer literal: an optional sign and at least one digit. *)
Definition isIntLiteral (s : string) : bool :=
  match b s with
  | [] => false
  | c :: tl =>
      let ds := if isSign c then tl else c :: tl in
      negb (List.length ds =? 0)%nat && forallb isDigit ds
  end.

Definition newline : bytes := ["010"%char].
Definition hash : string := "#".

(** A line of the tag listing with its date part and its name. *)
Record tagLine : Type := mkTagLine {
  lineText : string;
  datePart : string;
  namePart : string }.

(** The line as the loop of [parseTagsOutput] sees it: without its
    carriage return and without the white space around it. *)
Definition seenLine (text : string) : string :=
  TrimSpace (ofBytes (dropCR (b text))).

(** A line that fits a scanner token and reads [date#name]. *)
Definition wellFormed (l : tagLine) : Prop :=
  GoStrings.Index (lineText l) (ofBytes newline) = None
  /\ (String.length (lineText l) < MaxScanTokenSize)%nat
  /\ seenLine (lineText l) = (datePart l ++ hash ++ namePart l)%string
  /\ GoStrings.Index (datePart l) hash = None
  /\ GoStrings.Index (namePart l) hash = None.

(** The listing made of the lines, each closed by a line feed. *)
Definition listing (ls : list tagLine) : string :=
  ofBytes (join newline (map (fun l => b (lineText l)) ls)).

(** The entry of a line: its name, and its date when the date part is
    read, the zero [Time] when it is not. *)
Definition entry (parseTagTime : string -> option Time) (l : tagLine) : sv.GitTag.t :=
  sv.GitTag.mk (namePart l)
    (match parseTagTime (datePart l) with Some t => t | None => zero end).

(** A reader of stamps that are written digit for digit as the layout
    ["2006-01-02 15:04:05 -0700"]. *)
Definition readStamp (value : string) : option Time :=
  match b value with
  | [y0; y1; y2; y3; h0; m0; m1; h1; d0; d1; s0; H0; H1; c0; M0; M1; c1; S0; S1; s1;
     sign; z0; z1; z2; z3] =>
      match validDate (ofBytes [y0; y1; y2; y3; h0; m0; m1; h1; d0; d1]) with
      | Some (y, m, d) =>
          if Ascii.eqb s0 " " && Ascii.eqb c0 ":" && Ascii.eqb c1 ":" && Ascii.eqb s1 " "
             && forallb isDigit [H0; H1; M0; M1; S0; S1; z0; z1; z2; z3]
             && isSign sign
             && (num2 H0 H1 <? 24)%Z && (num2 M0 M1 <? 60)%Z && (num2 S0 S1 <? 60)%Z
             && (num2 z0 z1 <=? 24)%Z && (num2 z2 z3 <=? 60)%Z
          then
            let offset := ((num2 z0 z1 * 60 + num2 z2 z3) * 60)%Z in
            Some (mkTime y m d (num2 H0 H1) (num2 M0 M1) (num2 S0 S1) 0
                    (if Ascii.eqb sign "-" then - offset else offset)%Z)
          else None
      | None => None
      end
  | _ => None
  end.

(** The largest and the smallest [int]. *)
Definition maxInt : Z := (2 ^ (IntSize - 1) - 1)%Z.
Definition minInt : Z := (- 2 ^ (IntSize - 1))%Z.

(** What [Atoi] leaves as a value when it fails. *)
Definition atoiFailure (s : string) (v : Z) (e : error) : Prop :=
  (e = ErrSyntax s /\ v = 0%Z) \/ (e = ErrRange s /\ (v = maxInt \/ v = minInt)).

(** The body of the loop of [parseTagsOutput]. *)
Definition tagBody (parseTagTime : string -> option Time)
           (result : list sv.GitTag.t) (text : string) : sv.result (list sv.GitTag.t) :=
  let line := TrimSpace text in
  if negb (line =? EmptyString) then
    let values := GoStrings.Split line "#" in
    sv.bind (sv.index values 0) (fun v0 =>
    let (date, _) := sv.ParseTagTime parseTagTime v0 in
    sv.bind (sv.index values 1) (fun v1 =>
    sv.Ok (result ++ [sv.GitTag.mk v1 date])))
  else sv.Ok result.

(** [x] is a run of consecutive bytes of [s]. *)
Definition within (x s : bytes) : Prop := exists i j, x = firstn j (skipn i s).

(** A byte of ASCII that is not white space, and one that is not a
    double quote either. *)
Definition visible (c : ascii) : bool :=
  (nat_of_ascii c <? 128)%nat && negb (asciiSpace c).

Definition plain (c : ascii) : bool := visible c && negb (Ascii.eqb c "034").

Definition startsPlain (r : string) : bool :=
  match b r with
  | c :: _ => plain c
  | [] => false
  end.

(** A name that starts and ends with a visible byte. *)
Definition tidy (name : string) : bool :=
  match b name with
  | c :: tl => visible c && visible (last tl c)
  | [] => false
  end.

(** A string that starts or ends with a double quote. *)
Definition edgeQuote (s : string) : bool :=
  match b s with
  | c :: tl => Ascii.eqb c "034" || Ascii.eqb (last tl c) "034"
  | [] => false
  end.

(** A field in front of a separator: the separator behind it is the
    first one, so the field does not contain it and does not run into
    it. *)
Definition fieldOf (sep f : string) : Prop :=
  GoStrings.Index (f ++ sep) sep = Some (String.length f).

(** Six fields written as one record. *)
Definition commitText (f0 f1 f2 f3 f4 f5 : string) : string :=
  (f0 ++ sv.logSeparator ++ f1 ++ sv.logSeparator ++ f2 ++ sv.logSeparator
      ++ f3 ++ sv.logSeparator ++ f4 ++ sv.logSeparator ++ f5)%string.

(** The text of a record as the loop of [parseLogOutput] hands it on. *)
Definition recordText (r : string) : string := TrimSpace (Trim r sv.dquote).

(** A record as [git log] writes it for the format of [Log]: it starts
    with a plain byte (the first digit of the date), the end marker that
    closes it is the first one, and with its quotes, its marker and the
    line feed in front it fits a scanner token. *)
Definition gitRecord (r : string) : Prop :=
  startsPlain r = true
  /\ fieldOf sv.endLine r
  /\ (String.length r + 6 <= MaxScanTokenSize)%nat.

(** What [git log] prints for the pretty format of [Log]: every record
    between double quotes, the end marker in front of the closing quote,
    and a line feed between two entries. *)
Definition gitLogOutput (records : list string) : string :=
  String.concat (String "010" EmptyString)
    (map (fun r => (sv.dquote ++ r ++ sv.endLine ++ sv.dquote)%string) records).

(** The texts parsed one after the other; the first one that does not
    give an entry decides. *)
Fixpoint parseRecords {CommitMessage : Type} (mp : sv.MessageProcessor CommitMessage)
         (logs : list (sv.GitCommitLog.t CommitMessage)) (texts : list string)
  : sv.result (list (sv.GitCommitLog.t CommitMessage)) :=
  match texts with
  | [] => sv.Ok logs
  | text :: rest =>
      match sv.parseCommitLog mp text with
      | sv.Ok l => parseRecords mp (logs ++ [l]) rest
      | sv.Err e => sv.Err e
      | sv.Panic p => sv.Panic p
      | sv.Unfinished => sv.Unfinished
      end
  end.

(** Input whose first record does not fit a scanner token: its marker
    ends behind [limit] bytes, or it has no marker and [limit] bytes or
    more. *)
Definition oversize (limit : nat) (sep data : bytes) : Prop :=
  match GoBytes.Index data sep with
  | Some i => (limit < i + List.length sep)%nat
  | None => (limit <= List.length data)%nat
  end.

(** The decimal form of [y] is four digits that read [y]; that of [n] is
    two digits that read [n]. *)
Definition fourDigits (y : Z) : bool :=
  match appendInt y 4 with
  | [c0; c1; c2; c3] =>
      isDigit c0 && isDigit c1 && isDigit c2 && isDigit c3
      && (num2 c0 c1 * 100 + num2 c2 c3 =? y)%Z
  | _ => false
  end.

Definition twoDigits (n : Z) : bool :=
  match appendInt n 2 with
  | [c0; c1] => isDigit c0 && isDigit c1 && (num2 c0 c1 =? n)%Z
  | _ => false
  end.

(** A text that contains neither the field separator nor the end
    marker. *)
Definition markFree (s : string) : Prop :=
  GoStrings.Index s sv.logSeparator = None /\ GoStrings.Index s sv.endLine = None.

(** A message processor that refuses everything, with the subject as
    the text of its error. *)
Definition refuse : sv.MessageProcessor unit :=
  {| sv.Parse := fun subject _ => inr (errors_New subject) |}.

(** A tag entry made of one of the lines that the scanner hands out:
    its name is the second field of the line, without its white space,
    split at [#]; its date is what [time.Parse] reads in the first field
    of the same line, and the zero [Time] when it reads none.  The name
    contains neither [#] nor a line feed. *)
Definition parsedTag (parseTagTime : string -> option Time) (lines : list bytes)
           (t : sv.GitTag.t) : Prop :=
  exists line v0 more,
    In line lines
    /\ GoStrings.Split (TrimSpace (ofBytes line)) hash = v0 :: sv.GitTag.Name t :: more
    /\ sv.GitTag.Date t = match parseTagTime v0 with Some d => d | None => zero end
    /\ GoStrings.Index (sv.GitTag.Name t) hash = None
    /\ GoStrings.Index (sv.GitTag.Name t) (ofBytes newline) = None.

(** The body as an entry shows it: without the double quotes at its
    end, then without the white space at its end, as [parseLogOutput]
    strips them from the record, and then without the double quotes that
    this leaves at its end, which [parseCommitLog] strips. *)
Definition shownBody (body : string) : string :=
  let x := dropWhileEnd (inCutset (b sv.dquote)) (b body) in
  ofBytes (dropWhileEnd (inCutset (b sv.dquote)) (trimRightSpace (List.length x) x)).

(** The six fields that [git log] prints for a commit. *)
Record printedCommit : Type := mkPrintedCommit {
  printedDate : string;
  printedStamp : string;
  printedAuthor : string;
  printedHash : string;
  printedSubject : string;
  printedBody : string }.

Definition commitRecord (c : printedCommit) : string :=
  commitText (printedDate c) (printedStamp c) (printedAuthor c) (printedHash c)
    (printedSubject c) (printedBody c).

(** A commit that the format of [Log] carries: the date starts with a
    plain byte, no field contains the field separator or runs into the
    one behind it, and the record is one that the scanner cuts at its own
    end marker. *)
Definition carried (c : printedCommit) : Prop :=
  startsPlain (printedDate c) = true
  /\ fieldOf sv.logSeparator (printedDate c)
  /\ fieldOf sv.logSeparator (printedStamp c)
  /\ fieldOf sv.logSeparator (printedAuthor c)
  /\ fieldOf sv.logSeparator (printedHash c)
  /\ fieldOf sv.logSeparator (printedSubject c)
  /\ GoStrings.Index (printedBody c) sv.logSeparator = None
  /\ fieldOf sv.endLine (commitRecord c)
  /\ (String.length (commitRecord c) + 6 <= MaxScanTokenSize)%nat.

(** The entries of the commits, one after the other; the first commit
    whose subject and body the message processor refuses decides. *)
Fixpoint entriesOf {CommitMessage : Type} (mp : sv.MessageProcessor CommitMessage)
         (logs : list (sv.GitCommitLog.t CommitMessage)) (cs : list printedCommit)
  : sv.result (list (sv.GitCommitLog.t CommitMessage)) :=
  match cs with
  | [] => sv.Ok logs
  | c :: rest =>
      match sv.Parse (printedSubject c) (shownBody (printedBody c)) with
      | inl message =>
          entriesOf mp
            (logs ++ [sv.GitCommitLog.mk (printedDate c) (fst (Atoi (printedStamp c)))
                        (printedAuthor c) (printedHash c) message])
            rest
      | inr err => sv.Err err
      end
  end.

(** A line of the tag listing that reads [date#name], or [date#name#]
    and more: it fits a scanner token, and neither the date part nor the
    name contains [#]. *)
Definition readable (l : tagLine) : Prop :=
  GoStrings.Index (lineText l) (ofBytes newline) = None
  /\ (String.length (lineText l) < MaxScanTokenSize)%nat
  /\ (seenLine (lineText l) = (datePart l ++ hash ++ namePart l)%string
      \/ exists more,
           seenLine (lineText l) = (datePart l ++ hash ++ namePart l ++ hash ++ more)%string)
  /\ GoStrings.Index (datePart l) hash = None
  /\ GoStrings.Index (namePart l) hash = None.

End Ref.

(** * Facts and theorems *)

Import GoBytes GoStrings GoStrconv GoTime GoBufio Ref.

(** ** [bytes.HasPrefix] and [bytes.Index] *)

Section IndexFacts.
Local Open Scope nat_scope.
Implicit Types s p sep t : bytes.

Lemma HasPrefix_nil_r s : HasPrefix s [] = true.
Proof. destruct s; reflexivity. Qed.

Lemma HasPrefix_cons c s d p :
  HasPrefix (c :: s) (d :: p) = Ascii.eqb c d && HasPrefix s p.
Proof. reflexivity. Qed.

Lemma HasPrefix_app p t : HasPrefix (p ++ t) p = true.
Proof.
  induction p as [|c p IH]; simpl.
  - apply HasPrefix_nil_r.
  - now rewrite Ascii.eqb_refl.
Qed.

Lemma HasPrefix_split s p : HasPrefix s p = true -> s = p ++ skipn (List.length p) s.
Proof.
  revert s; induction p as [|d p IH]; intros s H.
  - reflexivity.
  - destruct s as [|c s]; [discriminate|].
    rewrite HasPrefix_cons in H. apply andb_true_iff in H as [Hc Hp].
    apply Ascii.eqb_eq in Hc. subst d. simpl. f_equal. now apply IH.
Qed.

Lemma HasPrefix_length s p : HasPrefix s p = true -> List.length p <= List.length s.
Proof.
  intros H. apply HasPrefix_split in H. rewrite H, length_app. lia.
Qed.

Lemma HasPrefix_app_short s t p :
  List.length p <= List.length s -> HasPrefix (s ++ t) p = HasPrefix s p.
Proof.
  revert s; induction p as [|d p IH]; intros s H.
  - now rewrite !HasPrefix_nil_r.
  - destruct s as [|c s]; simpl in H; [lia|].
    simpl. rewrite IH by lia. reflexivity.
Qed.

Lemma HasPrefix_app_l s t p : HasPrefix s p = true -> HasPrefix (s ++ t) p = true.
Proof.
  intros H. rewrite HasPrefix_app_short; [assumption|]. now apply HasPrefix_length.
Qed.

Lemma Index_unfold s sep :
  GoBytes.Index s sep =
    if HasPrefix s sep then Some 0
    else match s with [] => None | _ :: tl => option_map S (GoBytes.Index tl sep) end.
Proof. destruct s; reflexivity. Qed.

Lemma Index_bound s sep i : GoBytes.Index s sep = Some i -> i + List.length sep <= List.length s.
Proof.
  revert i; induction s as [|c s IH]; intros i; rewrite Index_unfold.
  - destruct (HasPrefix [] sep) eqn:E; [|discriminate].
    intros [= <-]. apply HasPrefix_length in E. simpl in *. lia.
  - destruct (HasPrefix (c :: s) sep) eqn:E.
    + intros [= <-]. apply HasPrefix_length in E. simpl in *. lia.
    + destruct (GoBytes.Index s sep) as [j|] eqn:Ej; simpl; [|discriminate].
      intros [= <-]. specialize (IH _ eq_refl). simpl. lia.
Qed.

Lemma Index_split s sep i :
  GoBytes.Index s sep = Some i -> s = firstn i s ++ sep ++ skipn (i + List.length sep) s.
Proof.
  revert i; induction s as [|c s IH]; intros i; rewrite Index_unfold.
  - destruct (HasPrefix [] sep) eqn:E; [|discriminate].
    intros [= <-]. now apply HasPrefix_split in E.
  - destruct (HasPrefix (c :: s) sep) eqn:E.
    + intros [= <-]. now apply HasPrefix_split in E.
    + destruct (GoBytes.Index s sep) as [j|] eqn:Ej; simpl; [|discriminate].
      intros [= <-]. simpl. f_equal. now apply IH.
Qed.

Lemma Index_app_l s t sep i : GoBytes.Index s sep = Some i -> GoBytes.Index (s ++ t) sep = Some i.
Proof.
  revert i; induction s as [|c s IH]; intros i H.
  - rewrite Index_unfold in H. destruct (HasPrefix [] sep) eqn:E; [|discriminate].
    injection H as <-. rewrite Index_unfold. now rewrite (HasPrefix_app_l [] t sep E).
  - pose proof (Index_bound _ _ _ H) as Hb.
    rewrite Index_unfold in H. simpl app. rewrite Index_unfold.
    destruct (HasPrefix (c :: s) sep) eqn:E.
    + injection H as <-. change (c :: s ++ t) with ((c :: s) ++ t).
      now rewrite (HasPrefix_app_l _ t _ E).
    + destruct (GoBytes.Index s sep) as [j|] eqn:Ej; simpl in H; [|discriminate].
      injection H as <-.
      change (c :: s ++ t) with ((c :: s) ++ t).
      rewrite HasPrefix_app_short by (simpl in *; lia).
      rewrite E. now rewrite (IH _ eq_refl).
Qed.

Lemma Index_app_inv s t sep i :
  GoBytes.Index (s ++ t) sep = Some i -> i + List.length sep <= List.length s ->
  GoBytes.Index s sep = Some i.
Proof.
  revert i; induction s as [|c s IH]; intros i H Hb.
  - simpl in Hb. assert (i = 0) by lia. subst i.
    destruct sep; [reflexivity|simpl in Hb; lia].
  - simpl app in H. rewrite Index_unfold in H. rewrite Index_unfold.
    change (c :: s ++ t) with ((c :: s) ++ t) in H.
    destruct (HasPrefix ((c :: s) ++ t) sep) eqn:E.
    + injection H as <-. rewrite HasPrefix_app_short in E by (simpl in *; lia).
      now rewrite E.
    + destruct (HasPrefix (c :: s) sep) eqn:E'.
      { now rewrite (HasPrefix_app_l _ t _ E') in E. }
      destruct (GoBytes.Index (s ++ t) sep) as [j|] eqn:Ej; simpl in H; [|discriminate].
      injection H as <-. rewrite (IH j eq_refl); [reflexivity|simpl in *; lia].
Qed.

Lemma Index_nil sep : sep <> [] -> GoBytes.Index [] sep = None.
Proof. destruct sep; [congruence|reflexivity]. Qed.

(** A record cut off at the first separator, with its separator behind. *)
Lemma Index_record s sep i :
  GoBytes.Index s sep = Some i -> GoBytes.Index (firstn i s ++ sep) sep = Some i.
Proof.
  intros H. pose proof (Index_split _ _ _ H) as Hs. pose proof (Index_bound _ _ _ H) as Hb.
  apply (Index_app_inv _ (skipn (i + List.length sep) s)).
  - now rewrite <- app_assoc, <- Hs.
  - rewrite length_app, length_firstn. lia.
Qed.

End IndexFacts.

(** ** [strings.TrimSpace] leaves no white space at either end *)

Section TrimSpaceFacts.
Local Open Scope nat_scope.

Lemma unicodeSpaces_width : Forall (fun enc => 2 <= List.length enc) unicodeSpaces.
Proof. unfold unicodeSpaces. cbn [map seq app]. repeat constructor. Qed.

Lemma leadingSpace_width s w :
  leadingSpace s = Some w -> 1 <= w <= List.length s.
Proof.
  unfold leadingSpace. destruct s as [|c s]; [discriminate|].
  destruct (asciiSpace c); [intros [= <-]; simpl; lia|].
  destruct (find (HasPrefix (c :: s)) unicodeSpaces) as [enc|] eqn:E; [|discriminate].
  intros [= <-]. apply find_some in E as [Hin Hp].
  apply HasPrefix_length in Hp.
  pose proof (proj1 (Forall_forall _ _) unicodeSpaces_width _ Hin) as Hw.
  cbv beta in Hw. cbn [List.length] in *. lia.
Qed.

Lemma trailingSpace_width s w :
  trailingSpace s = Some w -> 1 <= w <= List.length s.
Proof.
  unfold trailingSpace. destruct (rev s) as [|c r] eqn:Er; [discriminate|].
  assert (Hl : List.length s = S (List.length r)).
  { rewrite <- length_rev, Er. reflexivity. }
  destruct (asciiSpace c); [intros [= <-]; lia|].
  match goal with
  | |- context [find ?f unicodeSpaces] =>
      destruct (find f unicodeSpaces) as [enc|] eqn:E; [|discriminate]
  end.
  intros [= <-]. apply find_some in E as [Hin Hp].
  apply HasPrefix_length in Hp. rewrite length_rev in Hp. cbn [List.length] in Hp.
  pose proof (proj1 (Forall_forall _ _) unicodeSpaces_width _ Hin) as Hw.
  cbv beta in Hw. lia.
Qed.

Lemma trimLeftSpace_done k : forall s,
  List.length s <= k -> leadingSpace (trimLeftSpace k s) = None.
Proof.
  induction k as [|k IH]; intros s H.
  - destruct s; [reflexivity|simpl in H; lia].
  - cbn [trimLeftSpace]. destruct (leadingSpace s) as [w|] eqn:E; [|assumption].
    apply leadingSpace_width in E. apply IH. rewrite length_skipn. lia.
Qed.

Lemma trimRightSpace_done k : forall s,
  List.length s <= k -> trailingSpace (trimRightSpace k s) = None.
Proof.
  induction k as [|k IH]; intros s H.
  - destruct s; [reflexivity|simpl in H; lia].
  - cbn [trimRightSpace]. destruct (trailingSpace s) as [w|] eqn:E; [|assumption].
    apply trailingSpace_width in E. apply IH. rewrite length_firstn. lia.
Qed.

Lemma trimRightSpace_prefix k : forall s,
  exists n, trimRightSpace k s = firstn n s.
Proof.
  induction k as [|k IH]; intros s.
  - exists (List.length s). now rewrite firstn_all.
  - cbn [trimRightSpace]. destruct (trailingSpace s) as [w|].
    + destruct (IH (firstn (List.length s - w) s)) as [n ->].
      rewrite firstn_firstn. now eexists.
    + exists (List.length s). now rewrite firstn_all.
Qed.

Lemma leadingSpace_firstn s n : leadingSpace s = None -> leadingSpace (firstn n s) = None.
Proof.
  unfold leadingSpace. destruct s as [|c s]; [now rewrite firstn_nil|].
  destruct n as [|n]; [reflexivity|]. cbn [firstn].
  destruct (asciiSpace c); [discriminate|].
  destruct (find (HasPrefix (c :: s)) unicodeSpaces) eqn:E; [discriminate|]. intros _.
  destruct (find (HasPrefix (c :: firstn n s)) unicodeSpaces) as [enc|] eqn:E'; [|reflexivity].
  apply find_some in E' as [Hin Hp].
  apply (find_none _ _ E) in Hin.
  change (c :: firstn n s) with (firstn (S n) (c :: s)) in Hp.
  apply (HasPrefix_app_l _ (skipn (S n) (c :: s))) in Hp.
  rewrite firstn_skipn in Hp. congruence.
Qed.

(** What [TrimSpace] returns neither starts nor ends with a white-space
    rune. *)
Lemma TrimSpace_trimmed s :
  leadingSpace (b (TrimSpace s)) = None /\ trailingSpace (b (TrimSpace s)) = None.
Proof.
  unfold TrimSpace, b, ofBytes. rewrite list_ascii_of_string_of_list_ascii.
  set (l := trimLeftSpace (String.length s) (list_ascii_of_string s)).
  split.
  - destruct (trimRightSpace_prefix (List.length l) l) as [n ->].
    apply leadingSpace_firstn. subst l. apply trimLeftSpace_done.
    clear. induction s; simpl; lia.
  - now apply trimRightSpace_done.
Qed.

End TrimSpaceFacts.

(** ** The reference functions, one cut at a time *)

Section SpecFacts.
Local Open Scope nat_scope.
Variables (limit : nat) (sep : bytes).
Hypothesis sep_nonempty : sep <> [].

Lemma sep_length : 0 < List.length sep.
Proof. destruct sep; [congruence|simpl; lia]. Qed.

Lemma markedLoop_rounds k1 : forall k2 data,
  List.length data <= k1 -> List.length data <= k2 ->
  markedLoop k1 limit sep data = markedLoop k2 limit sep data.
Proof.
  pose proof sep_length as Hs.
  induction k1 as [|k1 IH]; intros k2 data H1 H2.
  - destruct data; [|simpl in H1; lia].
    destruct k2; cbn [markedLoop]; [reflexivity|]. now rewrite (Index_nil _ sep_nonempty).
  - destruct k2 as [|k2].
    + destruct data; [|simpl in H2; lia]. cbn [markedLoop]. now rewrite (Index_nil _ sep_nonempty).
    + cbn [markedLoop]. destruct (GoBytes.Index data sep) as [i|] eqn:E; [|reflexivity].
      apply Index_bound in E.
      destruct (i + List.length sep <=? limit); [|reflexivity].
      f_equal. apply IH; rewrite length_skipn; lia.
Qed.

Lemma marked_unfold data :
  marked limit sep data =
    match GoBytes.Index data sep with
    | Some i =>
        if i + List.length sep <=? limit
        then firstn i data :: marked limit sep (skipn (i + List.length sep) data)
        else []
    | None => []
    end.
Proof.
  pose proof sep_length as Hs.
  unfold marked. destruct (GoBytes.Index data sep) as [i|] eqn:E.
  - pose proof (Index_bound _ _ _ E) as Hb.
    destruct (List.length data) as [|n] eqn:En; [lia|].
    cbn [markedLoop]. rewrite E. destruct (i + List.length sep <=? limit); [|reflexivity].
    f_equal. apply markedLoop_rounds; rewrite ?length_skipn; lia.
  - destruct (List.length data); cbn [markedLoop]; [reflexivity|now rewrite E].
Qed.

Lemma tailLoop_rounds k1 : forall k2 data,
  List.length data <= k1 -> List.length data <= k2 ->
  tailLoop k1 limit sep data = tailLoop k2 limit sep data.
Proof.
  pose proof sep_length as Hs.
  induction k1 as [|k1 IH]; intros k2 data H1 H2.
  - destruct data; [|simpl in H1; lia].
    destruct k2; cbn [tailLoop]; now rewrite (Index_nil _ sep_nonempty).
  - destruct k2 as [|k2].
    + destruct data; [|simpl in H2; lia]. cbn [tailLoop]. now rewrite (Index_nil _ sep_nonempty).
    + cbn [tailLoop]. destruct (GoBytes.Index data sep) as [i|] eqn:E; [|reflexivity].
      apply Index_bound in E.
      destruct (i + List.length sep <=? limit); [|reflexivity].
      apply IH; rewrite length_skipn; lia.
Qed.

Lemma tail_unfold data :
  tail limit sep data =
    match GoBytes.Index data sep with
    | Some i =>
        if i + List.length sep <=? limit
        then tail limit sep (skipn (i + List.length sep) data)
        else None
    | None =>
        match data with
        | [] => None
        | _ => if List.length data <? limit then Some data else None
        end
    end.
Proof.
  pose proof sep_length as Hs.
  unfold tail. destruct (GoBytes.Index data sep) as [i|] eqn:E.
  - pose proof (Index_bound _ _ _ E) as Hb.
    destruct (List.length data) as [|n] eqn:En; [lia|].
    cbn [tailLoop]. rewrite E. destruct (i + List.length sep <=? limit); [|reflexivity].
    apply tailLoop_rounds; rewrite ?length_skipn; lia.
  - generalize (List.length data) at 1. intros k.
    destruct k; cbn [tailLoop]; now rewrite E.
Qed.

Lemma scanSpec_unfold post data :
  scanSpec limit sep post data =
    match GoBytes.Index data sep with
    | Some i =>
        if i + List.length sep <=? limit
        then post (firstn i data)
               :: scanSpec limit sep post (skipn (i + List.length sep) data)
        else []
    | None =>
        match data with
        | [] => []
        | _ => if List.length data <? limit then [post data] else []
        end
    end.
Proof.
  unfold scanSpec. rewrite marked_unfold, tail_unfold.
  destruct (GoBytes.Index data sep) as [i|].
  - destruct (i + List.length sep <=? limit); reflexivity.
  - destruct data; [reflexivity|]. destruct (_ <? _); reflexivity.
Qed.

End SpecFacts.

(** ** The scanner hands out the tokens of [scanSpec] *)

Lemma startBufSize_pos : 0 < startBufSize.
Proof. unfold startBufSize. lia. Qed.

Section ScanDelim.
Local Open Scope nat_scope.
Variables (sep : bytes) (post : bytes -> bytes) (limit : nat).
Hypothesis sep_nonempty : sep <> [].
Hypothesis limit_pos : 0 < limit.

Local Abbreviation state r st w bl em e :=
  (mkScanner r (delimSplit sep post) limit st w bl em e false).

Lemma round_token r st w bl em e i :
  GoBytes.Index w sep = Some i ->
  scanRound (state r st w bl em e)
  = (state r (st + (i + List.length sep)) (skipn (i + List.length sep) w) bl 0 e,
     Token (post (firstn i w))).
Proof.
  intros E. pose proof (Index_bound _ _ _ E) as Hb.
  pose proof (sep_length _ sep_nonempty) as Hs.
  unfold scanRound. cbn [done err window split start bufLen].
  assert (Hw : (0 <? List.length w) = true) by (apply Nat.ltb_lt; lia).
  rewrite Hw. cbn [orb].
  unfold delimSplit at 1. rewrite E.
  assert (Hz : (List.length w =? 0) = false) by (apply Nat.eqb_neq; lia).
  rewrite Hz, andb_false_r.
  assert (Ha : (List.length w <? i + List.length sep) = false) by (apply Nat.ltb_ge; lia).
  rewrite Ha.
  assert (Hp : (0 <? i + List.length sep) = true) by (apply Nat.ltb_lt; lia).
  rewrite Hp, orb_true_r. reflexivity.
Qed.

Lemma round_eof_empty r st bl em e :
  scanRound (state r st [] bl em (Some e)) = (state r 0 [] bl em (Some e), Stop).
Proof. reflexivity. Qed.

Lemma round_eof_tail r st w bl em e :
  w <> [] -> GoBytes.Index w sep = None ->
  scanRound (state r st w bl em (Some e))
  = (state r (st + List.length w) [] bl 0 (Some e), Token (post w)).
Proof.
  intros Hne E. unfold scanRound. cbn [done err window split start bufLen].
  rewrite orb_true_r. unfold delimSplit at 1. rewrite E.
  assert (Hz : (List.length w =? 0) = false).
  { apply Nat.eqb_neq. destruct w; [congruence|simpl; lia]. }
  rewrite Hz. cbn [andb]. rewrite Nat.ltb_irrefl.
  assert (Hp : (0 <? List.length w) = true).
  { apply Nat.ltb_lt. destruct w; [congruence|simpl; lia]. }
  rewrite Hp. cbn [negb orb]. rewrite skipn_all. reflexivity.
Qed.

Lemma round_more r st w bl em :
  GoBytes.Index w sep = None ->
  scanRound (state r st w bl em None) = readMore (state r st w bl em None).
Proof.
  intros E. unfold scanRound. cbn [done err window split start bufLen].
  destruct w as [|c w'].
  - reflexivity.
  - cbn [List.length Nat.ltb Nat.leb orb]. unfold delimSplit at 1. rewrite E.
    cbn [andb]. cbn [Nat.ltb Nat.leb skipn setBuf rd split maxTokenSize empties err done].
    rewrite Nat.add_0_r. reflexivity.
Qed.

Lemma readMore_unfold r st w bl em :
  readMore (state r st w bl em None) =
    let st1 :=
      if (0 <? st) && ((st + List.length w =? bl) || (bl / 2 <? st)) then 0 else st in
    if st1 + List.length w =? bl then
      if limit <=? bl then (state r st1 w bl em (Some ErrTooLong), Stop)
      else
        (read (state r 0 w
                 (Nat.min (if bl * 2 =? 0 then startBufSize else bl * 2) limit) em None),
         Again)
    else (read (state r st1 w bl em None), Again).
Proof.
  unfold readMore, end_.
  cbn [start window bufLen maxTokenSize rd split empties err done].
  destruct ((0 <? st) && ((st + List.length w =? bl) || (bl / 2 <? st)));
    unfold setBuf, setErr;
    cbn [start window bufLen maxTokenSize rd split empties err done];
    reflexivity.
Qed.

(** The buffer is full of one unfinished token exactly when the window
    has [limit] bytes; otherwise there is room to read. *)
Lemma readMore_cases r st w bl em :
  st + List.length w <= bl -> bl <= limit ->
  (List.length w = limit /\ snd (readMore (state r st w bl em None)) = Stop)
  \/ (List.length w < limit /\
      exists st' bl', st' + List.length w < bl' /\ bl' <= limit /\
        readMore (state r st w bl em None) = (read (state r st' w bl' em None), Again)).
Proof.
  intros H1 H2. pose proof startBufSize_pos as Hsb.
  rewrite readMore_unfold.
  destruct ((0 <? st) && ((st + List.length w =? bl) || (bl / 2 <? st))) eqn:Eshift;
    cbv zeta.
  - apply andb_true_iff in Eshift as [Hst _]. apply Nat.ltb_lt in Hst.
    destruct (0 + List.length w =? bl) eqn:Efull.
    + apply Nat.eqb_eq in Efull. lia.
    + apply Nat.eqb_neq in Efull. right. split; [lia|].
      exists 0, bl. repeat split; lia.
  - destruct (st + List.length w =? bl) eqn:Efull.
    + apply Nat.eqb_eq in Efull.
      assert (st = 0).
      { apply andb_false_iff in Eshift as [Hz|Hz].
        - apply Nat.ltb_ge in Hz. lia.
        - discriminate. }
      subst st.
      destruct (limit <=? bl) eqn:Emax.
      * apply Nat.leb_le in Emax. left. split; [lia|reflexivity].
      * apply Nat.leb_gt in Emax. right. split; [lia|].
        exists 0. eexists. split; [|split; [|reflexivity]].
        -- destruct (bl * 2 =? 0) eqn:E0.
           ++ apply Nat.eqb_eq in E0. lia.
           ++ apply Nat.eqb_neq in E0. lia.
        -- lia.
    + apply Nat.eqb_neq in Efull. right. split; [lia|].
      exists st, bl. repeat split; lia.
Qed.

Lemma scan_eof k : forall r st w bl em,
  List.length w < limit -> List.length w + 1 <= k ->
  scan k (state r st w bl em (Some io_EOF)) = (scanSpec limit sep post w, Finished).
Proof.
  pose proof (sep_length _ sep_nonempty) as Hs.
  induction k as [|k IH]; intros r st w bl em Hw Hk; [lia|].
  cbn [scan]. rewrite (scanSpec_unfold _ _ sep_nonempty).
  destruct (GoBytes.Index w sep) as [i|] eqn:E.
  - pose proof (Index_bound _ _ _ E) as Hb.
    rewrite (round_token _ _ _ _ _ _ _ E).
    assert (Hl : (i + List.length sep <=? limit) = true) by (apply Nat.leb_le; lia).
    rewrite Hl, IH; [reflexivity| |]; rewrite length_skipn; lia.
  - destruct w as [|c w'].
    + rewrite round_eof_empty. reflexivity.
    + rewrite round_eof_tail by (assumption || discriminate).
      apply Nat.ltb_lt in Hw. rewrite Hw.
      destruct k as [|k']; [simpl in Hk; lia|].
      cbn [scan]. rewrite round_eof_empty. reflexivity.
Qed.

Lemma scan_reading k : forall r st w bl em,
  st + List.length w <= bl -> bl <= limit ->
  List.length w + 2 * List.length r + 2 <= k ->
  scan k (state r st w bl em None) = (scanSpec limit sep post (w ++ r), Finished).
Proof.
  pose proof (sep_length _ sep_nonempty) as Hs.
  induction k as [|k IH]; intros r st w bl em H1 H2 Hk; [lia|].
  cbn [scan]. rewrite (scanSpec_unfold _ _ sep_nonempty).
  destruct (GoBytes.Index w sep) as [i|] eqn:E.
  - pose proof (Index_bound _ _ _ E) as Hb.
    rewrite (round_token _ _ _ _ _ _ _ E).
    rewrite (Index_app_l _ r _ _ E).
    assert (Hl : (i + List.length sep <=? limit) = true) by (apply Nat.leb_le; lia).
    rewrite Hl, IH; try (rewrite ?length_skipn; lia).
    rewrite firstn_app, skipn_app.
    replace (i - List.length w) with 0 by lia.
    replace (i + List.length sep - List.length w) with 0 by lia.
    cbn [firstn skipn]. now rewrite app_nil_r.
  - rewrite (round_more _ _ _ _ _ E).
    destruct (readMore_cases r st w bl em H1 H2) as [[Hfull Hstop]|[Hroom (st' & bl' & Hst & Hbl & Hread)]].
    + destruct (readMore _) as [s' rnd]. cbn [snd] in Hstop. subst rnd.
      destruct (GoBytes.Index (w ++ r) sep) as [j|] eqn:Ej.
      * destruct (j + List.length sep <=? limit) eqn:Ejl; [|reflexivity].
        apply Nat.leb_le in Ejl.
        rewrite (Index_app_inv _ _ _ _ Ej) in E by lia. discriminate.
      * destruct (w ++ r) eqn:Ewr.
        { apply (f_equal (@List.length _)) in Ewr. rewrite length_app in Ewr.
          simpl in Ewr. lia. }
        rewrite <- Ewr.
        assert (Hlt : (List.length (w ++ r) <? limit) = false).
        { apply Nat.ltb_ge. rewrite length_app. lia. }
        now rewrite Hlt.
    + rewrite Hread. unfold read, end_. cbn [rd setErr err split maxTokenSize start window bufLen empties done end_].
      destruct r as [|c r'].
      * rewrite app_nil_r in *. rewrite scan_eof by (simpl in Hk; lia).
        now rewrite (scanSpec_unfold _ _ sep_nonempty).
      * remember (c :: r') as r eqn:Er.
        assert (Hr : 0 < List.length r) by (subst r; simpl; lia).
        destruct (Nat.min (bl' - (st' + List.length w)) (List.length r) =? 0) eqn:En.
        { apply Nat.eqb_eq in En. lia. }
        apply Nat.eqb_neq in En.
        set (n := Nat.min (bl' - (st' + List.length w)) (List.length r)) in *.
        rewrite IH.
        -- rewrite <- app_assoc, firstn_skipn.
           now rewrite (scanSpec_unfold _ _ sep_nonempty post (w ++ r)).
        -- rewrite length_app, length_firstn. lia.
        -- lia.
        -- rewrite length_app, length_firstn, length_skipn. lia.
Qed.

(** A scanner over [input] with a separator-cutting split function hands
    out the tokens of [scanSpec] and stops. *)
Theorem tokens_delimSplit input em :
  tokens (mkScanner input (delimSplit sep post) limit 0 [] 0 em None false)
  = (scanSpec limit sep post input, Finished).
Proof.
  unfold tokens, rounds. cbn [window rd]. rewrite scan_reading; try reflexivity; try lia.
Qed.

End ScanDelim.

(** ** The scanners of [parseLogOutput] and [parseTagsOutput] *)

Lemma b_ofBytes x : b (ofBytes x) = x.
Proof. apply list_ascii_of_string_of_list_ascii. Qed.

Lemma ofBytes_b s : ofBytes (b s) = s.
Proof. apply string_of_list_ascii_of_string. Qed.

Lemma b_length s : List.length (b s) = String.length s.
Proof. induction s; simpl; congruence. Qed.

Lemma b_nil s : b s = [] -> s = EmptyString.
Proof. destruct s; [reflexivity|discriminate]. Qed.

Lemma MaxScanTokenSize_pos : 0 < MaxScanTokenSize.
Proof. unfold MaxScanTokenSize. lia. Qed.

Lemma endLine_nonempty : b sv.endLine <> [].
Proof. discriminate. Qed.

Lemma newline_nonempty : ["010"%char] <> [].
Proof. discriminate. Qed.

Lemma logTokens_spec log :
  logTokens log = (scanSpec MaxScanTokenSize (b sv.endLine) (fun t => t) (b log), Finished).
Proof.
  exact (tokens_delimSplit (b sv.endLine) (fun t => t) MaxScanTokenSize
           endLine_nonempty MaxScanTokenSize_pos (b log) 0).
Qed.

Lemma tagTokens_spec input :
  tagTokens input = (scanSpec MaxScanTokenSize ["010"%char] dropCR (b input), Finished).
Proof.
  exact (tokens_delimSplit ["010"%char] dropCR MaxScanTokenSize
           newline_nonempty MaxScanTokenSize_pos (b input) 0).
Qed.

Lemma forScan_foldTokens {A : Type} (body : A -> string -> sv.result A) k :
  forall s acc,
    sv.forScan k s body acc = foldTokens body acc (fst (scan k s)) (snd (scan k s)).
Proof.
  induction k as [|k IH]; intros s acc; [reflexivity|].
  cbn [sv.forScan scan]. destruct (scanRound s) as [s' [t| | |]].
  - specialize (IH s'). destruct (scan k s') as [ts e]. cbn [fst snd foldTokens] in *.
    destruct (body acc (ofBytes t)); try reflexivity. apply IH.
  - reflexivity.
  - apply IH.
  - reflexivity.
Qed.

Lemma parseLogOutput_tokens {CM : Type} (mp : sv.MessageProcessor CM) log :
  sv.parseLogOutput mp log
  = foldTokens
      (fun logs token =>
         let text := TrimSpace (Trim token sv.dquote) in
         if negb (text =? EmptyString) then
           match sv.parseCommitLog mp text with
           | sv.Ok l => sv.Ok (logs ++ [l])
           | sv.Err err => sv.Err err
           | sv.Panic p => sv.Panic p
           | sv.Unfinished => sv.Unfinished
           end
         else sv.Ok logs)
      [] (fst (logTokens log)) (snd (logTokens log)).
Proof. unfold sv.parseLogOutput. now rewrite forScan_foldTokens. Qed.

(** ** The record splitter at the end of the stream *)

(** C1 (as amended).  On an input without the end-of-record marker the
    scanner of [parseLogOutput] hands out no record when the input is
    empty and ONE record otherwise, the whole input: [splitAt] returns the
    marker-less tail as a token at the end of the stream (the scanner
    hands it out when it is shorter than [MaxScanTokenSize] and stops with
    no record when it is longer).  [parseLogOutput] strips quotes and
    white space from that record, skips it only when nothing is left, and
    hands it to [parseCommitLog] otherwise. *)
Theorem splitAt_tail_without_marker (log : string) :
  GoStrings.Index log sv.endLine = None ->
  logTokens log
  = (match b log with
     | [] => []
     | _ => if (String.length log <? MaxScanTokenSize)%nat then [b log] else []
     end, Finished)
  /\ ((String.length log < MaxScanTokenSize)%nat ->
      forall (CommitMessage : Type) (mp : sv.MessageProcessor CommitMessage),
        sv.parseLogOutput mp log
        = let text := TrimSpace (Trim log sv.dquote) in
          if negb (text =? EmptyString) then
            sv.bind (sv.parseCommitLog mp text) (fun l => sv.Ok [l])
          else sv.Ok []).
Proof.
  intros Hidx.
  assert (Htok : logTokens log
                 = (match b log with
                    | [] => []
                    | _ => if (String.length log <? MaxScanTokenSize)%nat then [b log] else []
                    end, Finished)).
  { rewrite logTokens_spec, (scanSpec_unfold _ _ endLine_nonempty).
    unfold GoStrings.Index in Hidx. rewrite Hidx, b_length. reflexivity. }
  split; [exact Htok|].
  intros Hlen CM mp. rewrite parseLogOutput_tokens, Htok. cbn [fst snd].
  apply Nat.ltb_lt in Hlen. rewrite Hlen.
  destruct (b log) eqn:Eb.
  - apply b_nil in Eb. subst log. reflexivity.
  - rewrite <- Eb. cbn [foldTokens]. rewrite ofBytes_b. cbv zeta.
    destruct (negb (TrimSpace (Trim log sv.dquote) =? EmptyString)); [|reflexivity].
    destruct (sv.parseCommitLog mp _); reflexivity.
Qed.

Lemma splitAt_tail_without_marker_witness :
  GoStrings.Index "abc" sv.endLine = None /\ logTokens "abc" = ([b "abc"], Finished).
Proof.
  split; [reflexivity|].
  exact (proj1 (splitAt_tail_without_marker "abc" eq_refl)).
Defined.

(** C1 as stated fails: the input [abc] is not empty and has no marker,
    yet the splitter yields the record [abc], which [parseLogOutput]
    hands to [parseCommitLog], where [content[1]] is out of range; and a
    marker-less input of six fields is returned as a commit log entry. *)
Lemma splitAt_tail_is_not_discarded :
  b "abc" <> [] /\ GoStrings.Index "abc" sv.endLine = None
  /\ fst (logTokens "abc") = [b "abc"]
  /\ sv.parseLogOutput echo "abc" = sv.Panic (sv.IndexOutOfRange 1 1)
  /\ GoStrings.Index "d###1###a###h###s###b" sv.endLine = None
  /\ fst (logTokens "d###1###a###h###s###b") = [b "d###1###a###h###s###b"]
  /\ sv.parseLogOutput echo "d###1###a###h###s###b"
     = sv.Ok [sv.GitCommitLog.mk "d" 1 "a" "h" ("s", "b")].
Proof. repeat split; try discriminate; vm_compute; reflexivity. Qed.

Section RoundTrip.
Variables (limit : nat) (sep : bytes).
Hypothesis sep_nonempty : sep <> [].

Lemma markedLoop_cut k : forall data, Forall (cutRecord limit sep) (markedLoop k limit sep data).
Proof.
  induction k as [|k IH]; intros data; cbn [markedLoop]; [constructor|].
  destruct (GoBytes.Index data sep) as [i|] eqn:E; [|constructor].
  destruct (i + List.length sep <=? limit)%nat eqn:El; [|constructor].
  constructor; [|apply IH].
  pose proof (Index_bound _ _ _ E) as Hb.
  assert (Hlen : List.length (firstn i data) = i) by (rewrite length_firstn; lia).
  split.
  - rewrite Hlen. now apply Index_record.
  - rewrite Hlen. now apply Nat.leb_le.
Qed.

Lemma marked_join rs :
  Forall (cutRecord limit sep) rs ->
  marked limit sep (join sep rs) = rs /\ tail limit sep (join sep rs) = None.
Proof.
  induction 1 as [|r rs [Hi Hl] _ [IHm IHt]].
  - rewrite (marked_unfold _ _ sep_nonempty), (tail_unfold _ _ sep_nonempty).
    cbn [join map List.concat]. now rewrite (Index_nil _ sep_nonempty).
  - rewrite (marked_unfold _ _ sep_nonempty), (tail_unfold _ _ sep_nonempty).
    change (join sep (r :: rs)) with ((r ++ sep) ++ join sep rs).
    rewrite (Index_app_l _ (join sep rs) _ _ Hi).
    apply Nat.leb_le in Hl. rewrite Hl.
    rewrite <- app_assoc, firstn_app, skipn_app, firstn_all, Nat.sub_diag.
    cbn [firstn]. rewrite app_nil_r.
    rewrite (skipn_all2 r) by lia. cbn [app].
    replace (List.length r + List.length sep - List.length r)%nat
      with (List.length sep) by lia.
    rewrite skipn_app, skipn_all, Nat.sub_diag. cbn [skipn app].
    now rewrite IHm, IHt.
Qed.

End RoundTrip.

(** C2 (as amended).  The records the splitter produces from an input
    are its marker-terminated records, cut from the left for as long as
    a record with its marker fits in [MaxScanTokenSize] bytes (the scan
    ends at the first one that does not), followed by the marker-less
    remainder when the cutting gets there and the remainder is not empty
    and shorter than [MaxScanTokenSize] bytes (it is not dropped).
    Joining the marker-terminated records so produced with the marker,
    trailing marker included, and splitting again yields exactly those
    records. *)
Theorem splitAt_round_trip (log : string) :
  let records := marked MaxScanTokenSize (b sv.endLine) (b log) in
  fst (logTokens log)
  = records ++ match tail MaxScanTokenSize (b sv.endLine) (b log) with
               | Some t => [t]
               | None => []
               end
  /\ logTokens (ofBytes (join (b sv.endLine) records)) = (records, Finished).
Proof.
  intros records. split.
  - rewrite logTokens_spec. unfold scanSpec. cbn [fst]. now rewrite map_id.
  - rewrite logTokens_spec, b_ofBytes. unfold scanSpec.
    destruct (marked_join MaxScanTokenSize (b sv.endLine) endLine_nonempty records)
      as [Hm Ht].
    { apply markedLoop_cut. }
    now rewrite Hm, Ht, map_id, app_nil_r.
Qed.

(** C2 as stated fails: from [a~~] the splitter produces the one record
    [a~~], the marker-less tail; joined with the marker it reads [a~~~~~],
    which splits into [a] and [~~]. *)
Lemma splitAt_tail_breaks_round_trip :
  let records := fst (logTokens "a~~") in
  records = [b "a~~"]
  /\ fst (logTokens (ofBytes (join (b sv.endLine) records))) = [b "a"; b "~~"]
  /\ fst (logTokens (ofBytes (join (b sv.endLine) records))) <> records.
Proof. repeat split; try (vm_compute; reflexivity). vm_compute. discriminate. Qed.

(** ** The commit log parser *)

Section SplitFacts.
Variable sep : bytes.
Hypothesis sep_nonempty : sep <> [].

Lemma Index_before s i : GoBytes.Index s sep = Some i -> GoBytes.Index (firstn i s) sep = None.
Proof.
  intros E. pose proof (sep_length _ sep_nonempty) as Hs.
  destruct (GoBytes.Index (firstn i s) sep) as [j|] eqn:Ej; [|reflexivity].
  pose proof (Index_bound _ _ _ Ej) as Hb. rewrite length_firstn in Hb.
  apply (Index_app_l _ (skipn i s)) in Ej. rewrite firstn_skipn in Ej.
  rewrite E in Ej. injection Ej as ->. lia.
Qed.

Lemma firstField_no_sep s : GoBytes.Index (firstField sep s) sep = None.
Proof.
  unfold firstField. destruct (GoBytes.Index s sep) eqn:E; [|assumption].
  now apply Index_before.
Qed.

Lemma genSplit_nth n : forall k s,
  (List.length s <= k)%nat ->
  nth_error (genSplit k s sep) n = option_map (firstField sep) (afterSep n sep s).
Proof.
  pose proof (sep_length _ sep_nonempty) as Hs.
  induction n as [|n IH]; intros k s Hk.
  - cbn [afterSep option_map]. unfold firstField. destruct k as [|k]; cbn [genSplit].
    + destruct s; [|simpl in Hk; lia]. now rewrite (Index_nil _ sep_nonempty).
    + destruct (GoBytes.Index s sep); reflexivity.
  - cbn [afterSep]. destruct k as [|k]; cbn [genSplit].
    + destruct s; [|simpl in Hk; lia]. rewrite (Index_nil _ sep_nonempty).
      now destruct n.
    + destruct (GoBytes.Index s sep) as [i|] eqn:E.
      * cbn [nth_error]. apply IH. apply Index_bound in E. rewrite length_skipn. lia.
      * now destruct n.
Qed.

Lemma Split_nth s n :
  nth_error (GoBytes.Split s sep) n = option_map (firstField sep) (afterSep n sep s).
Proof. unfold GoBytes.Split. now apply genSplit_nth. Qed.

Lemma genSplit_length k : forall s,
  (List.length s <= k)%nat ->
  List.length (genSplit k s sep) = S (countLoop k s sep).
Proof.
  induction k as [|k IH]; intros s Hk; cbn [genSplit countLoop]; [reflexivity|].
  destruct (GoBytes.Index s sep) as [i|] eqn:E; [|reflexivity].
  cbn [List.length]. f_equal. apply IH.
  apply Index_bound in E. pose proof (sep_length _ sep_nonempty). rewrite length_skipn. lia.
Qed.

Lemma Split_length s : List.length (GoBytes.Split s sep) = S (GoBytes.Count s sep).
Proof. unfold GoBytes.Split, GoBytes.Count. now apply genSplit_length. Qed.

End SplitFacts.

Lemma logSeparator_nonempty : b sv.logSeparator <> [].
Proof. discriminate. Qed.

Lemma strings_Split_nth s sep n x :
  nth_error (GoStrings.Split s sep) n = Some x ->
  b sep <> [] ->
  exists rest, afterSep n (b sep) (b s) = Some rest /\ b x = firstField (b sep) rest.
Proof.
  unfold GoStrings.Split. intros H Hsep. rewrite nth_error_map, (Split_nth _ Hsep) in H.
  destruct (afterSep n (b sep) (b s)) as [rest|]; [|discriminate].
  cbn [option_map] in H. injection H as <-. exists rest. now rewrite b_ofBytes.
Qed.

Section ParseCommitLog.
Context {CommitMessage : Type} (mp : sv.MessageProcessor CommitMessage).

(** With six fields at hand no index is out of range. *)
Lemma parseCommitLog_fields commit f0 f1 f2 f3 f4 f5 rest :
  GoStrings.Split (Trim commit sv.dquote) sv.logSeparator
    = f0 :: f1 :: f2 :: f3 :: f4 :: f5 :: rest ->
  sv.parseCommitLog mp commit
  = match sv.Parse f4 f5 with
    | inl message => sv.Ok (sv.GitCommitLog.mk f0 (fst (Atoi f1)) f2 f3 message)
    | inr err => sv.Err err
    end.
Proof.
  intros H. unfold sv.parseCommitLog. rewrite H.
  cbn [sv.index nth_error sv.bind]. destruct (Atoi f1) as [timestamp e].
  cbn [sv.bind fst]. reflexivity.
Qed.

End ParseCommitLog.

(** C4.  The record of the example parses to the date, timestamp, author
    and hash of the example, with the message that the message processor
    returns for the subject [fix: bug] and the body [body text]; an error
    of the message processor is passed on. *)
Theorem parseCommitLog_example (CommitMessage : Type) (mp : sv.MessageProcessor CommitMessage) :
  sv.parseCommitLog mp "2024-01-02###1704153600###Jane Doe###abc1234###fix: bug###body text"
  = match sv.Parse "fix: bug" "body text" with
    | inl message =>
        sv.Ok (sv.GitCommitLog.mk "2024-01-02" 1704153600 "Jane Doe" "abc1234" message)
    | inr err => sv.Err err
    end.
Proof. now rewrite (parseCommitLog_fields mp _ "2024-01-02" "1704153600" "Jane Doe" "abc1234" "fix: bug" "body text" []). Qed.

(** C3 (as amended).  For a record with at least six fields the parser
    reads the first five fields and takes as body the sixth field of the
    split at EVERY separator: what is left behind the fifth separator,
    cut at its first separator when it has one.  The body never contains
    the separator. *)
Theorem parseCommitLog_body_is_sixth_field (CommitMessage : Type)
        (mp : sv.MessageProcessor CommitMessage) commit f0 f1 f2 f3 f4 f5 more :
  GoStrings.Split (Trim commit sv.dquote) sv.logSeparator
    = f0 :: f1 :: f2 :: f3 :: f4 :: f5 :: more ->
  sv.parseCommitLog mp commit
  = match sv.Parse f4 f5 with
    | inl message => sv.Ok (sv.GitCommitLog.mk f0 (fst (Atoi f1)) f2 f3 message)
    | inr err => sv.Err err
    end
  /\ (exists rest,
        afterSep 5 (b sv.logSeparator) (b (Trim commit sv.dquote)) = Some rest
        /\ b f5 = firstField (b sv.logSeparator) rest)
  /\ GoStrings.Index f5 sv.logSeparator = None.
Proof.
  intros H. split; [now apply parseCommitLog_fields with (rest := more)|].
  assert (H5 : nth_error (GoStrings.Split (Trim commit sv.dquote) sv.logSeparator) 5 = Some f5)
    by now rewrite H.
  destruct (strings_Split_nth _ _ _ _ H5 logSeparator_nonempty) as (rest & Hr & Hf).
  split; [now exists rest|].
  unfold GoStrings.Index. rewrite Hf. apply firstField_no_sep. exact logSeparator_nonempty.
Qed.

Lemma parseCommitLog_body_is_sixth_field_witness :
  sv.parseCommitLog echo "d###1###a###h###s###b1###b2"
  = sv.Ok (sv.GitCommitLog.mk "d" 1 "a" "h" ("s", "b1"))
  /\ GoStrings.Index "b1" sv.logSeparator = None.
Proof.
  pose proof (parseCommitLog_body_is_sixth_field _ echo "d###1###a###h###s###b1###b2"
                "d" "1" "a" "h" "s" "b1" ["b2"] eq_refl) as [H1 [_ H3]].
  split; [exact H1|exact H3].
Defined.

(** C3 as stated fails: behind the fifth separator of this record the
    content is [b1###b2]; the record splits into seven fields and the body
    handed to the message processor is [b1]. *)
Lemma parseCommitLog_body_stops_at_separator :
  afterSep 5 (b sv.logSeparator) (b "d###1###a###h###s###b1###b2") = Some (b "b1###b2")
  /\ List.length (GoStrings.Split "d###1###a###h###s###b1###b2" sv.logSeparator) = 7%nat
  /\ sv.parseCommitLog echo "d###1###a###h###s###b1###b2"
     = sv.Ok (sv.GitCommitLog.mk "d" 1 "a" "h" ("s", "b1")).
Proof. repeat split. Qed.

Lemma parseUintLoop_error s0 s : forall n v e,
  parseUintLoop s0 n s = (v, Some e) ->
  (e = ErrSyntax s0 /\ v = 0%Z) \/ (e = ErrRange s0 /\ v = maxUint64).
Proof.
  induction s as [|c s IH]; intros n v e; cbn [parseUintLoop]; [discriminate|].
  destruct (negb (isDigit c)); [intros [= <- <-]; now left|].
  destruct (_ <=? n)%Z; [intros [= <- <-]; now right|].
  destruct (_ <? _)%Z; [intros [= <- <-]; now right|].
  apply IH.
Qed.

Lemma ParseUint_error s v e :
  ParseUint s = (v, Some e) ->
  (exists x, e = ErrSyntax x /\ v = 0%Z) \/ (exists x, e = ErrRange x /\ v = maxUint64).
Proof.
  unfold ParseUint. destruct (b s) as [|c l].
  - intros [= <- <-]. left. now eexists.
  - intros H. apply parseUintLoop_error in H as [[-> ->]|[-> ->]]; [left|right]; now eexists.
Qed.

Lemma ParseInt_error s v e : ParseInt s = (v, Some e) -> atoiFailure s v e.
Proof.
  unfold ParseInt, atoiFailure. destruct (b s) as [|c tl].
  - intros [= <- <-]. now left.
  - destruct (ParseUint _) as [un [err|]] eqn:Eu.
    + apply ParseUint_error in Eu as [(x & -> & ->)|(x & -> & ->)].
      * intros [= <- <-]. now left.
      * destruct (Ascii.eqb c "-"); cbn [negb andb].
        -- destruct (_ <? _)%Z; [|discriminate]. intros [= <- <-]. right. split; auto.
        -- destruct (_ <=? _)%Z; [|discriminate]. intros [= <- <-]. right. split; auto.
    + destruct (Ascii.eqb c "-"); cbn [negb andb].
      * destruct (_ <? _)%Z; [|discriminate]. intros [= <- <-]. right. split; auto.
      * destruct (_ <=? _)%Z; [|discriminate]. intros [= <- <-]. right. split; auto.
Qed.

Lemma atoiFast_error s0 s : forall n v e, atoiFast s0 n s = (v, Some e) -> e = ErrSyntax s0.
Proof.
  induction s as [|c s IH]; intros n v e; cbn [atoiFast]; [discriminate|].
  destruct (isDigit c); [apply IH|]. now intros [= <- <-].
Qed.

Lemma Atoi_error s v e : Atoi s = (v, Some e) -> atoiFailure s v e.
Proof.
  unfold Atoi. destruct (_ && _); [|apply ParseInt_error].
  destruct (b s) as [|c tl]; [intros [= <- <-]; now left|].
  destruct (if isSign c then tl else c :: tl) as [|d ds] eqn:Ed;
    [intros [= <- <-]; now left|].
  destruct (atoiFast s 0 (d :: ds)) as [n [err|]] eqn:Ef; [|discriminate].
  apply atoiFast_error in Ef. subst err. intros [= <- <-]. now left.
Qed.

Lemma atoiFast_digits s0 s : forall n v,
  atoiFast s0 n s = (v, None) -> forallb isDigit s = true.
Proof.
  induction s as [|c s IH]; intros n v; cbn [atoiFast forallb]; [reflexivity|].
  destruct (isDigit c); [apply IH|discriminate].
Qed.

Lemma parseUintLoop_digits s0 s : forall n v,
  parseUintLoop s0 n s = (v, None) -> forallb isDigit s = true.
Proof.
  induction s as [|c s IH]; intros n v; cbn [parseUintLoop forallb]; [reflexivity|].
  destruct (isDigit c); cbn [negb andb]; [|discriminate].
  destruct (_ <=? n)%Z; [discriminate|].
  destruct (_ <? _)%Z; [discriminate|]. apply IH.
Qed.

Lemma ParseInt_literal s v : ParseInt s = (v, None) -> isIntLiteral s = true.
Proof.
  unfold ParseInt, isIntLiteral. destruct (b s) as [|c tl]; [discriminate|].
  set (ds := if isSign c then tl else c :: tl).
  unfold ParseUint. rewrite b_ofBytes.
  destruct ds as [|d ds'] eqn:Eds; [discriminate|].
  destruct (parseUintLoop _ 0 (d :: ds')) as [un [err|]] eqn:Eu.
  - apply parseUintLoop_error in Eu as [[-> ->]|[-> ->]]; [discriminate|].
    destruct (Ascii.eqb c "-"); cbn [negb andb].
    + change (2 ^ (IntSize - 1) <? maxUint64)%Z with true. discriminate.
    + change (2 ^ (IntSize - 1) <=? maxUint64)%Z with true. discriminate.
  - intros _. apply parseUintLoop_digits in Eu. now rewrite Eu.
Qed.

(** [Atoi] accepts decimal integer literals only. *)
Lemma Atoi_literal s v : Atoi s = (v, None) -> isIntLiteral s = true.
Proof.
  unfold Atoi. destruct (_ && _); [|apply ParseInt_literal].
  unfold isIntLiteral. destruct (b s) as [|c tl]; [discriminate|].
  destruct (if isSign c then tl else c :: tl) as [|d ds] eqn:Ed; [discriminate|].
  destruct (atoiFast s 0 (d :: ds)) as [n [err|]] eqn:Ef; [discriminate|].
  intros _. apply atoiFast_digits in Ef. now rewrite Ef.
Qed.

(** On fields of fewer than 19 bytes a failure of [Atoi] is a syntax
    error and leaves 0. *)
Lemma Atoi_short s v e :
  (String.length s < 19)%nat -> Atoi s = (v, Some e) -> e = ErrSyntax s /\ v = 0%Z.
Proof.
  intros Hlen. unfold Atoi.
  destruct (String.length s) as [|k] eqn:El.
  - destruct s; [|discriminate]. cbn. now intros [= <- <-].
  - assert (Hf : ((0 <? S k)%nat && (S k <? 19)%nat) = true).
    { apply andb_true_iff. split; [reflexivity|]. now apply Nat.ltb_lt. }
    rewrite Hf.
    destruct (b s) as [|c tl]; [now intros [= <- <-]|].
    destruct (if isSign c then tl else c :: tl) as [|d ds]; [now intros [= <- <-]|].
    destruct (atoiFast s 0 (d :: ds)) as [n [err|]] eqn:Ef; [|discriminate].
    apply atoiFast_error in Ef. subst err. now intros [= <- <-].
Qed.

(** [Atoi] fails on every string that is not a decimal integer literal. *)
Lemma Atoi_rejects s : isIntLiteral s = false -> exists v e, Atoi s = (v, Some e).
Proof.
  intros H. destruct (Atoi s) as [v [e|]] eqn:E; [now exists v, e|].
  apply Atoi_literal in E. congruence.
Qed.

(** C5 (as amended).  For a record with six fields whose timestamp field
    is not a decimal integer, or is one that [Atoi] fails on, the failure
    of [Atoi] is not an error of the parser: when the message processor
    accepts subject and body the entry is produced, and its timestamp is
    the value [Atoi] leaves, 0 after a syntax error (so for every field
    of fewer than 19 bytes) and the largest or the smallest [int] after a
    range error. *)
Theorem parseCommitLog_timestamp_failure (CommitMessage : Type)
        (mp : sv.MessageProcessor CommitMessage)
        commit f0 f1 f2 f3 f4 f5 more message :
  GoStrings.Split (Trim commit sv.dquote) sv.logSeparator
    = f0 :: f1 :: f2 :: f3 :: f4 :: f5 :: more ->
  isIntLiteral f1 = false \/ snd (Atoi f1) <> None ->
  sv.Parse f4 f5 = inl message ->
  exists v e,
    Atoi f1 = (v, Some e)
    /\ sv.parseCommitLog mp commit = sv.Ok (sv.GitCommitLog.mk f0 v f2 f3 message)
    /\ ((e = ErrSyntax f1 /\ v = 0%Z)
        \/ (e = ErrRange f1 /\ (v = maxInt \/ v = minInt)))
    /\ ((String.length f1 < 19)%nat -> v = 0%Z).
Proof.
  intros Hf Hbad Hp.
  assert (Ha : exists v e, Atoi f1 = (v, Some e)).
  { destruct Hbad as [Hlit|Herr]; [now apply Atoi_rejects|].
    destruct (Atoi f1) as [v [e|]]; [now exists v, e|now elim Herr]. }
  destruct Ha as (v & e & Ha). exists v, e. split; [exact Ha|]. split; [|split].
  - rewrite (parseCommitLog_fields mp _ _ _ _ _ _ _ _ Hf), Hp, Ha. reflexivity.
  - exact (Atoi_error _ _ _ Ha).
  - intros Hlen. exact (proj2 (Atoi_short _ _ _ Hlen Ha)).
Qed.

Lemma parseCommitLog_timestamp_failure_witness :
  exists v e,
    Atoi "12a" = (v, Some e)
    /\ sv.parseCommitLog echo "d###12a###a###h###s###b"
       = sv.Ok (sv.GitCommitLog.mk "d" v "a" "h" ("s", "b"))
    /\ ((e = ErrSyntax "12a" /\ v = 0%Z)
        \/ (e = ErrRange "12a" /\ (v = maxInt \/ v = minInt)))
    /\ ((String.length "12a" < 19)%nat -> v = 0%Z).
Proof.
  apply (parseCommitLog_timestamp_failure _ echo "d###12a###a###h###s###b"
           "d" "12a" "a" "h" "s" "b" [] ("s", "b")).
  - reflexivity.
  - left. reflexivity.
  - reflexivity.
Defined.

(** C5 as stated fails: [99999999999999999999x] is not an integer, [Atoi]
    fails on it with a range error as soon as the digits overflow, and the
    timestamp is the largest [int]; so it is for the same field without
    the [x]. *)
Lemma parseCommitLog_timestamp_out_of_range :
  isIntLiteral "99999999999999999999x" = false
  /\ snd (Atoi "99999999999999999999x") = Some (ErrRange "99999999999999999999x")
  /\ sv.parseCommitLog echo "d###99999999999999999999x###a###h###s###b"
     = sv.Ok (sv.GitCommitLog.mk "d" 9223372036854775807 "a" "h" ("s", "b"))
  /\ snd (Atoi "99999999999999999999") = Some (ErrRange "99999999999999999999")
  /\ sv.parseCommitLog echo "d###99999999999999999999###a###h###s###b"
     = sv.Ok (sv.GitCommitLog.mk "d" 9223372036854775807 "a" "h" ("s", "b")).
Proof. repeat split. Qed.

(** ** The range arguments of [Log] *)

Lemma isDigit_range c : isDigit c = true -> (0 <= digit c <= 9)%Z.
Proof.
  unfold isDigit, digit. intros H. apply andb_true_iff in H as [H1 H2].
  apply Nat.leb_le in H1, H2. lia.
Qed.

Lemma daysIn_range m y : (28 <= daysIn m y <= 31)%Z.
Proof.
  unfold daysIn. destruct (m =? 2)%Z; [destruct (isLeap y); lia|].
  destruct (_ || _); lia.
Qed.

(** [time.Parse] with the layout ["2006-01-02"] reads exactly the valid
    date strings. *)
Lemma parseDate_validDate value :
  parseDate (b value) = option_map midnightUTC (validDate value).
Proof.
  unfold validDate, parseDate, longYear, skip, getnum.
  destruct (b value) as [|y0 [|y1 [|y2 [|y3 l]]]]; try reflexivity.
  destruct (isDigit y0) eqn:D0; [|now destruct l as [|? [|? [|? [|? [|? [|? [|? ?]]]]]]]].
  destruct (isDigit y1) eqn:D1; [|now destruct l as [|? [|? [|? [|? [|? [|? [|? ?]]]]]]]].
  destruct (isDigit y2) eqn:D2; [|now destruct l as [|? [|? [|? [|? [|? [|? [|? ?]]]]]]]].
  destruct (isDigit y3) eqn:D3; [|now destruct l as [|? [|? [|? [|? [|? [|? [|? ?]]]]]]]].
  cbn [andb].
  destruct l as [|h0 l]; [reflexivity|].
  destruct (Ascii.eqb h0 "-") eqn:H0; [|now destruct l as [|? [|? [|? [|? [|? [|? ?]]]]]]].
  destruct l as [|m0 l]; [reflexivity|].
  destruct (isDigit m0) eqn:M0; [|now destruct l as [|? [|? [|? [|? [|? ?]]]]]].
  destruct l as [|m1 l]; [reflexivity|].
  destruct (isDigit m1) eqn:M1; [|now destruct l as [|? [|? [|? [|? ?]]]]].
  cbn [andb].
  pose proof (isDigit_range _ M0) as R0. pose proof (isDigit_range _ M1) as R1.
  fold (num2 m0 m1). fold (num2 y0 y1). 
  set (m := num2 m0 m1).
  assert (Hm : ((m <=? 0) || (12 <? m) = negb ((1 <=? m) && (m <=? 12)))%Z).
  { destruct (m <=? 0)%Z eqn:A, (12 <? m)%Z eqn:B, (1 <=? m)%Z eqn:C, (m <=? 12)%Z eqn:D;
      try reflexivity; lia. }
  destruct l as [|h1 l].
  { destruct (_ || _)%Z; reflexivity. }
  destruct (Ascii.eqb h1 "-") eqn:H1.
  2:{ destruct (_ || _)%Z; now destruct l as [|? [|? [|? ?]]]. }
  destruct l as [|d0 l].
  { destruct (_ || _)%Z; reflexivity. }
  destruct (isDigit d0) eqn:E0.
  2:{ destruct (_ || _)%Z; now destruct l as [|? [|? ?]]. }
  destruct l as [|d1 l].
  { destruct (_ || _)%Z; reflexivity. }
  destruct (isDigit d1) eqn:E1.
  2:{ destruct (_ || _)%Z; now destruct l as [|? ?]. }
  cbn [andb]. fold (num2 d0 d1). set (d := num2 d0 d1).
  rewrite Hm.
  destruct l as [|x l].
  2:{ destruct (_ && _)%Z; reflexivity. }
  replace (((num2 y0 y1 * 10 + digit y2) * 10 + digit y3)%Z)
    with ((num2 y0 y1 * 100 + num2 y2 y3)%Z) by (unfold num2; lia).
  set (y := (num2 y0 y1 * 100 + num2 y2 y3)%Z).
  destruct ((1 <=? m)%Z && (m <=? 12)%Z) eqn:Em; cbn [negb andb]; [|reflexivity].
  apply andb_true_iff in Em as [Em1 Em2].
  assert (Hd : ((d <? 1) || (daysIn m y <? d) = negb ((1 <=? d) && (d <=? daysIn m y)))%Z).
  { destruct (d <? 1)%Z eqn:A, (daysIn m y <? d)%Z eqn:B, (1 <=? d)%Z eqn:C,
             (d <=? daysIn m y)%Z eqn:D; try reflexivity; lia. }
  rewrite Hd. destruct ((1 <=? d)%Z && (d <=? daysIn m y)%Z) eqn:Ed; cbn [negb]; [|reflexivity].
  apply andb_true_iff in Ed as [Ed1 Ed2].
  cbn [option_map midnightUTC]. f_equal.
  unfold Date.
  replace ((m - 1) / 12)%Z with 0%Z by (symmetry; apply Z.div_small; lia).
  replace ((m - 1) mod 12 + 1)%Z with m by (rewrite Z.mod_small; lia).
  cbn [normDay].
  assert (A : (d <? 1)%Z = false) by lia. assert (B : (daysIn m (y + 0) <? d)%Z = false).
  { rewrite Z.add_0_r. lia. }
  rewrite A, B. now rewrite Z.add_0_r.
Qed.

Lemma validDate_range value y m d :
  validDate value = Some (y, m, d) ->
  (1 <= m <= 12)%Z /\ (1 <= d <= daysIn m y)%Z.
Proof.
  unfold validDate.
  destruct (b value) as [|y0 [|y1 [|y2 [|y3 [|h0 [|m0 [|m1 [|h1 [|d0 [|d1 [|x l]]]]]]]]]]];
    try discriminate.
  destruct (_ && _); [|discriminate].
  match goal with |- context [if ?c then _ else _] => destruct c eqn:E end; [|discriminate].
  intros [= <- <- <-].
  repeat (apply andb_true_iff in E as [E ?]). lia.
Qed.

Lemma AddDate_nextDay y m d :
  (1 <= m <= 12)%Z -> (1 <= d <= daysIn m y)%Z ->
  AddDate (midnightUTC (y, m, d)) 0 0 1 = midnightUTC (nextDay (y, m, d)).
Proof.
  intros Hm Hd. unfold AddDate, Date, midnightUTC, nextDay.
  cbn [Year Month Day Hour Minute Second Nanosecond Offset].
  rewrite !Z.add_0_r.
  replace ((m - 1) / 12)%Z with 0%Z by (symmetry; apply Z.div_small; lia).
  replace ((m - 1) mod 12 + 1)%Z with m by (rewrite Z.mod_small; lia).
  rewrite Z.add_0_r. cbn [normDay].
  assert (A : (d + 1 <? 1)%Z = false) by lia. rewrite A.
  destruct (d <? daysIn m y)%Z eqn:B.
  - assert (C : (daysIn m y <? d + 1)%Z = false) by lia. now rewrite C.
  - assert (C : (daysIn m y <? d + 1)%Z = true) by lia. rewrite C.
    replace (d + 1 - daysIn m y)%Z with 1%Z by lia.
    destruct (Z.to_nat (Z.abs (d + 1))) as [|k] eqn:Ek; [lia|].
    unfold nextMonth. destruct (m =? 12)%Z eqn:E12.
    + assert (D : (m <? 12)%Z = false) by lia. rewrite D. cbn [normDay].
      pose proof (daysIn_range 1 (y + 1)).
      assert (F : (daysIn 1 (y + 1) <? 1)%Z = false) by lia. now rewrite F.
    + assert (D : (m <? 12)%Z = true) by lia. rewrite D. cbn [normDay].
      pose proof (daysIn_range (m + 1) y).
      assert (F : (daysIn (m + 1) y <? 1)%Z = false) by lia. now rewrite F.
Qed.

Lemma eqb_empty_b s : (s =? EmptyString) = true <-> b s = [].
Proof. destruct s; simpl; split; congruence. Qed.

(** [addDay] moves a valid date string to the next day and leaves every
    other string as it is. *)
Lemma addDay_spec value :
  sv.addDay value
  = match validDate value with
    | Some ymd => FormatDate (midnightUTC (nextDay ymd))
    | None => value
    end.
Proof.
  unfold sv.addDay, ParseDate. rewrite parseDate_validDate.
  destruct (value =? EmptyString) eqn:E.
  - apply eqb_empty_b in E. unfold validDate. now rewrite E.
  - destruct (validDate value) as [[[y m] d]|] eqn:Ev; cbn [option_map]; [|reflexivity].
    apply validDate_range in Ev as [Hm Hd]. now rewrite AddDate_nextDay.
Qed.

(** C7 (as amended).  For a date range with a start or an end that is not
    empty, [Log] appends [--since start --until u], where [u] is the day
    after [end] when [end] is a valid [YYYY-MM-DD] date string and [end]
    itself otherwise; [start] is passed as it is.  For a date range with
    both boundaries empty it appends nothing. *)
Theorem logParams_date_range (start end_ : string) :
  sv.logParams (sv.NewLogRange sv.DateRange start end_)
  = baseParams
      ++ (if (start =? EmptyString) && (end_ =? EmptyString) then []
          else ["--since"; start; "--until";
                match validDate end_ with
                | Some ymd => FormatDate (midnightUTC (nextDay ymd))
                | None => end_
                end]).
Proof.
  unfold sv.logParams, sv.NewLogRange. cbn [sv.rangeType sv.start sv.end_].
  rewrite <- negb_andb.
  destruct ((start =? EmptyString) && (end_ =? EmptyString)); cbn [negb].
  - now rewrite app_nil_r.
  - change (sv.DateRange =? sv.DateRange) with true. cbv iota.
    now rewrite addDay_spec.
Qed.

Lemma logParams_date_range_witness :
  sv.logParams (sv.NewLogRange sv.DateRange EmptyString "2024-05-01")
  = baseParams ++ ["--since"; EmptyString; "--until"; "2024-05-02"]
  /\ sv.logParams (sv.NewLogRange sv.DateRange "v1.0.0" EmptyString)
     = baseParams ++ ["--since"; "v1.0.0"; "--until"; EmptyString].
Proof.
  split.
  - exact (logParams_date_range EmptyString "2024-05-01").
  - exact (logParams_date_range "v1.0.0" EmptyString).
Defined.

(** C7 as stated fails: for a date range with both boundaries empty no
    [--until] argument is emitted at all. *)
Lemma logParams_date_range_empty :
  sv.logParams (sv.NewLogRange sv.DateRange EmptyString EmptyString) = baseParams
  /\ ~ In "--until" (sv.logParams (sv.NewLogRange sv.DateRange EmptyString EmptyString)).
Proof.
  split; [reflexivity|]. cbn. intros [H|[H|[H|[]]]]; discriminate.
Qed.

(** C8.  For a tag or hash range [Log] appends the single argument [end]
    when [start] is empty and [end] is not, the single argument
    [start..end] when [start] is not empty, with [HEAD] for an empty
    [end], and nothing when both are empty. *)
Theorem logParams_ref_range (t : sv.LogRangeType) (start end_ : string) :
  t = sv.TagRange \/ t = sv.HashRange ->
  (start = EmptyString -> end_ <> EmptyString ->
   sv.logParams (sv.NewLogRange t start end_) = baseParams ++ [end_])
  /\ (start <> EmptyString -> end_ <> EmptyString ->
      sv.logParams (sv.NewLogRange t start end_)
      = baseParams ++ [(start ++ ".." ++ end_)%string])
  /\ (start <> EmptyString -> end_ = EmptyString ->
      sv.logParams (sv.NewLogRange t start end_)
      = baseParams ++ [(start ++ "..HEAD")%string])
  /\ (start = EmptyString -> end_ = EmptyString ->
      sv.logParams (sv.NewLogRange t start end_) = baseParams).
Proof.
  intros Ht.
  assert (Hd : (t =? sv.DateRange) = false) by (destruct Ht; subst t; reflexivity).
  unfold sv.logParams, sv.NewLogRange, sv.str. cbn [sv.rangeType sv.start sv.end_].
  rewrite Hd.
  split; [|split; [|split]]; intros Hs He.
  - subst start. apply String.eqb_neq in He. now rewrite He.
  - apply String.eqb_neq in Hs, He. now rewrite Hs, He.
  - subst end_. apply String.eqb_neq in Hs. now rewrite Hs.
  - now subst.
Qed.

Lemma logParams_ref_range_witness :
  sv.logParams (sv.NewLogRange sv.TagRange EmptyString "v2.0.0") = baseParams ++ ["v2.0.0"]
  /\ sv.logParams (sv.NewLogRange sv.TagRange "v1.0.0" EmptyString) = baseParams ++ ["v1.0.0..HEAD"].
Proof.
  split.
  - apply (logParams_ref_range sv.TagRange EmptyString "v2.0.0"); [now left|reflexivity|discriminate].
  - apply (logParams_ref_range sv.TagRange "v1.0.0" EmptyString); [now left|discriminate|reflexivity].
Defined.

(** ** [IsDetached] *)

Lemma ofBytes_empty out : (ofBytes out =? EmptyString) = true <-> out = [].
Proof. destruct out; simpl; split; congruence. Qed.

(** C9.  Over every outcome of the [symbolic-ref] invocation, [IsDetached]
    returns [(true, nil)] exactly when the invocation fails with empty
    output, [(false, errors.New(output))] when it fails with output, and
    [(false, nil)] when it succeeds. *)
Theorem IsDetached_outcomes (CombinedOutput : list string -> bytes * option error)
        (out : bytes) (err : option error) :
  CombinedOutput ["git"; "symbolic-ref"; "-q"; "HEAD"] = (out, err) ->
  (sv.IsDetached CombinedOutput = (true, None) <-> err <> None /\ out = [])
  /\ (err <> None -> out <> [] ->
      sv.IsDetached CombinedOutput = (false, Some (errors_New (ofBytes out))))
  /\ (err = None -> sv.IsDetached CombinedOutput = (false, None)).
Proof.
  intros H. unfold sv.IsDetached. rewrite H.
  destruct err as [e|].
  - destruct (ofBytes out =? EmptyString) eqn:E.
    + apply ofBytes_empty in E. subst out. repeat split; try congruence.
    + assert (out <> []) by (intros ->; discriminate).
      repeat split; try congruence. intros [_ ?]. contradiction.
  - repeat split; try congruence. intros [? _]. congruence.
Qed.

Lemma IsDetached_outcomes_witness :
  sv.IsDetached (fun _ => ([], Some (ExitError 1))) = (true, None).
Proof.
  apply (IsDetached_outcomes (fun _ => ([], Some (ExitError 1))) [] (Some (ExitError 1)) eq_refl).
  split; [discriminate|reflexivity].
Defined.

(** ** The tag parser and the bounds of the field indices *)

Lemma b_app s t : b (s ++ t)%string = b s ++ b t.
Proof. induction s; simpl; congruence. Qed.

Lemma genSplit_rounds_pos k s sep : (0 < List.length (genSplit k s sep))%nat.
Proof. destruct k; cbn [genSplit]; [simpl; lia|]. destruct (GoBytes.Index s sep); simpl; lia. Qed.

Section TagLines.
Variable parseTagTime : string -> option Time.

Lemma parseTagsOutput_tokens input :
  sv.parseTagsOutput parseTagTime input
  = foldTokens (tagBody parseTagTime) [] (fst (tagTokens input)) Finished.
Proof.
  unfold sv.parseTagsOutput. cbv zeta. rewrite forScan_foldTokens.
  change (scan (rounds (NewScanner (b input))) (NewScanner (b input)))
    with (tagTokens input).
  rewrite tagTokens_spec. reflexivity.
Qed.

Lemma tagBody_blank result text :
  TrimSpace text = EmptyString -> (tagBody parseTagTime) result text = sv.Ok result.
Proof. unfold tagBody. now intros ->. Qed.

Lemma tagBody_no_hash result text :
  TrimSpace text <> EmptyString -> GoStrings.Index (TrimSpace text) "#" = None ->
  (tagBody parseTagTime) result text = sv.Panic (sv.IndexOutOfRange 1 1).
Proof.
  intros Hne Hidx. unfold tagBody. apply String.eqb_neq in Hne. rewrite Hne. cbn [negb].
  unfold GoStrings.Split, GoBytes.Split. unfold GoStrings.Index in Hidx.
  assert (Hs : genSplit (List.length (b (TrimSpace text))) (b (TrimSpace text)) (b "#")
               = [b (TrimSpace text)]).
  { destruct (List.length (b (TrimSpace text))); cbn [genSplit]; [reflexivity|].
    now rewrite Hidx. }
  rewrite Hs. cbn [map sv.index nth_error sv.bind].
  destruct (sv.ParseTagTime parseTagTime _). reflexivity.
Qed.

Lemma tagBody_hash result text i :
  GoStrings.Index (TrimSpace text) "#" = Some i ->
  exists tag, (tagBody parseTagTime) result text = sv.Ok (result ++ [tag]).
Proof.
  intros Hidx. unfold tagBody. unfold GoStrings.Index in Hidx.
  pose proof (Index_bound _ _ _ Hidx) as Hb. cbn [b list_ascii_of_string List.length] in Hb.
  destruct (TrimSpace text =? EmptyString) eqn:E.
  { apply String.eqb_eq in E. rewrite E in Hb. simpl in Hb. lia. }
  cbn [negb]. unfold GoStrings.Split, GoBytes.Split.
  destruct (List.length (b (TrimSpace text))) as [|k] eqn:Ek; [lia|].
  cbn [genSplit]. rewrite Hidx.
  pose proof (genSplit_rounds_pos k (skipn (i + List.length (b "#")) (b (TrimSpace text))) (b "#")) as Hp.
  destruct (genSplit k _ _) as [|v1 vs]; [simpl in Hp; lia|].
  cbn [map sv.index nth_error sv.bind].
  destruct (sv.ParseTagTime parseTagTime _) as [date e]. cbn [sv.bind].
  now eexists.
Qed.

Lemma foldTokens_tags_panic ts : forall acc,
  Exists (fun t => TrimSpace (ofBytes t) <> EmptyString
                   /\ GoStrings.Index (TrimSpace (ofBytes t)) "#" = None) ts ->
  foldTokens (tagBody parseTagTime) acc ts Finished = sv.Panic (sv.IndexOutOfRange 1 1).
Proof.
  induction ts as [|t ts IH]; intros acc H; [inversion H|].
  cbn [foldTokens].
  destruct (String.eqb (TrimSpace (ofBytes t)) EmptyString) eqn:E.
  - apply String.eqb_eq in E. rewrite (tagBody_blank _ _ E).
    apply IH. inversion H as [? ? [Hne _]|]; subst; [congruence|assumption].
  - apply String.eqb_neq in E.
    destruct (GoStrings.Index (TrimSpace (ofBytes t)) "#") as [i|] eqn:Ei.
    + destruct (tagBody_hash acc _ _ Ei) as [tag ->].
      apply IH. inversion H as [? ? [_ Hn]|]; subst; [congruence|assumption].
    + now rewrite tagBody_no_hash.
Qed.

Lemma foldTokens_tags_ok ts : forall acc,
  Forall (fun t => TrimSpace (ofBytes t) = EmptyString
                   \/ GoStrings.Index (TrimSpace (ofBytes t)) "#" <> None) ts ->
  exists tags, foldTokens (tagBody parseTagTime) acc ts Finished = sv.Ok tags.
Proof.
  induction ts as [|t ts IH]; intros acc H; [now eexists|].
  inversion H as [|? ? Ht Hts]; subst. cbn [foldTokens].
  destruct Ht as [Hb|Hh].
  - rewrite (tagBody_blank _ _ Hb). now apply IH.
  - destruct (GoStrings.Index (TrimSpace (ofBytes t)) "#") as [i|] eqn:Ei; [|congruence].
    destruct (tagBody_hash acc _ _ Ei) as [tag ->]. now apply IH.
Qed.

End TagLines.

Section CommitFields.
Context {CommitMessage : Type} (mp : sv.MessageProcessor CommitMessage).

Lemma Split_fields_length s sep :
  b sep <> [] -> List.length (GoStrings.Split s sep) = S (GoStrings.Count s sep).
Proof.
  intros H. unfold GoStrings.Split, GoStrings.Count. rewrite length_map.
  now apply Split_length.
Qed.

Lemma parseCommitLog_short commit :
  (GoStrings.Count (Trim commit sv.dquote) sv.logSeparator < 5)%nat ->
  exists i,
    sv.parseCommitLog mp commit
    = sv.Panic (sv.IndexOutOfRange i
                  (S (GoStrings.Count (Trim commit sv.dquote) sv.logSeparator))).
Proof.
  intros H. pose proof (Split_fields_length (Trim commit sv.dquote) sv.logSeparator
                          logSeparator_nonempty) as Hl.
  unfold sv.parseCommitLog.
  destruct (GoStrings.Split (Trim commit sv.dquote) sv.logSeparator)
    as [|f0 [|f1 [|f2 [|f3 [|f4 [|f5 more]]]]]];
    cbn [List.length] in Hl; try lia; rewrite <- Hl;
    cbn [sv.index nth_error sv.bind List.length].
  - now exists 1%nat.
  - destruct (Atoi f1). now exists 4%nat.
  - destruct (Atoi f1). now exists 4%nat.
  - destruct (Atoi f1). now exists 4%nat.
  - destruct (Atoi f1). now exists 5%nat.
Qed.

Lemma parseCommitLog_long commit :
  (5 <= GoStrings.Count (Trim commit sv.dquote) sv.logSeparator)%nat ->
  exists f0 f1 f2 f3 f4 f5 more,
    GoStrings.Split (Trim commit sv.dquote) sv.logSeparator
    = f0 :: f1 :: f2 :: f3 :: f4 :: f5 :: more.
Proof.
  intros H. pose proof (Split_fields_length (Trim commit sv.dquote) sv.logSeparator
                          logSeparator_nonempty) as Hl.
  destruct (GoStrings.Split (Trim commit sv.dquote) sv.logSeparator)
    as [|f0 [|f1 [|f2 [|f3 [|f4 [|f5 more]]]]]];
    cbn [List.length] in Hl; try lia.
  now exists f0, f1, f2, f3, f4, f5, more.
Qed.

End CommitFields.

(** C10.  [parseCommitLog] indexes out of range when the de-quoted record
    has fewer than five separators, and never with five or more;
    [parseTagsOutput] indexes [values[1]] out of range when one of the
    scanned lines is not blank and has no [#], and returns its list when
    every scanned line that is not blank has one. *)
Theorem field_indexing_preconditions :
  (forall (CommitMessage : Type) (mp : sv.MessageProcessor CommitMessage) (commit : string),
      let n := GoStrings.Count (Trim commit sv.dquote) sv.logSeparator in
      ((n < 5)%nat ->
       exists i, sv.parseCommitLog mp commit = sv.Panic (sv.IndexOutOfRange i (S n)))
      /\ ((5 <= n)%nat -> forall p, sv.parseCommitLog mp commit <> sv.Panic p))
  /\ (forall (parseTagTime : string -> option Time) (input : string),
        let lines := map (fun t => TrimSpace (ofBytes t)) (fst (tagTokens input)) in
        (Exists (fun line => line <> EmptyString /\ GoStrings.Index line "#" = None) lines ->
         sv.parseTagsOutput parseTagTime input = sv.Panic (sv.IndexOutOfRange 1 1))
        /\ (Forall (fun line => line = EmptyString \/ GoStrings.Index line "#" <> None) lines ->
            exists tags, sv.parseTagsOutput parseTagTime input = sv.Ok tags)).
Proof.
  split.
  - intros CM mp commit n. split.
    + apply parseCommitLog_short.
    + intros H p. destruct (parseCommitLog_long commit H) as (f0 & f1 & f2 & f3 & f4 & f5 & more & Hs).
      rewrite (parseCommitLog_fields mp _ _ _ _ _ _ _ _ Hs).
      destruct (sv.Parse f4 f5); discriminate.
  - intros parseTagTime input lines. rewrite parseTagsOutput_tokens. split.
    + intros H. apply foldTokens_tags_panic. subst lines.
      now apply Exists_map in H.
    + intros H. apply foldTokens_tags_ok. subst lines.
      now apply Forall_map in H.
Qed.

Lemma field_indexing_preconditions_witness :
  sv.parseCommitLog echo "d###1###a###h###s" = sv.Panic (sv.IndexOutOfRange 5 5)
  /\ sv.parseTagsOutput readStamp "2024-01-02 10:00:00 +0000 v1.2.3"
     = sv.Panic (sv.IndexOutOfRange 1 1).
Proof.
  destruct field_indexing_preconditions as [Hlog Htag]. split.
  - destruct (Hlog _ echo "d###1###a###h###s") as [Hshort _].
    destruct Hshort as [i Hi]; [apply Nat.ltb_lt; reflexivity|].
    pose proof Hi as Hc. vm_compute in Hc. injection Hc as Hc.
    rewrite Hi, <- Hc. reflexivity.
  - destruct (Htag readStamp "2024-01-02 10:00:00 +0000 v1.2.3") as [Hbad _].
    apply Hbad.
    replace (fst (tagTokens "2024-01-02 10:00:00 +0000 v1.2.3"))
      with [b "2024-01-02 10:00:00 +0000 v1.2.3"] by (vm_compute; reflexivity).
    apply Exists_cons_hd. split; vm_compute; [discriminate|reflexivity].
Defined.

Lemma IndexByte_app r c t :
  GoBytes.Index r [c] = None -> GoBytes.Index (r ++ c :: t) [c] = Some (List.length r).
Proof.
  induction r as [|a r IH]; intros H.
  - cbn [app]. rewrite Index_unfold. cbn [HasPrefix].
    now rewrite Ascii.eqb_refl, HasPrefix_nil_r.
  - rewrite Index_unfold in H. cbn [HasPrefix] in H.
    cbn [app]. rewrite Index_unfold. cbn [HasPrefix].
    rewrite HasPrefix_nil_r in *. rewrite andb_true_r in *.
    destruct (Ascii.eqb a c); [discriminate|].
    destruct (GoBytes.Index r [c]) eqn:E; [discriminate|].
    cbn [app] in IH. rewrite IH by reflexivity. reflexivity.
Qed.

Lemma Split_two d n c :
  GoBytes.Index d [c] = None -> GoBytes.Index n [c] = None ->
  GoBytes.Split (d ++ c :: n) [c] = [d; n].
Proof.
  intros Hd Hn. unfold GoBytes.Split. rewrite !length_app. cbn [List.length].
  replace (List.length d + S (List.length n))%nat with (S (List.length d + List.length n)) by lia.
  cbn [genSplit]. rewrite (IndexByte_app _ _ _ Hd).
  rewrite firstn_app, firstn_all, Nat.sub_diag. cbn [firstn]. rewrite app_nil_r.
  rewrite skipn_app, (skipn_all2 d) by (cbn [List.length]; lia).
  replace (List.length d + List.length [c] - List.length d)%nat with 1%nat
    by (cbn [List.length]; lia).
  cbn [skipn app].
  destruct (List.length d + List.length n)%nat; cbn [genSplit]; [reflexivity|].
  now rewrite Hn.
Qed.

Section TagEntries.
Variable parseTagTime : string -> option Time.

Lemma tagBody_wellFormed acc l :
  wellFormed l ->
  tagBody parseTagTime acc (ofBytes (dropCR (b (lineText l))))
  = sv.Ok (acc ++ [entry parseTagTime l]).
Proof.
  intros (_ & _ & Hseen & Hd & Hn). unfold tagBody.
  unfold seenLine in Hseen. rewrite Hseen.
  assert (Hne : ((datePart l ++ hash ++ namePart l)%string =? EmptyString) = false).
  { apply String.eqb_neq. intros H. apply (f_equal b) in H.
    rewrite !b_app in H. destruct (b (datePart l)); discriminate. }
  rewrite Hne. cbn [negb].
  unfold GoStrings.Split. rewrite !b_app.
  change (b hash) with ["#"%char]. change (b "#") with ["#"%char].
  cbn [app]. rewrite Split_two by assumption.
  cbn [map sv.index nth_error sv.bind]. rewrite !ofBytes_b.
  unfold sv.ParseTagTime, entry.
  destruct (parseTagTime (datePart l)); reflexivity.
Qed.

Lemma foldTokens_entries ls : forall acc,
  Forall wellFormed ls ->
  foldTokens (tagBody parseTagTime) acc (map (fun l => dropCR (b (lineText l))) ls) Finished
  = sv.Ok (acc ++ map (entry parseTagTime) ls).
Proof.
  induction ls as [|l ls IH]; intros acc H.
  - cbn. now rewrite app_nil_r.
  - inversion H as [|? ? Hl Hls]; subst. cbn [map foldTokens].
    rewrite (tagBody_wellFormed _ _ Hl), IH by assumption.
    now rewrite <- app_assoc.
Qed.

End TagEntries.

Lemma tagTokens_listing ls :
  Forall wellFormed ls ->
  tagTokens (listing ls) = (map (fun l => dropCR (b (lineText l))) ls, Finished).
Proof.
  intros H. rewrite tagTokens_spec. unfold listing. rewrite b_ofBytes.
  destruct (marked_join MaxScanTokenSize newline newline_nonempty
              (map (fun l => b (lineText l)) ls)) as [Hm Ht].
  { apply Forall_map. apply Forall_impl with (2 := H).
    intros l (Hnl & Hlen & _). split.
    - unfold GoStrings.Index in Hnl. apply (IndexByte_app _ _ []) in Hnl. exact Hnl.
    - rewrite b_length. cbn [newline List.length]. lia. }
  unfold scanSpec. fold newline. rewrite Hm, Ht, app_nil_r, map_map. reflexivity.
Qed.

(** C6 (as amended).  For a listing of lines that read [date#name],
    each shorter than [MaxScanTokenSize] bytes and with no [#] in the
    date part and no [#] in the name, the tag parser returns one entry per
    line, in the order of the lines, each with the name of its line; the
    date of a line whose date part [time.Parse] does not read is the zero
    [Time].  No line is dropped and no error is returned. *)
Theorem parseTagsOutput_tolerates_dates
        (parseTagTime : string -> option Time) (ls : list tagLine) :
  Forall wellFormed ls ->
  sv.parseTagsOutput parseTagTime (listing ls)
  = sv.Ok (map (fun l =>
                  sv.GitTag.mk (namePart l)
                    (match parseTagTime (datePart l) with
                     | Some t => t
                     | None => zero
                     end)) ls).
Proof.
  intros H. rewrite parseTagsOutput_tokens, (tagTokens_listing _ H). cbn [fst].
  now rewrite foldTokens_entries.
Qed.

Lemma parseTagsOutput_tolerates_dates_witness :
  sv.parseTagsOutput readStamp
    (listing [mkTagLine "2024-01-02 10:00:00 +0000#v1.2.3" "2024-01-02 10:00:00 +0000" "v1.2.3";
              mkTagLine "yesterday#v1.3.0" "yesterday" "v1.3.0"])
  = sv.Ok [sv.GitTag.mk "v1.2.3" (mkTime 2024 1 2 10 0 0 0 0);
           sv.GitTag.mk "v1.3.0" zero].
Proof.
  apply (parseTagsOutput_tolerates_dates readStamp
           [mkTagLine "2024-01-02 10:00:00 +0000#v1.2.3" "2024-01-02 10:00:00 +0000" "v1.2.3";
            mkTagLine "yesterday#v1.3.0" "yesterday" "v1.3.0"]).
  constructor; [|constructor; [|constructor]];
    (split; [reflexivity|split; [apply Nat.ltb_lt; reflexivity|repeat split]]).
Defined.

(** C6 as stated fails: the line [yesterday#v1#rc1] has the date part
    [yesterday], which [time.Parse] does not read, and the name [v1#rc1];
    the parser splits it at every [#] and returns the entry of the name
    [v1], which is not the name of the line. *)
Lemma parseTagsOutput_name_cut_at_hash :
  let line := ("yesterday" ++ hash ++ "v1#rc1")%string in
  readStamp "yesterday" = None
  /\ sv.parseTagsOutput readStamp (ofBytes (b line ++ newline))
     = sv.Ok [sv.GitTag.mk "v1" zero]
  /\ "v1" <> "v1#rc1".
Proof. repeat split. discriminate. Qed.

(** ** The loops of the parsers come to their end

    The rounds that [parseLogOutput] and [parseTagsOutput] give their
    scanner are enough for every input. *)

Lemma foldTokens_finishes {A : Type} (body : A -> string -> sv.result A) ts :
  (forall acc text, body acc text <> sv.Unfinished) ->
  forall acc, foldTokens body acc ts Finished <> sv.Unfinished.
Proof.
  intros Hbody. induction ts as [|t ts IH]; intros acc; cbn [foldTokens]; [discriminate|].
  specialize (Hbody acc (ofBytes t)).
  destruct (body acc (ofBytes t)); try discriminate; [apply IH|congruence].
Qed.

Lemma parseCommitLog_finishes {CommitMessage : Type}
      (mp : sv.MessageProcessor CommitMessage) commit :
  sv.parseCommitLog mp commit <> sv.Unfinished.
Proof.
  unfold sv.parseCommitLog, sv.index, sv.bind.
  repeat match goal with
         | |- context [match nth_error ?l ?i with _ => _ end] => destruct (nth_error l i)
         | |- context [let (_, _) := ?x in _] => destruct x
         | |- context [match sv.Parse ?x ?y with _ => _ end] => destruct (sv.Parse x y)
         end; discriminate.
Qed.

Theorem parseLogOutput_finishes {CommitMessage : Type}
        (mp : sv.MessageProcessor CommitMessage) log :
  sv.parseLogOutput mp log <> sv.Unfinished.
Proof.
  rewrite parseLogOutput_tokens, logTokens_spec. cbn [fst snd].
  apply foldTokens_finishes. intros acc text. cbv zeta.
  destruct (negb _); [|discriminate].
  pose proof (parseCommitLog_finishes mp (TrimSpace (Trim text sv.dquote))) as H.
  destruct (sv.parseCommitLog mp _); congruence.
Qed.

Theorem parseTagsOutput_finishes (parseTagTime : string -> option Time) input :
  sv.parseTagsOutput parseTagTime input <> sv.Unfinished.
Proof.
  rewrite parseTagsOutput_tokens. apply foldTokens_finishes.
  intros acc text. unfold tagBody, sv.index, sv.bind.
  destruct (negb _); [|discriminate].
  repeat match goal with
         | |- context [match nth_error ?l ?i with _ => _ end] => destruct (nth_error l i)
         | |- context [let (_, _) := ?x in _] => destruct x
         end; discriminate.
Qed.
(** ** More on [strings.Trim] and [strings.TrimSpace] *)

Section TrimFacts.
Local Open Scope nat_scope.
Variable p : ascii -> bool.

Lemma dropWhile_snoc u a :
  dropWhile p (u ++ [a])
  = match dropWhile p u with
    | [] => if p a then [] else [a]
    | x => x ++ [a]
    end.
Proof.
  induction u as [|c u IH]; cbn [app dropWhile]; [reflexivity|].
  destruct (p c); [exact IH|reflexivity].
Qed.

Lemma dropWhileEnd_cons a l :
  dropWhileEnd p (a :: l)
  = match dropWhileEnd p l with
    | [] => if p a then [] else [a]
    | x => a :: x
    end.
Proof.
  unfold dropWhileEnd. cbn [rev]. rewrite dropWhile_snoc.
  destruct (dropWhile p (rev l)) as [|c x]; [now destruct (p a)|].
  rewrite rev_unit. destruct (rev (c :: x)) eqn:E; [|reflexivity].
  apply (f_equal (@List.length ascii)) in E. rewrite length_rev in E. discriminate.
Qed.

Lemma dropWhileEnd_snoc a l : p a = true -> dropWhileEnd p (l ++ [a]) = dropWhileEnd p l.
Proof. intros H. unfold dropWhileEnd. rewrite rev_unit. cbn [dropWhile]. now rewrite H. Qed.

Lemma dropWhileEnd_keep a l : p a = false -> dropWhileEnd p (l ++ [a]) = l ++ [a].
Proof.
  intros H. unfold dropWhileEnd. rewrite rev_unit. cbn [dropWhile]. rewrite H.
  cbn [rev]. now rewrite rev_involutive.
Qed.

Lemma dropWhileEnd_last c l : p (last l c) = false -> dropWhileEnd p (c :: l) = c :: l.
Proof.
  intros H. destruct (exists_last (l := c :: l)) as (l' & z & E); [discriminate|].
  assert (Hz : z = last l c).
  { assert (Hl : last (c :: l) c = last l c) by (destruct l; reflexivity).
    now rewrite <- Hl, E, last_last. }
  rewrite E. apply dropWhileEnd_keep. now rewrite Hz.
Qed.

Lemma dropWhile_suffix l : exists i, dropWhile p l = skipn i l.
Proof.
  induction l as [|c l [i IH]]; cbn [dropWhile].
  - now exists 0.
  - destruct (p c); [exists (S i); exact IH|now exists 0].
Qed.

Lemma dropWhileEnd_prefix l : exists j, dropWhileEnd p l = firstn j l.
Proof.
  unfold dropWhileEnd. destruct (dropWhile_suffix (rev l)) as [i E].
  rewrite E, skipn_rev, rev_involutive. now eexists.
Qed.

End TrimFacts.

(** ** Runs of consecutive bytes *)

Section WithinFacts.
Local Open Scope nat_scope.

Lemma within_refl s : within s s.
Proof. exists 0, (List.length s). cbn [skipn]. now rewrite firstn_all. Qed.

Lemma within_firstn n x s : within x s -> within (firstn n x) s.
Proof. intros (i & j & ->). exists i, (Nat.min n j). now rewrite firstn_firstn. Qed.

Lemma within_skipn n x s : within x s -> within (skipn n x) s.
Proof.
  intros (i & j & ->). exists (n + i), (j - n).
  now rewrite skipn_firstn_comm, skipn_skipn.
Qed.

Lemma within_trans x y s : within x y -> within y s -> within x s.
Proof. intros (i & j & ->) H. now apply within_firstn, within_skipn. Qed.

Lemma HasPrefix_skipn_Index k : forall s sep,
  HasPrefix (skipn k s) sep = true -> GoBytes.Index s sep <> None.
Proof.
  induction k as [|k IH]; intros s sep H.
  - cbn [skipn] in H. rewrite Index_unfold, H. discriminate.
  - destruct s as [|c tl].
    + cbn [skipn] in H. rewrite Index_unfold, H. discriminate.
    + cbn [skipn] in H. apply IH in H. rewrite Index_unfold.
      destruct (HasPrefix (c :: tl) sep); [discriminate|].
      destruct (GoBytes.Index tl sep); [discriminate|congruence].
Qed.

Lemma Index_firstn s sep n :
  GoBytes.Index s sep = None -> GoBytes.Index (firstn n s) sep = None.
Proof.
  intros H. destruct (GoBytes.Index (firstn n s) sep) as [j|] eqn:E; [|reflexivity].
  apply (Index_app_l _ (skipn n s)) in E. rewrite firstn_skipn in E. congruence.
Qed.

Lemma Index_skipn s sep n :
  GoBytes.Index s sep = None -> GoBytes.Index (skipn n s) sep = None.
Proof.
  intros H. destruct (GoBytes.Index (skipn n s) sep) as [j|] eqn:E; [|reflexivity].
  exfalso. apply (HasPrefix_skipn_Index (j + n) s sep); [|assumption].
  pose proof (Index_bound _ _ _ E) as Hb. apply Index_split in E.
  rewrite <- skipn_skipn, E.
  rewrite skipn_app, skipn_all2 by (rewrite length_firstn; lia).
  rewrite length_firstn.
  replace (j - Nat.min j (List.length (skipn n s))) with 0 by lia.
  cbn [skipn app]. apply HasPrefix_app.
Qed.

Lemma Index_within x s sep :
  within x s -> GoBytes.Index s sep = None -> GoBytes.Index x sep = None.
Proof. intros (i & j & ->) H. now apply Index_firstn, Index_skipn. Qed.

Lemma trimLeftSpace_suffix k : forall s, exists n, trimLeftSpace k s = skipn n s.
Proof.
  induction k as [|k IH]; intros s; cbn [trimLeftSpace]; [now exists 0|].
  destruct (leadingSpace s) as [w|]; [|now exists 0].
  destruct (IH (skipn w s)) as [n ->]. rewrite skipn_skipn. now eexists.
Qed.

Lemma Trim_within s cutset : within (b (Trim s cutset)) (b s).
Proof.
  unfold Trim. rewrite b_ofBytes.
  destruct (dropWhile_suffix (inCutset (b cutset))
              (dropWhileEnd (inCutset (b cutset)) (b s))) as [i ->].
  destruct (dropWhileEnd_prefix (inCutset (b cutset)) (b s)) as [j ->].
  apply within_skipn, within_firstn, within_refl.
Qed.

Lemma TrimSpace_within s : within (b (TrimSpace s)) (b s).
Proof.
  unfold TrimSpace. rewrite b_ofBytes.
  destruct (trimRightSpace_prefix
              (List.length (trimLeftSpace (String.length s) (b s)))
              (trimLeftSpace (String.length s) (b s))) as [j ->].
  destruct (trimLeftSpace_suffix (String.length s) (b s)) as [i ->].
  apply within_firstn, within_skipn, within_refl.
Qed.

Lemma firstField_within sep s : within (firstField sep s) s.
Proof.
  unfold firstField. destruct (GoBytes.Index s sep); [|apply within_refl].
  apply within_firstn, within_refl.
Qed.

Lemma afterSep_within n sep : forall s r, afterSep n sep s = Some r -> within r s.
Proof.
  induction n as [|n IH]; intros s r; cbn [afterSep].
  - intros [= <-]. apply within_refl.
  - destruct (GoBytes.Index s sep) as [i|]; [|discriminate].
    intros H. apply IH in H. eapply within_trans; [exact H|].
    apply within_skipn, within_refl.
Qed.

Lemma dropCR_within data : within (dropCR data) data.
Proof.
  unfold dropCR. destruct (rev data) as [|c tl] eqn:E; [apply within_refl|].
  destruct (Ascii.eqb c "013"); [|apply within_refl].
  apply (f_equal (@rev ascii)) in E. rewrite rev_involutive in E. cbn [rev] in E.
  exists 0, (List.length (rev tl)). cbn [skipn]. rewrite E.
  now rewrite firstn_app, firstn_all, Nat.sub_diag, app_nil_r.
Qed.

(** A field of [strings.Split] is a run of bytes of the string and does
    not contain the separator. *)
Lemma Split_field s sep n x :
  b sep <> [] -> nth_error (GoStrings.Split s sep) n = Some x ->
  within (b x) (b s) /\ GoStrings.Index x sep = None.
Proof.
  intros Hsep H. destruct (strings_Split_nth _ _ _ _ H Hsep) as (rest & Ha & Hx).
  unfold GoStrings.Index. rewrite Hx. split.
  - eapply within_trans; [apply firstField_within|]. now apply afterSep_within in Ha.
  - now apply firstField_no_sep.
Qed.

End WithinFacts.

(** ** White space around visible bytes *)

Section SpaceFacts.
Local Open Scope nat_scope.

Lemma unicodeSpaces_high :
  forall enc, In enc unicodeSpaces -> Forall (fun x => 128 <= nat_of_ascii x) enc.
Proof.
  assert (H : forallb (forallb (fun x => 128 <=? nat_of_ascii x)) unicodeSpaces = true)
    by reflexivity.
  intros enc Hin. apply Forall_forall. intros x Hx.
  rewrite forallb_forall in H. specialize (H _ Hin).
  rewrite forallb_forall in H. specialize (H _ Hx). now apply Nat.leb_le.
Qed.

Lemma visible_low c : visible c = true -> nat_of_ascii c < 128 /\ asciiSpace c = false.
Proof.
  unfold visible. intros H. apply andb_true_iff in H as [H1 H2].
  apply Nat.ltb_lt in H1. apply negb_true_iff in H2. now split.
Qed.

Lemma plain_visible c : plain c = true -> visible c = true /\ Ascii.eqb c "034" = false.
Proof.
  unfold plain. intros H. apply andb_true_iff in H as [H1 H2].
  apply negb_true_iff in H2. now split.
Qed.

(** A byte of ASCII does not start and does not continue the encoding
    of a rune above U+007F. *)
Lemma HasPrefix_low a s t q :
  nat_of_ascii a < 128 -> Forall (fun x => 128 <= nat_of_ascii x) q ->
  HasPrefix (s ++ a :: t) q = HasPrefix s q.
Proof.
  intros Ha. revert s. induction q as [|d q IH]; intros s Hq.
  - now rewrite !HasPrefix_nil_r.
  - inversion Hq as [|? ? Hd Hq']; subst. destruct s as [|c s]; cbn [app HasPrefix].
    + destruct (Ascii.eqb a d) eqn:E; [|reflexivity].
      apply Ascii.eqb_eq in E. subst d. lia.
    + now rewrite IH.
Qed.

Lemma find_ext_in {A : Type} (f g : A -> bool) l :
  (forall x, In x l -> f x = g x) -> find f l = find g l.
Proof.
  induction l as [|x l IH]; intros H; [reflexivity|]. cbn [find].
  rewrite (H x (or_introl eq_refl)). destruct (g x); [reflexivity|].
  apply IH. intros y Hy. apply H. now right.
Qed.

Lemma find_none_in {A : Type} (f : A -> bool) l :
  (forall x, In x l -> f x = false) -> find f l = None.
Proof.
  induction l as [|x l IH]; intros H; [reflexivity|]. cbn [find].
  rewrite (H x (or_introl eq_refl)). apply IH. intros y Hy. apply H. now right.
Qed.

Lemma leadingSpace_visible c s : visible c = true -> leadingSpace (c :: s) = None.
Proof.
  intros H. apply visible_low in H as [Hc Hs]. unfold leadingSpace. rewrite Hs.
  rewrite find_none_in; [reflexivity|]. intros enc Hin.
  pose proof (HasPrefix_low c [] s enc Hc (unicodeSpaces_high _ Hin)) as Hp.
  cbn [app] in Hp. rewrite Hp.
  pose proof (proj1 (Forall_forall _ _) unicodeSpaces_width _ Hin) as Hw. cbv beta in Hw.
  destruct enc; [simpl in Hw; lia|reflexivity].
Qed.

Lemma trailingSpace_nil : trailingSpace [] = None.
Proof. reflexivity. Qed.

Lemma trailingSpace_visible s c : visible c = true -> trailingSpace (s ++ [c]) = None.
Proof.
  intros H. apply visible_low in H as [Hc Hs]. unfold trailingSpace.
  rewrite rev_unit, Hs. rewrite find_none_in; [reflexivity|]. intros enc Hin.
  assert (Hp : HasPrefix ([] ++ c :: rev s) (rev enc) = HasPrefix [] (rev enc)).
  { apply HasPrefix_low; [assumption|]. apply Forall_rev. now apply unicodeSpaces_high. }
  cbn [app] in Hp. rewrite Hp.
  pose proof (proj1 (Forall_forall _ _) unicodeSpaces_width _ Hin) as Hw. cbv beta in Hw.
  destruct (rev enc) eqn:E; [|reflexivity].
  apply (f_equal (@List.length ascii)) in E. rewrite length_rev in E. simpl in E. lia.
Qed.

Lemma trailingSpace_space s c : asciiSpace c = true -> trailingSpace (s ++ [c]) = Some 1.
Proof. intros H. unfold trailingSpace. now rewrite rev_unit, H. Qed.

(** A byte of ASCII in front leaves the white space at the end as it is. *)
Lemma trailingSpace_behind a x s t :
  nat_of_ascii a < 128 ->
  trailingSpace (t ++ a :: x :: s) = trailingSpace (x :: s).
Proof.
  intros Ha. unfold trailingSpace.
  assert (E : rev (t ++ a :: x :: s) = rev (x :: s) ++ a :: rev t).
  { rewrite rev_app_distr. cbn [rev]. now rewrite <- !app_assoc. }
  rewrite E. destruct (rev (x :: s)) as [|c r] eqn:Er.
  { apply (f_equal (@List.length ascii)) in Er. rewrite length_rev in Er. discriminate. }
  cbn [app]. destruct (asciiSpace c); [reflexivity|].
  apply (f_equal (option_map (@List.length ascii))).
  apply find_ext_in. intros enc Hin.
  change (c :: r ++ a :: rev t) with ((c :: r) ++ a :: rev t).
  apply HasPrefix_low; [assumption|]. apply Forall_rev. now apply unicodeSpaces_high.
Qed.

Lemma trimLeftSpace_none k s : leadingSpace s = None -> trimLeftSpace k s = s.
Proof. intros H. destruct k; cbn [trimLeftSpace]; [reflexivity|now rewrite H]. Qed.

Lemma trimRightSpace_none k s : trailingSpace s = None -> trimRightSpace k s = s.
Proof. intros H. destruct k; cbn [trimRightSpace]; [reflexivity|now rewrite H]. Qed.

(** The white space at the end is trimmed behind a visible byte as it
    is without it. *)
Lemma trimRightSpace_behind a t : visible a = true ->
  forall k s, List.length s <= k ->
    trimRightSpace (S k) (t ++ a :: s) = t ++ a :: trimRightSpace k s.
Proof.
  intros Ha. pose proof (visible_low _ Ha) as [Hlow _].
  induction k as [|k IH]; intros s Hk.
  - destruct s; [|simpl in Hk; lia]. cbn [trimRightSpace].
    now rewrite (trailingSpace_visible t a Ha).
  - destruct s as [|x s].
    + cbn [trimRightSpace]. now rewrite (trailingSpace_visible t a Ha), trailingSpace_nil.
    + cbn [trimRightSpace]. rewrite (trailingSpace_behind a x s t Hlow).
      destruct (trailingSpace (x :: s)) as [w|] eqn:E; [|reflexivity].
      pose proof (trailingSpace_width _ _ E) as Hw.
      replace (List.length (t ++ a :: x :: s) - w)
        with (List.length t + S (List.length (x :: s) - w))
        by (rewrite length_app; cbn [List.length] in *; lia).
      rewrite firstn_app_2. cbn [firstn].
      apply IH. rewrite length_firstn. cbn [List.length] in *. lia.
Qed.

Lemma trimRightSpace_cons a k s :
  visible a = true -> List.length s <= k ->
  trimRightSpace (S k) (a :: s) = a :: trimRightSpace k s.
Proof. intros Ha Hk. exact (trimRightSpace_behind a [] Ha k s Hk). Qed.

End SpaceFacts.

(** ** The split function of the record splitter *)

Lemma HasPrefix_firstn n (s : bytes) : HasPrefix s (firstn n s) = true.
Proof. rewrite <- (firstn_skipn n s) at 1. apply HasPrefix_app. Qed.

(** X1.  For a marker that is not empty [splitAt] keeps the contract of a
    [bufio.SplitFunc]: it returns no error, never advances beyond the
    data, and advances only with a token.  A token is a prefix of the
    data that does not contain the marker, and it always comes with a
    positive advance; at the end of the stream there is a token as long
    as data is left. *)
Theorem splitAt_contract (marker data : bytes) (atEOF : bool)
        (advance : nat) (token : option bytes) (err : option error) :
  marker <> [] ->
  sv.splitAt marker data atEOF = (advance, token, err) ->
  err = None
  /\ (advance <= List.length data)%nat
  /\ (token = None -> advance = 0%nat /\ (atEOF = true -> data = []))
  /\ (forall t, token = Some t ->
        (0 < advance)%nat /\ (List.length t <= advance)%nat
        /\ HasPrefix data t = true /\ GoBytes.Index t marker = None).
Proof.
  intros Hm. pose proof (sep_length _ Hm) as Hl. unfold sv.splitAt.
  destruct (atEOF && (List.length data =? 0)%nat) eqn:E0.
  - intros [= <- <- <-]. apply andb_true_iff in E0 as [_ E0]. apply Nat.eqb_eq in E0.
    split; [reflexivity|]. split; [lia|]. split; [|discriminate].
    intros _. split; [reflexivity|]. intros _. now destruct data.
  - destruct (GoBytes.Index data marker) as [i|] eqn:Ei.
    + intros [= <- <- <-]. pose proof (Index_bound _ _ _ Ei) as Hb.
      split; [reflexivity|]. split; [lia|]. split; [discriminate|].
      intros t [= <-]. split; [lia|]. split; [rewrite length_firstn; lia|].
      split; [apply HasPrefix_firstn|now apply Index_before].
    + destruct atEOF; intros [= <- <- <-].
      * cbn [andb] in E0. apply Nat.eqb_neq in E0.
        split; [reflexivity|]. split; [lia|]. split; [discriminate|].
        intros t [= <-]. split; [lia|]. split; [lia|]. split; [|assumption].
        rewrite <- (app_nil_r data) at 1. apply HasPrefix_app.
      * split; [reflexivity|]. split; [lia|]. split; [|discriminate].
        intros _. split; [reflexivity|discriminate].
Qed.

Lemma splitAt_contract_witness :
  (0 < 5)%nat /\ GoBytes.Index (b "ab") (b sv.endLine) = None.
Proof.
  destruct (splitAt_contract (b sv.endLine) (b "ab~~~cd") false 5 (Some (b "ab")) None)
    as (_ & _ & _ & H); [discriminate|reflexivity|].
  destruct (H (b "ab") eq_refl) as (H1 & _ & _ & H2). now split.
Defined.

(** ** The error of a failed command *)

Lemma Split_first (out : bytes) :
  nth_error (GoStrings.Split (ofBytes out) (ofBytes newline)) 0
  = Some (ofBytes (firstField newline out)).
Proof.
  unfold GoStrings.Split. rewrite nth_error_map, !b_ofBytes.
  now rewrite (Split_nth _ newline_nonempty).
Qed.

Lemma combinedOutputErr_line (err : error) (out : bytes) :
  sv.combinedOutputErr err out = fmt_Errorf err (ofBytes (firstField newline out)).
Proof.
  pose proof (Split_first out) as H0.
  unfold sv.combinedOutputErr. change (String "010" EmptyString) with (ofBytes newline).
  destruct (GoStrings.Split (ofBytes out) (ofBytes newline)); [discriminate|].
  cbn [nth_error] in H0. injection H0 as ->. reflexivity.
Qed.

(** X2.  [combinedOutputErr] never indexes out of range, [msg[0]] is
    always there; the error it builds carries the error of the command
    and the first line of the output only: the output up to its first
    line feed, which contains no line feed, and all of the output when
    it has none. *)
Theorem combinedOutputErr_first_line (err : error) (out : bytes) :
  GoStrings.Split (ofBytes out) (ofBytes newline) <> []
  /\ sv.combinedOutputErr err out = fmt_Errorf err (ofBytes (firstField newline out))
  /\ GoBytes.Index (firstField newline out) newline = None
  /\ HasPrefix out (firstField newline out) = true
  /\ (GoBytes.Index out newline = None ->
      sv.combinedOutputErr err out = fmt_Errorf err (ofBytes out)).
Proof.
  pose proof (Split_first out) as H0. pose proof (combinedOutputErr_line err out) as Hc.
  split; [|split; [|split; [|split]]].
  - intros E. now rewrite E in H0.
  - exact Hc.
  - apply firstField_no_sep, newline_nonempty.
  - unfold firstField. destruct (GoBytes.Index out newline).
    + apply HasPrefix_firstn.
    + rewrite <- (app_nil_r out) at 1. apply HasPrefix_app.
  - intros Hn. rewrite Hc. unfold firstField. now rewrite Hn.
Qed.

(** ** The range arguments for a range type of any name *)

(** X3.  The range type is an open string type, and [Log] treats every
    range type other than [DateRange], a named one or not, as a range of
    revisions: [end] alone for an empty [start], [start..end] with
    [HEAD] for an empty [end] otherwise, and nothing when both are
    empty. *)
Theorem logParams_other_range (t : sv.LogRangeType) (start end_ : string) :
  t <> sv.DateRange ->
  sv.logParams (sv.NewLogRange t start end_)
  = baseParams
      ++ (if start =? EmptyString
          then (if end_ =? EmptyString then [] else [end_])
          else [(start ++ ".." ++ (if end_ =? EmptyString then "HEAD" else end_))%string]).
Proof.
  intros Ht. apply String.eqb_neq in Ht.
  unfold sv.logParams, sv.NewLogRange, sv.str. cbn [sv.rangeType sv.start sv.end_].
  rewrite Ht.
  destruct (start =? EmptyString), (end_ =? EmptyString); reflexivity.
Qed.

Lemma logParams_other_range_witness :
  sv.logParams (sv.NewLogRange "branch" "v1.0.0" EmptyString)
  = baseParams ++ ["v1.0.0..HEAD"].
Proof. apply (logParams_other_range "branch" "v1.0.0" EmptyString). discriminate. Defined.

(** ** The output of a command, trimmed *)

Section TrimmedOutput.
Local Open Scope nat_scope.

Lemma visible_not_newline c : visible c = true -> inCutset ["010"%char] c = false.
Proof.
  intros H. apply visible_low in H as [_ H]. unfold inCutset. cbn [existsb].
  destruct (Ascii.eqb c "010") eqn:E; [|reflexivity].
  apply Ascii.eqb_eq in E. subst c. discriminate.
Qed.

Lemma dropWhileEnd_spaces p n z :
  p z = false ->
  forall ws, forallb asciiSpace ws = true ->
    exists ws', dropWhileEnd p ((n ++ [z]) ++ ws) = (n ++ [z]) ++ ws'
                /\ forallb asciiSpace ws' = true.
Proof.
  intros Hz. induction ws as [|a ws IH] using rev_ind; intros Hws.
  - exists []. rewrite app_nil_r. split; [now apply dropWhileEnd_keep|reflexivity].
  - rewrite forallb_app in Hws. apply andb_true_iff in Hws as [Hws Ha].
    rewrite app_assoc. destruct (p a) eqn:Ea.
    + rewrite dropWhileEnd_snoc by assumption. now apply IH.
    + rewrite dropWhileEnd_keep by assumption. exists (ws ++ [a]).
      rewrite <- app_assoc. split; [reflexivity|].
      rewrite forallb_app. now rewrite Hws, Ha.
Qed.

Lemma trimRightSpace_spaces n z :
  visible z = true ->
  forall ws, forallb asciiSpace ws = true ->
    forall k, List.length ws <= k ->
      trimRightSpace k ((n ++ [z]) ++ ws) = n ++ [z].
Proof.
  intros Hz. induction ws as [|a ws IH] using rev_ind; intros Hws k Hk.
  - rewrite app_nil_r. apply trimRightSpace_none. now apply trailingSpace_visible.
  - rewrite forallb_app in Hws. apply andb_true_iff in Hws as [Hws Ha].
    cbn [forallb] in Ha. rewrite andb_true_r in Ha.
    rewrite length_app in Hk. cbn [List.length] in Hk.
    destruct k as [|k]; [lia|]. cbn [trimRightSpace].
    rewrite app_assoc, (trailingSpace_space _ _ Ha).
    rewrite length_app. cbn [List.length].
    replace (List.length ((n ++ [z]) ++ ws) + 1 - 1) with (List.length ((n ++ [z]) ++ ws)) by lia.
    rewrite firstn_app, firstn_all, Nat.sub_diag. cbn [firstn]. rewrite app_nil_r.
    apply IH; [assumption|lia].
Qed.

(** A tidy name with white space of ASCII behind it is trimmed to the
    name. *)
Lemma TrimSpace_Trim_name name ws :
  tidy name = true -> forallb asciiSpace ws = true ->
  TrimSpace (Trim (ofBytes (b name ++ ws)) (String "010" EmptyString)) = name.
Proof.
  unfold tidy. destruct (b name) as [|c tl] eqn:En; [discriminate|].
  intros H Hws. apply andb_true_iff in H as [Hc Hz].
  destruct (exists_last (l := c :: tl)) as (n & z & E); [discriminate|].
  assert (Ez : z = last tl c).
  { assert (Hl : last (c :: tl) c = last tl c) by (destruct tl; reflexivity).
    now rewrite <- Hl, E, last_last. }
  rewrite <- Ez in Hz.
  unfold Trim. rewrite b_ofBytes. change (b (String "010" EmptyString)) with ["010"%char].
  rewrite E.
  destruct (dropWhileEnd_spaces (inCutset ["010"%char]) n z (visible_not_newline _ Hz) ws Hws)
    as (ws' & -> & Hws').
  rewrite <- E. cbn [app dropWhile]. rewrite (visible_not_newline _ Hc).
  unfold TrimSpace. rewrite b_ofBytes.
  rewrite trimLeftSpace_none by now apply leadingSpace_visible.
  change (c :: tl ++ ws') with ((c :: tl) ++ ws'). rewrite E.
  rewrite trimRightSpace_spaces; try assumption.
  - now rewrite <- E, <- En, ofBytes_b.
  - rewrite length_app. lia.
Qed.

Lemma TrimSpace_Trim_trimmed s cutset out :
  s = TrimSpace (Trim (ofBytes out) cutset) ->
  leadingSpace (b s) = None /\ trailingSpace (b s) = None /\ within (b s) out.
Proof.
  intros ->. destruct (TrimSpace_trimmed (Trim (ofBytes out) cutset)) as [Hl Hr].
  split; [exact Hl|]. split; [exact Hr|].
  eapply within_trans; [apply TrimSpace_within|].
  rewrite <- (b_ofBytes out) at 2. apply Trim_within.
Qed.

End TrimmedOutput.

(** X4.  [Branch] returns the empty string when the command fails.  When
    it succeeds it returns a run of bytes of the output with no white
    space at either end; for a tidy name followed by white space of ASCII,
    as the line feed that git prints, that is the name. *)
Theorem Branch_trims_output (CombinedOutput : list string -> bytes * option error)
        (out : bytes) (err : option error) :
  CombinedOutput ["git"; "symbolic-ref"; "--short"; "HEAD"] = (out, err) ->
  (err <> None -> sv.Branch CombinedOutput = EmptyString)
  /\ (err = None ->
      leadingSpace (b (sv.Branch CombinedOutput)) = None
      /\ trailingSpace (b (sv.Branch CombinedOutput)) = None
      /\ within (b (sv.Branch CombinedOutput)) out
      /\ forall name ws,
           tidy name = true -> forallb asciiSpace ws = true -> out = b name ++ ws ->
           sv.Branch CombinedOutput = name).
Proof.
  intros H. unfold sv.Branch. rewrite H. split.
  - destruct err; [reflexivity|congruence].
  - intros ->.
    destruct (TrimSpace_Trim_trimmed _ (String "010" EmptyString) out eq_refl) as (Hl & Hr & Hw).
    split; [exact Hl|]. split; [exact Hr|]. split; [exact Hw|].
    intros name ws Hn Hws ->. now apply TrimSpace_Trim_name.
Qed.

Lemma Branch_trims_output_witness :
  sv.Branch (fun _ => (b "main" ++ newline, None)) = "main".
Proof.
  destruct (Branch_trims_output (fun _ => (b "main" ++ newline, None))
              (b "main" ++ newline) None eq_refl) as [_ H].
  destruct (H eq_refl) as (_ & _ & _ & Hn).
  apply (Hn "main" newline); reflexivity.
Defined.

(** X5.  [LastTag] panics on a [nil] filter, whatever the command would
    answer.  With a filter it asks for the refs under [refs/tags/]
    followed by the filter, returns the empty string when the command
    fails, and otherwise a run of bytes of the output with no white space
    at either end: for a tidy tag name followed by white space of ASCII,
    the name. *)
Theorem LastTag_trims_output (CombinedOutput : list string -> bytes * option error)
        (tagCfg : sv.TagConfig) :
  (sv.Filter tagCfg = None -> sv.LastTag CombinedOutput tagCfg = sv.NilDereference)
  /\ (forall filter out err,
        sv.Filter tagCfg = Some filter ->
        CombinedOutput
          ["git"; "for-each-ref"; ("refs/tags/" ++ filter)%string;
           "--sort"; "-version:refname"; "--sort"; "-creatordate";
           "--format"; "%(refname:short)"; "--count"; "1"] = (out, err) ->
        (err <> None -> sv.LastTag CombinedOutput tagCfg = sv.Value EmptyString)
        /\ (err = None ->
            exists tag,
              sv.LastTag CombinedOutput tagCfg = sv.Value tag
              /\ leadingSpace (b tag) = None /\ trailingSpace (b tag) = None
              /\ within (b tag) out
              /\ forall name ws,
                   tidy name = true -> forallb asciiSpace ws = true ->
                   out = b name ++ ws -> tag = name)).
Proof.
  unfold sv.LastTag. split.
  - now intros ->.
  - intros filter out err -> ->. split.
    + destruct err; [reflexivity|congruence].
    + intros ->. eexists. split; [reflexivity|].
      destruct (TrimSpace_Trim_trimmed _ (String "010" EmptyString) out eq_refl) as (Hl & Hr & Hw).
      split; [exact Hl|]. split; [exact Hr|]. split; [exact Hw|].
      intros name ws Hn Hws ->. now apply TrimSpace_Trim_name.
Qed.

Lemma LastTag_trims_output_witness :
  sv.LastTag (fun _ => (b "v1.2.3" ++ newline, None)) (sv.mkTagConfig None (Some "v*"))
  = sv.Value "v1.2.3".
Proof.
  destruct (LastTag_trims_output (fun _ => (b "v1.2.3" ++ newline, None))
              (sv.mkTagConfig None (Some "v*"))) as [_ H].
  destruct (H "v*" (b "v1.2.3" ++ newline) None eq_refl eq_refl) as [_ Hok].
  destruct (Hok eq_refl) as (tag & -> & _ & _ & _ & Hn).
  now rewrite (Hn "v1.2.3" newline eq_refl eq_refl eq_refl).
Defined.

(** ** Records in front of other input *)

Section JoinFacts.
Local Open Scope nat_scope.
Variables (limit : nat) (sep : bytes).
Hypothesis sep_nonempty : sep <> [].

Lemma marked_join_app rs rest :
  Forall (cutRecord limit sep) rs ->
  marked limit sep (join sep rs ++ rest) = rs ++ marked limit sep rest
  /\ tail limit sep (join sep rs ++ rest) = tail limit sep rest.
Proof.
  induction 1 as [|r rs [Hi Hl] _ [IHm IHt]].
  - now cbn.
  - rewrite (marked_unfold _ _ sep_nonempty), (tail_unfold _ _ sep_nonempty).
    change (join sep (r :: rs) ++ rest) with (((r ++ sep) ++ join sep rs) ++ rest).
    rewrite <- (app_assoc (r ++ sep)).
    rewrite (Index_app_l _ (join sep rs ++ rest) _ _ Hi).
    apply Nat.leb_le in Hl. rewrite Hl.
    rewrite <- (app_assoc r), firstn_app, skipn_app, firstn_all, Nat.sub_diag.
    cbn [firstn]. rewrite app_nil_r.
    rewrite (skipn_all2 r) by lia. cbn [app].
    replace (List.length r + List.length sep - List.length r)
      with (List.length sep) by lia.
    rewrite skipn_app, skipn_all, Nat.sub_diag. cbn [skipn app].
    now rewrite IHm, IHt.
Qed.

Lemma scanSpec_join_app post rs rest :
  Forall (cutRecord limit sep) rs ->
  scanSpec limit sep post (join sep rs ++ rest)
  = map post rs ++ scanSpec limit sep post rest.
Proof.
  intros H. unfold scanSpec. destruct (marked_join_app rs rest H) as [-> ->].
  now rewrite map_app, <- app_assoc.
Qed.

Lemma scanSpec_join post rs :
  Forall (cutRecord limit sep) rs -> scanSpec limit sep post (join sep rs) = map post rs.
Proof.
  intros H. rewrite <- (app_nil_r (join sep rs)), scanSpec_join_app by assumption.
  rewrite (scanSpec_unfold _ _ sep_nonempty), (Index_nil _ sep_nonempty).
  now rewrite app_nil_r.
Qed.

Lemma scanSpec_oversize post rest :
  oversize limit sep rest -> scanSpec limit sep post rest = [].
Proof.
  unfold oversize. rewrite (scanSpec_unfold _ _ sep_nonempty).
  destruct (GoBytes.Index rest sep) as [i|]; intros H.
  - apply Nat.leb_gt in H. now rewrite H.
  - destruct rest; [reflexivity|]. apply Nat.ltb_ge in H. now rewrite H.
Qed.

Lemma scanSpec_tail post rest :
  GoBytes.Index rest sep = None -> rest <> [] -> List.length rest < limit ->
  scanSpec limit sep post rest = [post rest].
Proof.
  intros Hi Hne Hl. rewrite (scanSpec_unfold _ _ sep_nonempty), Hi.
  destruct rest; [congruence|]. apply Nat.ltb_lt in Hl. now rewrite Hl.
Qed.

Lemma cutRecord_no_sep r : cutRecord limit sep r -> GoBytes.Index r sep = None.
Proof.
  intros [Hi _]. apply (Index_before _ sep_nonempty) in Hi.
  now rewrite firstn_app, firstn_all, Nat.sub_diag, app_nil_r in Hi.
Qed.

Lemma tailLoop_no_sep k : forall data t,
  tailLoop k limit sep data = Some t -> GoBytes.Index t sep = None.
Proof.
  induction k as [|k IH]; intros data t; cbn [tailLoop];
    destruct (GoBytes.Index data sep) as [i|] eqn:E; try discriminate.
  - destruct data; [discriminate|]. destruct (_ <? _); [|discriminate]. now intros [= <-].
  - destruct (_ <=? _); [apply IH|discriminate].
  - destruct data; [discriminate|]. destruct (_ <? _); [|discriminate]. now intros [= <-].
Qed.

(** No token of the scanner contains the separator. *)
Lemma scanSpec_no_sep data :
  Forall (fun t => GoBytes.Index t sep = None) (scanSpec limit sep (fun t => t) data).
Proof.
  unfold scanSpec. apply Forall_app. split.
  - rewrite map_id. unfold marked.
    apply Forall_impl with (2 := markedLoop_cut limit sep _ data).
    apply cutRecord_no_sep.
  - destruct (tail limit sep data) as [t|] eqn:E; constructor; [|constructor].
    now apply tailLoop_no_sep in E.
Qed.

Lemma scanSpec_post_no_sep post data :
  (forall t, within (post t) t) ->
  Forall (fun t => GoBytes.Index t sep = None) (scanSpec limit sep post data).
Proof.
  intros Hpost. unfold scanSpec. apply Forall_app. split.
  - apply Forall_map. unfold marked.
    apply Forall_impl with (2 := markedLoop_cut limit sep _ data).
    intros r Hr. apply (Index_within _ r); [apply Hpost|now apply cutRecord_no_sep].
  - destruct (tail limit sep data) as [t|] eqn:E; constructor; [|constructor].
    apply (Index_within _ t); [apply Hpost|]. now apply tailLoop_no_sep in E.
Qed.

End JoinFacts.

(** ** What the loops keep and what they pass on *)

Lemma foldTokens_invariant {A : Type} (body : A -> string -> sv.result A)
      (P : A -> Prop) (Q : bytes -> Prop) ts e :
  (forall acc t acc', Q t -> P acc -> body acc (ofBytes t) = sv.Ok acc' -> P acc') ->
  Forall Q ts ->
  forall acc r, P acc -> foldTokens body acc ts e = sv.Ok r -> P r.
Proof.
  intros Hbody. induction 1 as [|t ts Ht _ IH]; intros acc r Hacc; cbn [foldTokens].
  - destruct e; [|discriminate..]. now intros [= <-].
  - destruct (body acc (ofBytes t)) as [acc'| | |] eqn:E; try discriminate.
    apply IH. now apply (Hbody acc t).
Qed.

(** The token at which the loop leaves with an error, and the tokens in
    front of it, none of which ended the loop. *)
Lemma foldTokens_error_first {A : Type} (body : A -> string -> sv.result A) ts e err :
  forall acc,
    foldTokens body acc ts e = sv.Err err ->
    exists front t behind acc',
      ts = front ++ t :: behind
      /\ Forall (fun r => exists a a', body a (ofBytes r) = sv.Ok a') front
      /\ body acc' (ofBytes t) = sv.Err err.
Proof.
  induction ts as [|t ts IH]; intros acc; cbn [foldTokens].
  - destruct e; discriminate.
  - destruct (body acc (ofBytes t)) as [acc1| | |] eqn:E; try discriminate.
    + intros H. destruct (IH _ H) as (front & t' & behind & a & -> & Hf & Hb).
      exists (t :: front), t', behind, a. split; [reflexivity|]. split; [|assumption].
      constructor; [now exists acc, acc1|assumption].
    + intros [= <-]. exists [], t, ts, acc. split; [reflexivity|]. split; [constructor|assumption].
Qed.

Lemma foldTokens_error {A : Type} (body : A -> string -> sv.result A) ts e err :
  forall acc,
    foldTokens body acc ts e = sv.Err err ->
    exists acc' t, In t ts /\ body acc' (ofBytes t) = sv.Err err.
Proof.
  induction ts as [|t ts IH]; intros acc; cbn [foldTokens].
  - destruct e; discriminate.
  - destruct (body acc (ofBytes t)) as [acc'| | |] eqn:E; try discriminate.
    + intros H. destruct (IH _ H) as (a & t' & Hin & Hb). exists a, t'. split; [now right|assumption].
    + intros [= <-]. exists acc, t. split; [now left|assumption].
Qed.

(** ** The entries of the commit log, for every input *)

Section LogEntries.
Local Open Scope nat_scope.
Context {CommitMessage : Type} (mp : sv.MessageProcessor CommitMessage).

(** What [parseCommitLog] returns, read backwards. *)
Lemma parseCommitLog_inv text :
  match sv.parseCommitLog mp text with
  | sv.Ok l =>
      exists f0 f1 f2 f3 f4 f5 rest,
        GoStrings.Split (Trim text sv.dquote) sv.logSeparator
        = f0 :: f1 :: f2 :: f3 :: f4 :: f5 :: rest
        /\ sv.Parse f4 f5 = inl (sv.GitCommitLog.Message l)
        /\ sv.GitCommitLog.Date l = f0
        /\ sv.GitCommitLog.Timestamp l = fst (Atoi f1)
        /\ sv.GitCommitLog.AuthorName l = f2
        /\ sv.GitCommitLog.Hash l = f3
  | sv.Err e =>
      exists f0 f1 f2 f3 f4 f5 rest,
        GoStrings.Split (Trim text sv.dquote) sv.logSeparator
        = f0 :: f1 :: f2 :: f3 :: f4 :: f5 :: rest
        /\ sv.Parse f4 f5 = inr e
  | _ => True
  end.
Proof.
  destruct (Nat.lt_ge_cases (GoStrings.Count (Trim text sv.dquote) sv.logSeparator) 5)
    as [Hs|Hl].
  - destruct (parseCommitLog_short mp text Hs) as [i ->]. exact I.
  - destruct (parseCommitLog_long text Hl) as (f0 & f1 & f2 & f3 & f4 & f5 & rest & Hsplit).
    rewrite (parseCommitLog_fields mp _ _ _ _ _ _ _ _ Hsplit).
    destruct (sv.Parse f4 f5) as [m|e] eqn:E.
    + exists f0, f1, f2, f3, f4, f5, rest. now repeat split.
    + exists f0, f1, f2, f3, f4, f5, rest. now split.
Qed.

(** A field of the text of a token is a run of bytes of the token. *)
Lemma token_field t n f :
  GoBytes.Index t (b sv.endLine) = None ->
  nth_error (GoStrings.Split (Trim (TrimSpace (Trim (ofBytes t) sv.dquote)) sv.dquote)
               sv.logSeparator) n = Some f ->
  markFree f.
Proof.
  intros Ht Hn. destruct (Split_field _ _ _ _ logSeparator_nonempty Hn) as [Hw Hi].
  split; [exact Hi|]. unfold GoStrings.Index.
  apply (Index_within _ t); [|exact Ht].
  eapply within_trans; [exact Hw|].
  eapply within_trans; [apply Trim_within|].
  eapply within_trans; [apply TrimSpace_within|].
  rewrite <- (b_ofBytes t) at 2. apply Trim_within.
Qed.

End LogEntries.

(** X6.  Whatever the input, every entry that [parseLogOutput] returns
    has a date, an author name and a hash that contain neither the field
    separator nor the end marker, and a message that the message
    processor returned for a subject and a body that contain neither. *)
Theorem parseLogOutput_entries_clean (CommitMessage : Type)
        (mp : sv.MessageProcessor CommitMessage) (log : string)
        (logs : list (sv.GitCommitLog.t CommitMessage)) :
  sv.parseLogOutput mp log = sv.Ok logs ->
  Forall (fun l =>
            markFree (sv.GitCommitLog.Date l)
            /\ markFree (sv.GitCommitLog.AuthorName l)
            /\ markFree (sv.GitCommitLog.Hash l)
            /\ exists subject body,
                 markFree subject /\ markFree body
                 /\ sv.Parse subject body = inl (sv.GitCommitLog.Message l)) logs.
Proof.
  rewrite parseLogOutput_tokens, logTokens_spec. cbn [fst snd]. intros H.
  refine (foldTokens_invariant _ _ (fun t => GoBytes.Index t (b sv.endLine) = None)
            _ _ _ (scanSpec_no_sep _ _ endLine_nonempty _) [] logs (Forall_nil _) H).
  intros acc t acc' Ht Hacc. cbv zeta.
  destruct (negb _); [|now intros [= <-]].
  pose proof (parseCommitLog_inv mp (TrimSpace (Trim (ofBytes t) sv.dquote))) as Hinv.
  destruct (sv.parseCommitLog mp _) as [l| | |]; try discriminate.
  intros [= <-]. apply Forall_app. split; [assumption|]. constructor; [|constructor].
  destruct Hinv as (f0 & f1 & f2 & f3 & f4 & f5 & rest & Hs & Hp & Hd & _ & Ha & Hh).
  rewrite Hd, Ha, Hh.
  assert (Hf : forall n f,
             nth_error (f0 :: f1 :: f2 :: f3 :: f4 :: f5 :: rest) n = Some f -> markFree f).
  { intros n f Hn. rewrite <- Hs in Hn. exact (token_field t n f Ht Hn). }
  split; [exact (Hf 0%nat _ eq_refl)|]. split; [exact (Hf 2%nat _ eq_refl)|].
  split; [exact (Hf 3%nat _ eq_refl)|].
  exists f4, f5. split; [exact (Hf 4%nat _ eq_refl)|]. split; [exact (Hf 5%nat _ eq_refl)|].
  exact Hp.
Qed.

Lemma parseLogOutput_entries_clean_witness :
  markFree "2024-01-02" /\ markFree "Jane Doe".
Proof.
  pose proof (parseLogOutput_entries_clean _ echo
                "2024-01-02###1704153600###Jane Doe###abc1234###fix: bug###body~~~"
                [sv.GitCommitLog.mk "2024-01-02" 1704153600 "Jane Doe" "abc1234"
                   ("fix: bug", "body")] eq_refl) as H.
  inversion H as [|? ? (Hd & Ha & _) _]. now split.
Defined.

(** X7.  [Log] returns an error in two cases only.  Either the command
    failed, and the error carries the error of the command and the first
    line of its output.  Or the command succeeded and the message
    processor refused a record of the output: among the records that the
    scanner hands out there is one, with nothing but blank records and
    records that give an entry in front of it, whose text has six fields
    or more, and the error is the one that the message processor returned
    for its fifth and sixth field, unchanged.  The scanner never adds an
    error of its own. *)
Theorem Log_errors (CommitMessage : Type) (mp : sv.MessageProcessor CommitMessage)
        (CombinedOutput : list string -> bytes * option error)
        (lr : sv.LogRange) (e : error) :
  sv.Log CombinedOutput mp lr = sv.Err e ->
  (exists out e0,
      CombinedOutput ("git" :: sv.logParams lr) = (out, Some e0)
      /\ e = fmt_Errorf e0 (ofBytes (firstField newline out)))
  \/ (exists out front record behind f0 f1 f2 f3 subject body more,
        CombinedOutput ("git" :: sv.logParams lr) = (out, None)
        /\ fst (logTokens (ofBytes out)) = front ++ record :: behind
        /\ Forall (fun r =>
                     recordText (ofBytes r) = EmptyString
                     \/ exists l, sv.parseCommitLog mp (recordText (ofBytes r)) = sv.Ok l)
                  front
        /\ GoStrings.Split (Trim (recordText (ofBytes record)) sv.dquote) sv.logSeparator
           = f0 :: f1 :: f2 :: f3 :: subject :: body :: more
        /\ markFree subject /\ markFree body
        /\ sv.Parse subject body = inr e).
Proof.
  unfold sv.Log. destruct (CombinedOutput ("git" :: sv.logParams lr)) as [out [e0|]].
  - intros [= <-]. left. exists out, e0. split; [reflexivity|].
    apply combinedOutputErr_line.
  - rewrite parseLogOutput_tokens. intros H. right.
    destruct (foldTokens_error_first _ _ _ _ _ H) as (front & t & behind & acc & Hts & Hf & Hb).
    assert (Hall : GoBytes.Index t (b sv.endLine) = None).
    { pose proof (scanSpec_no_sep MaxScanTokenSize _ endLine_nonempty (b (ofBytes out))) as Hall.
      rewrite Forall_forall in Hall. apply Hall.
      rewrite logTokens_spec in Hts. cbn [fst] in Hts. rewrite Hts.
      apply in_or_app. right. now left. }
    cbv zeta in Hb. destruct (negb _); [|discriminate].
    pose proof (parseCommitLog_inv mp (TrimSpace (Trim (ofBytes t) sv.dquote))) as Hinv.
    destruct (sv.parseCommitLog mp _) as [l|e'| |]; try discriminate.
    injection Hb as <-.
    destruct Hinv as (f0 & f1 & f2 & f3 & f4 & f5 & rest & Hs & Hp).
    exists out, front, t, behind, f0, f1, f2, f3, f4, f5, rest.
    split; [reflexivity|]. split; [exact Hts|]. split.
    { apply Forall_impl with (2 := Hf). intros r (a & a' & Hr). cbv zeta in Hr.
      unfold recordText.
      destruct (String.eqb (TrimSpace (Trim (ofBytes r) sv.dquote)) EmptyString) eqn:Er.
      - left. now apply String.eqb_eq.
      - right. cbn [negb] in Hr.
        destruct (sv.parseCommitLog mp _) as [l| | |]; try discriminate. now exists l. }
    split; [exact Hs|]. split; [|split; [|exact Hp]].
    + apply (token_field t 4); [exact Hall|]. now rewrite Hs.
    + apply (token_field t 5); [exact Hall|]. now rewrite Hs.
Qed.

Lemma Log_errors_witness :
  ((exists out e0,
       (b "fatal: bad revision", Some (ExitError 128)) = (out, Some e0)
       /\ fmt_Errorf (ExitError 128) "fatal: bad revision"
          = fmt_Errorf e0 (ofBytes (firstField newline out)))
   \/ (exists out front record behind f0 f1 f2 f3 subject body more,
         (b "fatal: bad revision", Some (ExitError 128)) = (out, None)
         /\ fst (logTokens (ofBytes out)) = front ++ record :: behind
         /\ Forall (fun r =>
                      recordText (ofBytes r) = EmptyString
                      \/ exists l, sv.parseCommitLog echo (recordText (ofBytes r)) = sv.Ok l)
                   front
         /\ GoStrings.Split (Trim (recordText (ofBytes record)) sv.dquote) sv.logSeparator
            = f0 :: f1 :: f2 :: f3 :: subject :: body :: more
         /\ markFree subject /\ markFree body
         /\ sv.Parse (MessageProcessor := echo) subject body
            = inr (fmt_Errorf (ExitError 128) "fatal: bad revision")))
  /\ ((exists out e0,
         (b "d###1###a###h###wip###b~~~", @None error) = (out, Some e0)
         /\ errors_New "wip" = fmt_Errorf e0 (ofBytes (firstField newline out)))
      \/ (exists out front record behind f0 f1 f2 f3 subject body more,
            (b "d###1###a###h###wip###b~~~", @None error) = (out, None)
            /\ fst (logTokens (ofBytes out)) = front ++ record :: behind
            /\ Forall (fun r =>
                         recordText (ofBytes r) = EmptyString
                         \/ exists l, sv.parseCommitLog refuse (recordText (ofBytes r)) = sv.Ok l)
                      front
            /\ GoStrings.Split (Trim (recordText (ofBytes record)) sv.dquote) sv.logSeparator
               = f0 :: f1 :: f2 :: f3 :: subject :: body :: more
            /\ markFree subject /\ markFree body
            /\ sv.Parse (MessageProcessor := refuse) subject body = inr (errors_New "wip"))).
Proof.
  split.
  - exact (Log_errors _ echo (fun _ => (b "fatal: bad revision", Some (ExitError 128)))
             (sv.NewLogRange sv.TagRange "v0" EmptyString)
             (fmt_Errorf (ExitError 128) "fatal: bad revision") eq_refl).
  - exact (Log_errors _ refuse (fun _ => (b "d###1###a###h###wip###b~~~", None))
             (sv.NewLogRange sv.TagRange "v0" EmptyString)
             (errors_New "wip") eq_refl).
Defined.

(** ** The entries of the tag listing, for every input *)

Section TagInvariants.
Local Open Scope nat_scope.
Variable parseTagTime : string -> option Time.

(** What the body of the loop of [parseTagsOutput] returns, read
    backwards: it never returns an error. *)
Lemma tagBody_inv acc text :
  match tagBody parseTagTime acc text with
  | sv.Ok acc' =>
      acc' = acc
      \/ exists v0 v1 rest,
           GoStrings.Split (TrimSpace text) "#" = v0 :: v1 :: rest
           /\ acc' = acc ++ [sv.GitTag.mk v1 (fst (sv.ParseTagTime parseTagTime v0))]
  | sv.Err _ => False
  | _ => True
  end.
Proof.
  unfold tagBody. destruct (negb _); [|now left].
  destruct (GoStrings.Split (TrimSpace text) "#") as [|v0 [|v1 rest]];
    cbn [sv.index nth_error sv.bind]; try exact I.
  - destruct (sv.ParseTagTime parseTagTime v0). exact I.
  - destruct (sv.ParseTagTime parseTagTime v0) as [date e] eqn:E. cbn [sv.bind].
    right. exists v0, v1, rest. rewrite E. now split.
Qed.

Lemma tagBody_parsedTag lines acc t acc' :
  In t lines -> GoBytes.Index t newline = None ->
  Forall (parsedTag parseTagTime lines) acc ->
  tagBody parseTagTime acc (ofBytes t) = sv.Ok acc' ->
  Forall (parsedTag parseTagTime lines) acc'.
Proof.
  intros Hin Ht Hacc H. pose proof (tagBody_inv acc (ofBytes t)) as Hinv. rewrite H in Hinv.
  destruct Hinv as [->|(v0 & v1 & rest & Hs & ->)]; [assumption|].
  apply Forall_app. split; [assumption|]. constructor; [|constructor].
  assert (H1 : nth_error (GoStrings.Split (TrimSpace (ofBytes t)) "#") 1 = Some v1)
    by now rewrite Hs.
  destruct (Split_field _ _ _ _ (fun E : b "#" = [] => ltac:(discriminate)) H1) as [Hw Hi].
  exists t, v0, rest. cbn [sv.GitTag.Name sv.GitTag.Date].
  split; [exact Hin|]. split; [exact Hs|]. split.
  - unfold sv.ParseTagTime. now destruct (parseTagTime v0).
  - split; [exact Hi|].
    unfold GoStrings.Index. rewrite b_ofBytes. apply (Index_within _ t); [|exact Ht].
    eapply within_trans; [exact Hw|]. rewrite <- (b_ofBytes t) at 2. apply TrimSpace_within.
Qed.

End TagInvariants.

(** X8.  Whatever the input, [parseTagsOutput] returns no error, and
    every entry it returns is made of one of the lines that the scanner
    hands out: its name is the second field of that line, which contains
    neither [#] nor a line feed, and its date is what [time.Parse] reads
    in the first field of the same line, the zero [Time] when it reads
    none. *)
Theorem parseTagsOutput_entries_clean (parseTagTime : string -> option Time)
        (input : string) :
  (forall e, sv.parseTagsOutput parseTagTime input <> sv.Err e)
  /\ (forall tags,
        sv.parseTagsOutput parseTagTime input = sv.Ok tags ->
        Forall (parsedTag parseTagTime (fst (tagTokens input))) tags).
Proof.
  rewrite parseTagsOutput_tokens. split.
  - intros e H. destruct (foldTokens_error _ _ _ _ _ H) as (acc & t & _ & Hb).
    pose proof (tagBody_inv parseTagTime acc (ofBytes t)) as Hinv. now rewrite Hb in Hinv.
  - intros tags H.
    refine (foldTokens_invariant _ _
              (fun t => In t (fst (tagTokens input)) /\ GoBytes.Index t newline = None)
              _ _ _ _ [] tags (Forall_nil _) H).
    + intros acc t acc' [Hin Ht]. now apply tagBody_parsedTag.
    + apply Forall_forall. intros t Hin. split; [exact Hin|].
      pose proof (scanSpec_post_no_sep MaxScanTokenSize _ newline_nonempty dropCR (b input)
                    dropCR_within) as Hall.
      rewrite Forall_forall in Hall. apply Hall.
      rewrite tagTokens_spec in Hin. exact Hin.
Qed.



(** X10.  [Tags] panics on a [nil] filter, whatever the command would
    answer.  With a filter it returns an error exactly when the command
    fails, the error of the command with the first line of its output;
    when the command succeeds it returns what [parseTagsOutput] makes of
    the output, which is never an error. *)
Theorem Tags_outcomes (parseTagTime : string -> option Time)
        (CombinedOutput : list string -> bytes * option error) (tagCfg : sv.TagConfig) :
  (sv.Filter tagCfg = None -> sv.Tags parseTagTime CombinedOutput tagCfg = sv.NilDereference)
  /\ (forall filter out err,
        sv.Filter tagCfg = Some filter ->
        CombinedOutput
          ["git"; "for-each-ref"; "--sort"; "creatordate"; "--format";
           "%(creatordate:iso8601)#%(refname:short)";
           ("refs/tags/" ++ filter)%string] = (out, err) ->
        (forall e0, err = Some e0 ->
           sv.Tags parseTagTime CombinedOutput tagCfg
           = sv.Value (sv.Err (fmt_Errorf e0 (ofBytes (firstField newline out)))))
        /\ (err = None ->
            sv.Tags parseTagTime CombinedOutput tagCfg
            = sv.Value (sv.parseTagsOutput parseTagTime (ofBytes out))
            /\ forall e, sv.Tags parseTagTime CombinedOutput tagCfg <> sv.Value (sv.Err e))).
Proof.
  unfold sv.Tags. split.
  - now intros ->.
  - intros filter out err -> ->. split.
    + intros e0 ->. now rewrite combinedOutputErr_line.
    + intros ->. split; [reflexivity|]. intros e [= H].
      rewrite parseTagsOutput_tokens, tagTokens_spec in H. cbn [fst] in H.
      destruct (foldTokens_error _ _ _ _ _ H) as (acc & t & _ & Hb).
      pose proof (tagBody_inv parseTagTime acc (ofBytes t)) as Hinv. now rewrite Hb in Hinv.
Qed.

(** ** A record that does not fit a token *)

Lemma Index_repeat a n c q :
  Ascii.eqb a c = false -> GoBytes.Index (repeat a n) (c :: q) = None.
Proof.
  intros H. induction n as [|n IH]; [reflexivity|].
  cbn [repeat]. rewrite Index_unfold. cbn [HasPrefix]. rewrite H. cbn [andb].
  now rewrite IH.
Qed.

(** X11.  A record that does not fit a scanner token, [MaxScanTokenSize]
    bytes with its marker, ends the scan without a word: [parseLogOutput]
    returns what it returns for the records in front of it, and neither
    the record, nor what follows it, nor an error on their account. *)
Theorem parseLogOutput_oversize (CommitMessage : Type)
        (mp : sv.MessageProcessor CommitMessage) (records : list bytes) (rest : bytes) :
  Forall (cutRecord MaxScanTokenSize (b sv.endLine)) records ->
  oversize MaxScanTokenSize (b sv.endLine) rest ->
  sv.parseLogOutput mp (ofBytes (join (b sv.endLine) records ++ rest))
  = sv.parseLogOutput mp (ofBytes (join (b sv.endLine) records)).
Proof.
  intros Hrs Hrest. rewrite !parseLogOutput_tokens, !logTokens_spec, !b_ofBytes.
  rewrite (scanSpec_join_app _ _ endLine_nonempty _ _ _ Hrs).
  rewrite (scanSpec_oversize _ _ endLine_nonempty _ _ Hrest).
  rewrite (scanSpec_join _ _ endLine_nonempty _ _ Hrs).
  now rewrite app_nil_r.
Qed.

Lemma parseLogOutput_oversize_witness :
  sv.parseLogOutput echo
    (ofBytes (join (b sv.endLine) [b "d###1###a###h###s###b"]
                ++ repeat "x"%char MaxScanTokenSize))
  = sv.Ok [sv.GitCommitLog.mk "d" 1 "a" "h" ("s", "b")].
Proof.
  rewrite (parseLogOutput_oversize _ echo [b "d###1###a###h###s###b"]
             (repeat "x"%char MaxScanTokenSize)).
  - reflexivity.
  - constructor; [|constructor]. split; [reflexivity|apply Nat.leb_le; reflexivity].
  - unfold oversize. change (b sv.endLine) with ("~"%char :: b "~~").
    rewrite Index_repeat by reflexivity. now rewrite repeat_length.
Defined.

(** ** Double quotes around a record *)

Section QuoteFacts.
Local Open Scope nat_scope.

Lemma Trim_cons_cut q s cutset :
  inCutset (b cutset) q = true -> Trim (String q s) cutset = Trim s cutset.
Proof.
  intros Hq. unfold Trim. change (b (String q s)) with (q :: b s).
  rewrite dropWhileEnd_cons.
  destruct (dropWhileEnd (inCutset (b cutset)) (b s)) as [|x l].
  - now rewrite Hq.
  - cbn [dropWhile]. now rewrite Hq.
Qed.

Lemma Trim_snoc_cut q s cutset :
  inCutset (b cutset) q = true ->
  Trim (s ++ String q EmptyString)%string cutset = Trim s cutset.
Proof.
  intros Hq. unfold Trim. rewrite b_app. change (b (String q EmptyString)) with [q].
  now rewrite dropWhileEnd_snoc.
Qed.

Lemma dropWhileEnd_head p a l :
  p a = false -> dropWhileEnd p (a :: l) = a :: dropWhileEnd p l.
Proof.
  intros H. rewrite dropWhileEnd_cons, H. now destruct (dropWhileEnd p l).
Qed.

Lemma dropWhileEnd_more p c a l :
  p a = false -> dropWhileEnd p (c :: a :: l) = c :: a :: dropWhileEnd p l.
Proof. intros H. now rewrite dropWhileEnd_cons, dropWhileEnd_head. Qed.

Lemma quote_cut : inCutset (b sv.dquote) "034" = true.
Proof. reflexivity. Qed.

Lemma plain_no_quote a : plain a = true -> inCutset (b sv.dquote) a = false.
Proof.
  intros H. apply plain_visible in H as [_ H]. unfold inCutset.
  change (b sv.dquote) with ["034"%char]. cbn [existsb]. now rewrite H.
Qed.

(** A string that neither starts nor ends with a double quote is left
    as it is. *)
Lemma Trim_unquoted s : edgeQuote s = false -> Trim s sv.dquote = s.
Proof.
  unfold edgeQuote, Trim. destruct (b s) as [|c tl] eqn:E.
  - intros _. apply b_nil in E. now subst s.
  - intros H. apply orb_false_iff in H as [Hc Hz].
    assert (Hp : forall x, Ascii.eqb x "034" = false -> inCutset (b sv.dquote) x = false).
    { intros x Hx. unfold inCutset. change (b sv.dquote) with ["034"%char].
      cbn [existsb]. now rewrite Hx. }
    rewrite dropWhileEnd_last by now apply Hp.
    cbn [dropWhile]. rewrite (Hp _ Hc). now rewrite <- E, ofBytes_b.
Qed.

End QuoteFacts.

(** X12.  The double quotes around a record make no difference to
    [parseCommitLog]: it returns for the quoted record what it returns
    for the record. *)
Theorem parseCommitLog_quoted (CommitMessage : Type)
        (mp : sv.MessageProcessor CommitMessage) (record : string) :
  sv.parseCommitLog mp (sv.dquote ++ record ++ sv.dquote)%string
  = sv.parseCommitLog mp record.
Proof.
  unfold sv.parseCommitLog.
  change (sv.dquote ++ record ++ sv.dquote)%string
    with (String "034" (record ++ String "034" EmptyString)).
  now rewrite (Trim_cons_cut _ _ _ quote_cut), (Trim_snoc_cut _ _ _ quote_cut).
Qed.

(** ** The fields of a record *)

Section FieldFacts.
Local Open Scope nat_scope.
Variable sep : bytes.
Hypothesis sep_nonempty : sep <> [].

Lemma genSplit_rounds k1 : forall k2 s,
  List.length s <= k1 -> List.length s <= k2 -> genSplit k1 s sep = genSplit k2 s sep.
Proof.
  pose proof (sep_length _ sep_nonempty) as Hs.
  induction k1 as [|k1 IH]; intros k2 s H1 H2.
  - destruct s; [|simpl in H1; lia].
    destruct k2; cbn [genSplit]; [reflexivity|]. now rewrite (Index_nil _ sep_nonempty).
  - destruct k2 as [|k2].
    + destruct s; [|simpl in H2; lia]. cbn [genSplit]. now rewrite (Index_nil _ sep_nonempty).
    + cbn [genSplit]. destruct (GoBytes.Index s sep) as [i|] eqn:E; [|reflexivity].
      apply Index_bound in E. f_equal. apply IH; rewrite length_skipn; lia.
Qed.

(** The field in front of the first separator is the first field. *)
Lemma Split_cons_field f rest :
  GoBytes.Index (f ++ sep) sep = Some (List.length f) ->
  GoBytes.Split (f ++ sep ++ rest) sep = f :: GoBytes.Split rest sep.
Proof.
  intros Hf. pose proof (sep_length _ sep_nonempty) as Hs.
  unfold GoBytes.Split.
  destruct (List.length (f ++ sep ++ rest)) as [|k] eqn:Ek.
  { rewrite !length_app in Ek. lia. }
  cbn [genSplit]. rewrite app_assoc, (Index_app_l _ rest _ _ Hf), <- app_assoc.
  rewrite firstn_app, firstn_all, Nat.sub_diag. cbn [firstn]. rewrite app_nil_r.
  rewrite skipn_app, (skipn_all2 f) by lia. cbn [app].
  replace (List.length f + List.length sep - List.length f) with (List.length sep) by lia.
  rewrite skipn_app, skipn_all, Nat.sub_diag. cbn [skipn app].
  f_equal. apply genSplit_rounds; [|lia]. rewrite !length_app in Ek. lia.
Qed.

Lemma Split_one f : GoBytes.Index f sep = None -> GoBytes.Split f sep = [f].
Proof.
  intros H. unfold GoBytes.Split. destruct (List.length f); cbn [genSplit]; [reflexivity|].
  now rewrite H.
Qed.

End FieldFacts.

Lemma fieldOf_bytes sep f :
  fieldOf sep f -> GoBytes.Index (b f ++ b sep) (b sep) = Some (List.length (b f)).
Proof. unfold fieldOf, GoStrings.Index. now rewrite b_app, b_length. Qed.

Lemma Split_commitText f0 f1 f2 f3 f4 f5 :
  fieldOf sv.logSeparator f0 -> fieldOf sv.logSeparator f1 ->
  fieldOf sv.logSeparator f2 -> fieldOf sv.logSeparator f3 ->
  fieldOf sv.logSeparator f4 ->
  GoStrings.Index f5 sv.logSeparator = None ->
  GoStrings.Split (commitText f0 f1 f2 f3 f4 f5) sv.logSeparator = [f0; f1; f2; f3; f4; f5].
Proof.
  intros H0 H1 H2 H3 H4 H5. unfold GoStrings.Split, commitText. rewrite !b_app.
  rewrite (Split_cons_field _ logSeparator_nonempty _ _ (fieldOf_bytes _ _ H0)).
  rewrite (Split_cons_field _ logSeparator_nonempty _ _ (fieldOf_bytes _ _ H1)).
  rewrite (Split_cons_field _ logSeparator_nonempty _ _ (fieldOf_bytes _ _ H2)).
  rewrite (Split_cons_field _ logSeparator_nonempty _ _ (fieldOf_bytes _ _ H3)).
  rewrite (Split_cons_field _ logSeparator_nonempty _ _ (fieldOf_bytes _ _ H4)).
  rewrite (Split_one _ _ H5). cbn [map]. now rewrite !ofBytes_b.
Qed.

(** X13.  [parseCommitLog] gives back the fields that a record is made of:
    for six fields written with the separator between them, the first
    five without a separator in them or across their end and the sixth
    without one in it, and no double quote at either end of the record,
    the entry has the first, third and fourth field as date, author name
    and hash, what [Atoi] reads in the second as timestamp, and the
    message of the fifth and the sixth; the error of the message
    processor is returned as it is. *)
Theorem parseCommitLog_round_trip (CommitMessage : Type)
        (mp : sv.MessageProcessor CommitMessage) (f0 f1 f2 f3 f4 f5 : string) :
  fieldOf sv.logSeparator f0 -> fieldOf sv.logSeparator f1 ->
  fieldOf sv.logSeparator f2 -> fieldOf sv.logSeparator f3 ->
  fieldOf sv.logSeparator f4 ->
  GoStrings.Index f5 sv.logSeparator = None ->
  edgeQuote (commitText f0 f1 f2 f3 f4 f5) = false ->
  sv.parseCommitLog mp (commitText f0 f1 f2 f3 f4 f5)
  = match sv.Parse f4 f5 with
    | inl message => sv.Ok (sv.GitCommitLog.mk f0 (fst (Atoi f1)) f2 f3 message)
    | inr err => sv.Err err
    end.
Proof.
  intros H0 H1 H2 H3 H4 H5 Hq.
  apply (parseCommitLog_fields mp _ f0 f1 f2 f3 f4 f5 []).
  rewrite (Trim_unquoted _ Hq). now apply Split_commitText.
Qed.

Lemma parseCommitLog_round_trip_witness :
  sv.parseCommitLog echo (commitText "2024-01-02" "1704153600" "Jane Doe" "abc1234" "fix: bug" EmptyString)
  = sv.Ok (sv.GitCommitLog.mk "2024-01-02" 1704153600 "Jane Doe" "abc1234" ("fix: bug", EmptyString)).
Proof.
  apply (parseCommitLog_round_trip _ echo "2024-01-02" "1704153600" "Jane Doe" "abc1234"
           "fix: bug" EmptyString); reflexivity.
Defined.

(** ** What [Log] makes of the output of [git log] *)

Section GitLogOutput.
Local Open Scope nat_scope.
Context {CommitMessage : Type} (mp : sv.MessageProcessor CommitMessage).

Local Abbreviation logBody :=
  (fun logs token =>
     let text := TrimSpace (Trim token sv.dquote) in
     if negb (text =? EmptyString)%string then
       match sv.parseCommitLog mp text with
       | sv.Ok l => sv.Ok (logs ++ [l])
       | sv.Err err => sv.Err err
       | sv.Panic p => sv.Panic p
       | sv.Unfinished => sv.Unfinished
       end
     else sv.Ok logs).

Lemma TrimSpace_visible_head a x :
  visible a = true ->
  TrimSpace (ofBytes (a :: x)) = ofBytes (a :: trimRightSpace (List.length x) x).
Proof.
  intros Ha. unfold TrimSpace. rewrite b_ofBytes.
  rewrite trimLeftSpace_none by now apply leadingSpace_visible.
  cbn [List.length]. now rewrite trimRightSpace_cons.
Qed.

Lemma TrimSpace_space_head c a x :
  asciiSpace c = true -> visible a = true ->
  TrimSpace (ofBytes (c :: a :: x)) = ofBytes (a :: trimRightSpace (List.length x) x).
Proof.
  intros Hc Ha. unfold TrimSpace. rewrite b_ofBytes.
  assert (E : trimLeftSpace (String.length (ofBytes (c :: a :: x))) (c :: a :: x) = a :: x).
  { change (String.length (ofBytes (c :: a :: x)))
      with (S (String.length (ofBytes (a :: x)))).
    cbn [trimLeftSpace]. unfold leadingSpace at 1. rewrite Hc. cbn [skipn].
    apply trimLeftSpace_none. now apply leadingSpace_visible. }
  rewrite E. cbn [List.length]. now rewrite trimRightSpace_cons.
Qed.

(** The text of a record that starts with a plain byte. *)
Lemma recordText_plain r a y :
  b r = a :: y -> plain a = true ->
  recordText r
  = ofBytes (a :: trimRightSpace
                    (List.length (dropWhileEnd (inCutset (b sv.dquote)) y))
                    (dropWhileEnd (inCutset (b sv.dquote)) y)).
Proof.
  intros Er Ha. pose proof (plain_no_quote _ Ha) as Hq.
  unfold recordText, Trim. rewrite Er, (dropWhileEnd_head _ _ _ Hq).
  cbn [dropWhile]. rewrite Hq.
  apply TrimSpace_visible_head. now apply plain_visible in Ha as [Ha _].
Qed.

(** The first record of the output: a quote, the record. *)
Lemma text_first r :
  TrimSpace (Trim (ofBytes ("034"%char :: b r)) sv.dquote) = recordText r.
Proof.
  unfold recordText. cbn [ofBytes string_of_list_ascii]. fold (ofBytes (b r)).
  now rewrite ofBytes_b, (Trim_cons_cut _ _ _ quote_cut).
Qed.

(** A later record: the closing quote of the record in front, a line
    feed, a quote, the record. *)
Lemma text_next r :
  startsPlain r = true ->
  TrimSpace (Trim (ofBytes ("034"%char :: "010"%char :: "034"%char :: b r)) sv.dquote)
  = String "034" (recordText r).
Proof.
  unfold startsPlain. destruct (b r) as [|a y] eqn:Er; [discriminate|]. intros Ha.
  rewrite (recordText_plain r a y Er Ha).
  pose proof (plain_no_quote _ Ha) as Hq. pose proof (plain_visible _ Ha) as [Hv _].
  unfold Trim. rewrite b_ofBytes.
  rewrite (dropWhileEnd_more _ "034"%char "010"%char) by reflexivity.
  rewrite (dropWhileEnd_more _ "034"%char a) by assumption.
  cbn [dropWhile]. rewrite quote_cut.
  change (inCutset (b sv.dquote) "010") with false. cbv iota.
  rewrite (TrimSpace_space_head "010"%char "034"%char) by reflexivity.
  cbn [List.length]. rewrite trimRightSpace_cons by (assumption || lia).
  reflexivity.
Qed.

Lemma recordText_nonempty r : startsPlain r = true -> String.eqb (recordText r) EmptyString = false.
Proof.
  unfold startsPlain. destruct (b r) as [|a y] eqn:Er; [discriminate|]. intros Ha.
  now rewrite (recordText_plain r a y Er Ha).
Qed.

Lemma parseCommitLog_cons_quote s :
  sv.parseCommitLog mp (String "034" s) = sv.parseCommitLog mp s.
Proof. unfold sv.parseCommitLog. now rewrite (Trim_cons_cut _ _ _ quote_cut). Qed.

(** The loop over the later records and the quote that closes the
    output. *)
Lemma foldTokens_records rs : forall acc,
  Forall gitRecord rs ->
  foldTokens logBody acc
    (map (fun r => "034"%char :: "010"%char :: "034"%char :: b r) rs ++ [["034"%char]])
    Finished
  = parseRecords mp acc (map recordText rs).
Proof.
  induction rs as [|r rs IH]; intros acc H; [reflexivity|].
  inversion H as [|? ? (Hp & _) Hrs]; subst.
  cbn [map app foldTokens parseRecords]. cbv zeta.
  rewrite (text_next r Hp). cbn [String.eqb negb]. rewrite parseCommitLog_cons_quote.
  destruct (sv.parseCommitLog mp (recordText r)); try reflexivity. now apply IH.
Qed.

Lemma Index_cons_other c d s q :
  Ascii.eqb c d = false ->
  GoBytes.Index (c :: s) (d :: q) = option_map S (GoBytes.Index s (d :: q)).
Proof. intros H. rewrite Index_unfold. cbn [HasPrefix]. now rewrite H. Qed.

Lemma cutRecord_first r :
  gitRecord r -> cutRecord MaxScanTokenSize (b sv.endLine) ("034"%char :: b r).
Proof.
  intros (_ & Hf & Hl). apply fieldOf_bytes in Hf. rewrite b_length in Hf. split.
  - change (b sv.endLine) with ("~"%char :: b "~~") in *. cbn [app].
    rewrite Index_cons_other by reflexivity. rewrite Hf. cbn [option_map List.length].
    now rewrite b_length.
  - cbn [List.length]. rewrite b_length. change (List.length (b sv.endLine)) with 3. lia.
Qed.

Lemma cutRecord_next r :
  gitRecord r ->
  cutRecord MaxScanTokenSize (b sv.endLine) ("034"%char :: "010"%char :: "034"%char :: b r).
Proof.
  intros (_ & Hf & Hl). apply fieldOf_bytes in Hf. rewrite b_length in Hf. split.
  - change (b sv.endLine) with ("~"%char :: b "~~") in *. cbn [app].
    rewrite !Index_cons_other by reflexivity. rewrite Hf. cbn [option_map List.length].
    now rewrite b_length.
  - cbn [List.length]. rewrite b_length. change (List.length (b sv.endLine)) with 3. lia.
Qed.

Lemma concat_cons (sep x y : string) l :
  String.concat sep (x :: y :: l) = (x ++ sep ++ String.concat sep (y :: l))%string.
Proof. reflexivity. Qed.

(** The output, cut into the tokens of the scanner. *)
Lemma gitLogOutput_bytes rs : forall r,
  b (gitLogOutput (r :: rs))
  = join (b sv.endLine)
      (("034"%char :: b r) :: map (fun r => "034"%char :: "010"%char :: "034"%char :: b r) rs)
    ++ ["034"%char].
Proof.
  unfold gitLogOutput.
  induction rs as [|r' rs IH]; intros r.
  - cbn [map String.concat join List.concat]. rewrite !b_app. cbn [app].
    change (b sv.dquote) with ["034"%char]. cbn [app].
    now rewrite app_nil_r, <- app_assoc.
  - specialize (IH r').
    change (map (fun r0 => (sv.dquote ++ r0 ++ sv.endLine ++ sv.dquote)%string) (r :: r' :: rs))
      with ((sv.dquote ++ r ++ sv.endLine ++ sv.dquote)%string
              :: map (fun r0 => (sv.dquote ++ r0 ++ sv.endLine ++ sv.dquote)%string) (r' :: rs)).
    cbn [map] in IH |- *. rewrite concat_cons, b_app, (b_app (String "010" EmptyString)), IH.
    rewrite !b_app.
    change (b sv.dquote) with ["034"%char]. change (b (String "010" EmptyString)) with ["010"%char].
    cbn [join map List.concat app]. rewrite <- !app_assoc. cbn [app].
    rewrite <- !app_assoc. reflexivity.
Qed.

Lemma parseLogOutput_git_output records :
  Forall gitRecord records ->
  sv.parseLogOutput mp (gitLogOutput records) = parseRecords mp [] (map recordText records).
Proof.
  intros H. rewrite parseLogOutput_tokens, logTokens_spec. cbn [fst snd].
  destruct records as [|r rs].
  - reflexivity.
  - inversion H as [|? ? Hr Hrs]; subst.
    rewrite gitLogOutput_bytes.
    rewrite (scanSpec_join_app _ _ endLine_nonempty).
    2:{ constructor; [now apply cutRecord_first|].
        apply Forall_map. apply Forall_impl with (2 := Hrs). apply cutRecord_next. }
    rewrite (scanSpec_tail _ _ endLine_nonempty);
      [|reflexivity|discriminate|apply Nat.ltb_lt; reflexivity].
    rewrite map_id. cbn [app foldTokens map parseRecords]. cbv zeta.
    rewrite text_first. destruct Hr as (Hp & _).
    rewrite (recordText_nonempty r Hp). cbn [negb].
    destruct (sv.parseCommitLog mp (recordText r)); try reflexivity.
    now apply foldTokens_records.
Qed.

End GitLogOutput.

(** X14.  [Log] reads the output of [git log] record by record: for the
    records printed in the pretty format of [Log], each between double
    quotes with the end marker, a line feed between two entries, it returns
    what [parseCommitLog] makes of every record without its quotes and
    the white space around it, in the order of the output, and stops at
    the first record that gives no entry, with the error or the panic
    of that record. *)
Theorem Log_reads_git_output (CommitMessage : Type)
        (mp : sv.MessageProcessor CommitMessage)
        (CombinedOutput : list string -> bytes * option error)
        (lr : sv.LogRange) (records : list string) :
  Forall gitRecord records ->
  CombinedOutput ("git" :: sv.logParams lr) = (b (gitLogOutput records), None) ->
  sv.Log CombinedOutput mp lr = parseRecords mp [] (map recordText records).
Proof.
  intros Hrs Hout. unfold sv.Log. rewrite Hout, ofBytes_b.
  now apply parseLogOutput_git_output.
Qed.

Lemma Log_reads_git_output_witness :
  sv.Log (fun _ =>
            (b (gitLogOutput
                  ["2024-01-02###1704153600###Jane Doe###abc1234###fix: bug###";
                   ("2024-01-01###1704067200###Joe###def5678###feat: x###body"
                      ++ String "010" EmptyString)%string]), None))
    echo (sv.NewLogRange sv.TagRange EmptyString EmptyString)
  = sv.Ok [sv.GitCommitLog.mk "2024-01-02" 1704153600 "Jane Doe" "abc1234" ("fix: bug", EmptyString);
           sv.GitCommitLog.mk "2024-01-01" 1704067200 "Joe" "def5678" ("feat: x", "body")].
Proof.
  rewrite (Log_reads_git_output _ echo _ (sv.NewLogRange sv.TagRange EmptyString EmptyString)
             ["2024-01-02###1704153600###Jane Doe###abc1234###fix: bug###";
              ("2024-01-01###1704067200###Joe###def5678###feat: x###body"
                 ++ String "010" EmptyString)%string]).
  - reflexivity.
  - constructor; [|constructor; [|constructor]];
      (split; [reflexivity|split; [reflexivity|apply Nat.leb_le; reflexivity]]).
  - reflexivity.
Defined.

(** ** The day after, written and read again *)

Section DateRoundTrip.
Local Open Scope Z_scope.

Lemma digitChar_digit d :
  0 <= d <= 9 -> isDigit (digitChar d) = true /\ digit (digitChar d) = d.
Proof.
  intros H.
  assert (E : d = 0 \/ d = 1 \/ d = 2 \/ d = 3 \/ d = 4 \/ d = 5 \/ d = 6 \/ d = 7
              \/ d = 8 \/ d = 9) by lia.
  repeat (destruct E as [->|E]; [now split|]). subst d. now split.
Qed.

Lemma fmtUint_step k u acc :
  fmtUint (S k) u acc
  = if u / 10 =? 0 then digitChar (u mod 10) :: acc
    else fmtUint k (u / 10) (digitChar (u mod 10) :: acc).
Proof. reflexivity. Qed.

Ltac digit_bounds :=
  repeat (apply Forall_cons; [Z.div_mod_to_equations; lia|]); apply Forall_nil.

(** The decimal digits of a number below 10000, as [fmtUint] writes
    them: as many as the number has, the first one first. *)
Lemma fmtUint_digits k u :
  0 <= u <= 9999 -> (1 <= k)%nat -> (10 <= u -> (4 <= k)%nat) ->
  exists ds,
    fmtUint k u [] = map digitChar ds
    /\ Forall (fun d => 0 <= d <= 9) ds
    /\ fold_left (fun n d => n * 10 + d) ds 0 = u
    /\ List.length ds
       = if u <? 10 then 1%nat else if u <? 100 then 2%nat else if u <? 1000 then 3%nat else 4%nat.
Proof.
  intros Hu H1 H4. destruct k as [|k]; [lia|].
  rewrite fmtUint_step. destruct (u / 10 =? 0) eqn:E1.
  { exists [u mod 10]. cbn [map fold_left List.length].
    assert (Hlt : (u <? 10) = true) by (Z.div_mod_to_equations; lia). rewrite Hlt.
    split; [reflexivity|]. split; [digit_bounds|].
    split; [Z.div_mod_to_equations; lia|reflexivity]. }
  assert (Hlt : (u <? 10) = false) by (Z.div_mod_to_equations; lia). rewrite Hlt.
  destruct k as [|[|[|k]]]; try lia.
  rewrite fmtUint_step. destruct (u / 10 / 10 =? 0) eqn:E2.
  { exists [u / 10 mod 10; u mod 10]. cbn [map fold_left List.length].
    assert (Hlt2 : (u <? 100) = true) by (Z.div_mod_to_equations; lia). rewrite Hlt2.
    split; [reflexivity|]. split; [digit_bounds|].
    split; [Z.div_mod_to_equations; lia|reflexivity]. }
  assert (Hlt2 : (u <? 100) = false) by (Z.div_mod_to_equations; lia). rewrite Hlt2.
  rewrite fmtUint_step. destruct (u / 10 / 10 / 10 =? 0) eqn:E3.
  { exists [u / 10 / 10 mod 10; u / 10 mod 10; u mod 10]. cbn [map fold_left List.length].
    assert (Hlt3 : (u <? 1000) = true) by (Z.div_mod_to_equations; lia). rewrite Hlt3.
    split; [reflexivity|]. split; [digit_bounds|].
    split; [Z.div_mod_to_equations; lia|reflexivity]. }
  assert (Hlt3 : (u <? 1000) = false) by (Z.div_mod_to_equations; lia). rewrite Hlt3.
  rewrite fmtUint_step.
  assert (E4 : (u / 10 / 10 / 10 / 10 =? 0) = true) by (Z.div_mod_to_equations; lia).
  rewrite E4.
  exists [u / 10 / 10 / 10 mod 10; u / 10 / 10 mod 10; u / 10 mod 10; u mod 10].
  cbn [map fold_left List.length].
  split; [reflexivity|]. split; [digit_bounds|].
  split; [Z.div_mod_to_equations; lia|reflexivity].
Qed.

Lemma appendInt_digits u :
  0 <= u <= 9999 ->
  exists ds,
    fmtUint (S (Z.to_nat (Z.log2 u))) u [] = map digitChar ds
    /\ Forall (fun d => 0 <= d <= 9) ds
    /\ fold_left (fun n d => n * 10 + d) ds 0 = u
    /\ List.length ds
       = if u <? 10 then 1%nat else if u <? 100 then 2%nat else if u <? 1000 then 3%nat else 4%nat.
Proof.
  intros Hu. apply fmtUint_digits; [assumption|lia|].
  intros H. assert (3 <= Z.log2 u); [|lia].
  change 3 with (Z.log2 8). apply Z.log2_le_mono. lia.
Qed.

Lemma fourDigits_year y : 0 <= y <= 9999 -> fourDigits y = true.
Proof.
  intros Hy. unfold fourDigits, appendInt. rewrite Z.abs_eq by lia.
  assert (Hn : (y <? 0) = false) by lia. rewrite Hn. cbn [app].
  destruct (appendInt_digits y Hy) as (ds & -> & Hd & Hv & Hl).
  rewrite length_map.
  destruct ds as [|a [|c [|d [|e [|? ?]]]]];
    try (exfalso; cbn [List.length] in Hl; repeat destruct (_ <? _) in Hl; discriminate);
    cbn [List.length Nat.sub repeat map app fold_left] in *;
    repeat match goal with
           | H : Forall _ (_ :: _) |- _ => inversion H; subst; clear H
           end;
    repeat match goal with
           | H : 0 <= ?x <= 9 |- _ =>
               destruct (digitChar_digit x H) as [-> ?]; clear H
           end;
    change (isDigit "0") with true; cbn [andb]; apply Z.eqb_eq; unfold num2;
    change (digit "0") with 0; lia.
Qed.

Lemma twoDigits_small n : 0 <= n <= 99 -> twoDigits n = true.
Proof.
  intros Hy. unfold twoDigits, appendInt. rewrite Z.abs_eq by lia.
  assert (Hn : (n <? 0) = false) by lia. rewrite Hn. cbn [app].
  destruct (appendInt_digits n ltac:(lia)) as (ds & -> & Hd & Hv & Hl).
  rewrite length_map.
  assert (Hlt : (n <? 100) = true) by lia. rewrite Hlt in Hl.
  destruct ds as [|a [|c [|? ?]]];
    try (exfalso; cbn [List.length] in Hl; destruct (_ <? _) in Hl; discriminate);
    cbn [List.length Nat.sub repeat map app fold_left] in *;
    repeat match goal with
           | H : Forall _ (_ :: _) |- _ => inversion H; subst; clear H
           end;
    repeat match goal with
           | H : 0 <= ?x <= 9 |- _ =>
               destruct (digitChar_digit x H) as [-> ?]; clear H
           end;
    change (isDigit "0") with true; cbn [andb]; apply Z.eqb_eq; unfold num2;
    change (digit "0") with 0; lia.
Qed.
(** A date of the years 0 to 9999 is written as a valid date string that
    reads the same date. *)
Lemma validDate_FormatDate y m d :
  0 <= y <= 9999 -> 1 <= m <= 12 -> 1 <= d <= daysIn m y ->
  validDate (FormatDate (midnightUTC (y, m, d))) = Some (y, m, d).
Proof.
  intros Hy Hm Hd. pose proof (daysIn_range m y) as Hr.
  pose proof (fourDigits_year y Hy) as Fy.
  pose proof (twoDigits_small m ltac:(lia)) as Fm.
  pose proof (twoDigits_small d ltac:(lia)) as Fd.
  unfold fourDigits in Fy. unfold twoDigits in Fm, Fd.
  unfold validDate, FormatDate, midnightUTC. cbn [Year Month Day]. rewrite b_ofBytes.
  destruct (appendInt y 4) as [|y0 [|y1 [|y2 [|y3 [|? ?]]]]]; try discriminate.
  destruct (appendInt m 2) as [|m0 [|m1 [|? ?]]]; try discriminate.
  destruct (appendInt d 2) as [|d0 [|d1 [|? ?]]]; try discriminate.
  cbn [app].
  apply andb_true_iff in Fy as [Fy Ey]. apply andb_true_iff in Fy as [Fy Y3].
  apply andb_true_iff in Fy as [Fy Y2]. apply andb_true_iff in Fy as [Y0 Y1].
  apply andb_true_iff in Fm as [Fm Em]. apply andb_true_iff in Fm as [M0 M1].
  apply andb_true_iff in Fd as [Fd Ed]. apply andb_true_iff in Fd as [D0 D1].
  apply Z.eqb_eq in Ey, Em, Ed.
  rewrite Y0, Y1, Y2, Y3, M0, M1, D0, D1, Ey, Em, Ed.
  cbn [andb Ascii.eqb Bool.eqb].
  assert (E : (1 <=? m) && (m <=? 12) && (1 <=? d) && (d <=? daysIn m y) = true).
  { repeat (apply andb_true_iff; split); lia. }
  now rewrite E.
Qed.

Lemma validDate_year value y m d : validDate value = Some (y, m, d) -> 0 <= y <= 9999.
Proof.
  unfold validDate.
  destruct (b value) as [|y0 [|y1 [|y2 [|y3 [|h0 [|m0 [|m1 [|h1 [|d0 [|d1 [|x l]]]]]]]]]]];
    try discriminate.
  destruct (isDigit y0) eqn:Y0; [|discriminate]. destruct (isDigit y1) eqn:Y1; [|discriminate].
  destruct (isDigit y2) eqn:Y2; [|discriminate]. destruct (isDigit y3) eqn:Y3; [|discriminate].
  destruct (_ && _); [|discriminate].
  match goal with |- context [if ?c then _ else _] => destruct c end; [|discriminate].
  intros [= <- <- <-].
  apply isDigit_range in Y0, Y1, Y2, Y3. unfold num2. lia.
Qed.

Lemma nextDay_range y m d :
  1 <= m <= 12 -> 1 <= d <= daysIn m y ->
  let '(y', m', d') := nextDay (y, m, d) in
  1 <= m' <= 12 /\ 1 <= d' <= daysIn m' y'
  /\ (y' = y \/ (y' = y + 1 /\ m = 12 /\ d = 31)).
Proof.
  intros Hm Hd. unfold nextDay.
  destruct (d <? daysIn m y) eqn:E1.
  - repeat split; lia.
  - destruct (m <? 12) eqn:E2.
    + pose proof (daysIn_range (m + 1) y). repeat split; lia.
    + pose proof (daysIn_range 1 (y + 1)). assert (m = 12) by lia. subst m.
      change (daysIn 12 y) with 31 in *. repeat split; lia.
Qed.

End DateRoundTrip.

(** X15.  [addDay] keeps a valid date string a valid date string: for a
    valid [YYYY-MM-DD] date other than the last day of the year 9999 the
    result is again a valid date string, and it reads the next day of
    the calendar.  For 9999-12-31 the result is [10000-01-01], which is
    no date of the layout any more. *)
Theorem addDay_next_day (value : string) (y m d : Z) :
  validDate value = Some (y, m, d) ->
  ((y, m, d) <> (9999, 12, 31)%Z ->
   validDate (sv.addDay value) = Some (nextDay (y, m, d)))
  /\ ((y, m, d) = (9999, 12, 31)%Z ->
      sv.addDay value = "10000-01-01" /\ validDate (sv.addDay value) = None).
Proof.
  intros Hv. rewrite addDay_spec, Hv.
  pose proof (validDate_year _ _ _ _ Hv) as Hy.
  pose proof (validDate_range _ _ _ _ Hv) as [Hm Hd].
  split.
  - intros Hne. pose proof (nextDay_range y m d Hm Hd) as Hn.
    destruct (nextDay (y, m, d)) as [[y' m'] d'].
    destruct Hn as (Hm' & Hd' & Hy').
    apply validDate_FormatDate; try assumption.
    destruct Hy' as [->|(-> & -> & ->)]; [assumption|].
    assert (y <> 9999%Z) by congruence. lia.
  - intros [= -> -> ->]. split; reflexivity.
Qed.

Lemma addDay_next_day_witness :
  validDate (sv.addDay "2024-02-28") = Some (2024, 2, 29)%Z
  /\ validDate (sv.addDay "2023-12-31") = Some (2024, 1, 1)%Z.
Proof.
  split.
  - apply (proj1 (addDay_next_day "2024-02-28" 2024 2 28 eq_refl)). discriminate.
  - apply (proj1 (addDay_next_day "2023-12-31" 2023 12 31 eq_refl)). discriminate.
Defined.

(** ** From the commits that git prints to the entries of [Log] *)

Section PrintedCommits.
Local Open Scope nat_scope.
Context {CommitMessage : Type} (mp : sv.MessageProcessor CommitMessage).

Lemma trimRightSpace_rounds k1 : forall k2 s,
  List.length s <= k1 -> List.length s <= k2 -> trimRightSpace k1 s = trimRightSpace k2 s.
Proof.
  induction k1 as [|k1 IH]; intros k2 s H1 H2.
  - destruct s; [|simpl in H1; lia]. destruct k2; reflexivity.
  - destruct k2 as [|k2].
    + destruct s; [reflexivity|simpl in H2; lia].
    + cbn [trimRightSpace]. destruct (trailingSpace s) as [w|] eqn:E; [|reflexivity].
      apply trailingSpace_width in E. apply IH; rewrite length_firstn; lia.
Qed.

Lemma dropWhileEnd_behind p c s : forall t,
  p c = false -> dropWhileEnd p (t ++ c :: s) = t ++ c :: dropWhileEnd p s.
Proof.
  intros t Hc. induction t as [|x t IH]; cbn [app].
  - now apply dropWhileEnd_head.
  - rewrite dropWhileEnd_cons, IH. now destruct t.
Qed.

(** The quotes at the end of a text that starts with a plain byte are
    stripped behind a plain byte as they are without the text in
    front. *)
Lemma Trim_behind a t c s :
  plain a = true -> plain c = true ->
  Trim (ofBytes (a :: t ++ c :: s)) sv.dquote
  = ofBytes (a :: t ++ c :: dropWhileEnd (inCutset (b sv.dquote)) s).
Proof.
  intros Ha Hc. unfold Trim. rewrite b_ofBytes.
  change (a :: t ++ c :: s) with ((a :: t) ++ c :: s).
  rewrite dropWhileEnd_behind by now apply plain_no_quote.
  cbn [app dropWhile]. now rewrite (plain_no_quote _ Ha).
Qed.

Lemma TrimSpace_behind a t c s :
  visible a = true -> visible c = true ->
  TrimSpace (ofBytes (a :: t ++ c :: s))
  = ofBytes (a :: t ++ c :: trimRightSpace (List.length s) s).
Proof.
  intros Ha Hc. rewrite (TrimSpace_visible_head _ _ Ha). do 2 f_equal.
  rewrite length_app. cbn [List.length].
  replace (List.length t + S (List.length s)) with (S (List.length t + List.length s)) by lia.
  rewrite (trimRightSpace_behind c t Hc) by lia.
  do 2 f_equal. apply trimRightSpace_rounds; lia.
Qed.

Lemma shownBody_within body : within (b (shownBody body)) (b body).
Proof.
  unfold shownBody. rewrite b_ofBytes.
  destruct (dropWhileEnd_prefix (inCutset (b sv.dquote))
              (trimRightSpace
                 (List.length (dropWhileEnd (inCutset (b sv.dquote)) (b body)))
                 (dropWhileEnd (inCutset (b sv.dquote)) (b body)))) as [i ->].
  destruct (trimRightSpace_prefix
              (List.length (dropWhileEnd (inCutset (b sv.dquote)) (b body)))
              (dropWhileEnd (inCutset (b sv.dquote)) (b body))) as [j ->].
  destruct (dropWhileEnd_prefix (inCutset (b sv.dquote)) (b body)) as [k ->].
  apply within_firstn, within_firstn, within_firstn, within_refl.
Qed.

(** A record of six fields, the last byte of the last separator apart
    from what is in front of it. *)
Lemma commitText_bytes f0 f1 f2 f3 f4 f5 :
  b (commitText f0 f1 f2 f3 f4 f5)
  = b (f0 ++ sv.logSeparator ++ f1 ++ sv.logSeparator ++ f2 ++ sv.logSeparator
          ++ f3 ++ sv.logSeparator ++ f4 ++ "##")%string
    ++ "#"%char :: b f5.
Proof.
  unfold commitText. rewrite !b_app, <- !app_assoc. reflexivity.
Qed.

Lemma commitText_of_bytes f0 f1 f2 f3 f4 f5 :
  commitText f0 f1 f2 f3 f4 f5
  = ofBytes (b (f0 ++ sv.logSeparator ++ f1 ++ sv.logSeparator ++ f2 ++ sv.logSeparator
                   ++ f3 ++ sv.logSeparator ++ f4 ++ "##")%string
               ++ "#"%char :: b f5).
Proof. now rewrite <- commitText_bytes, ofBytes_b. Qed.

Lemma hash_plain : plain "#" = true.
Proof. reflexivity. Qed.

Lemma parseCommitLog_carried c :
  carried c ->
  sv.parseCommitLog mp (recordText (commitRecord c))
  = match sv.Parse (printedSubject c) (shownBody (printedBody c)) with
    | inl message =>
        sv.Ok (sv.GitCommitLog.mk (printedDate c) (fst (Atoi (printedStamp c)))
                 (printedAuthor c) (printedHash c) message)
    | inr err => sv.Err err
    end.
Proof.
  intros (Hp & H0 & H1 & H2 & H3 & H4 & H5 & _).
  apply (parseCommitLog_fields mp _ _ _ _ _ _ _ []).
  assert (Ht : Trim (recordText (commitRecord c)) sv.dquote
               = commitText (printedDate c) (printedStamp c) (printedAuthor c)
                   (printedHash c) (printedSubject c) (shownBody (printedBody c))).
  { unfold recordText, commitRecord.
    rewrite (commitText_of_bytes _ _ _ _ _ (printedBody c)).
    rewrite (commitText_of_bytes _ _ _ _ _ (shownBody (printedBody c))).
    unfold startsPlain in Hp. rewrite b_app.
    destruct (b (printedDate c)) as [|a t]; [discriminate|]. cbn [app].
    pose proof (plain_visible _ Hp) as [Hv _].
    pose proof (plain_visible _ hash_plain) as [Hh _].
    rewrite (Trim_behind _ _ _ _ Hp hash_plain).
    rewrite (TrimSpace_behind _ _ _ _ Hv Hh).
    rewrite (Trim_behind _ _ _ _ Hp hash_plain).
    unfold shownBody. now rewrite b_ofBytes. }
  rewrite Ht. apply Split_commitText; try assumption.
  unfold GoStrings.Index in *. apply (Index_within _ (b (printedBody c))); [|assumption].
  apply shownBody_within.
Qed.

Lemma carried_gitRecord c : carried c -> gitRecord (commitRecord c).
Proof.
  intros (Hp & _ & _ & _ & _ & _ & _ & Hf & Hl). split; [|now split].
  unfold startsPlain, commitRecord, commitText in *. rewrite b_app.
  now destruct (b (printedDate c)).
Qed.

Lemma parseRecords_entries cs : forall acc,
  Forall carried cs ->
  parseRecords mp acc (map (fun c => recordText (commitRecord c)) cs) = entriesOf mp acc cs.
Proof.
  induction cs as [|c cs IH]; intros acc H; [reflexivity|].
  inversion H as [|? ? Hc Hcs]; subst. cbn [map parseRecords entriesOf].
  rewrite (parseCommitLog_carried c Hc).
  destruct (sv.Parse (printedSubject c) (shownBody (printedBody c))); [|reflexivity].
  now apply IH.
Qed.

End PrintedCommits.

(** X16.  [Log] gives back the commits that [git log] printed: for
    commits whose fields the format carries, it returns one entry for
    every commit, in the order of the output, with the date, the author
    name and the hash as printed, what [Atoi] reads in the timestamp, and
    the message that the message processor makes of the subject and of
    the body cut at its end: without its closing double quotes, then
    without its closing white space, then without the double quotes that
    this leaves at the end.  The first commit that the message processor
    refuses ends the call with the error of the message processor. *)
Theorem Log_round_trip (CommitMessage : Type)
        (mp : sv.MessageProcessor CommitMessage)
        (CombinedOutput : list string -> bytes * option error)
        (lr : sv.LogRange) (commits : list printedCommit) :
  Forall carried commits ->
  CombinedOutput ("git" :: sv.logParams lr)
  = (b (gitLogOutput (map commitRecord commits)), None) ->
  sv.Log CombinedOutput mp lr = entriesOf mp [] commits.
Proof.
  intros Hcs Hout. unfold sv.Log. rewrite Hout, ofBytes_b.
  rewrite parseLogOutput_git_output.
  - rewrite map_map. now apply parseRecords_entries.
  - apply Forall_map. apply Forall_impl with (2 := Hcs). apply carried_gitRecord.
Qed.

Lemma Log_round_trip_witness :
  sv.Log (fun _ =>
            (b (gitLogOutput
                  (map commitRecord
                     [mkPrintedCommit "2024-01-02" "1704153600" "Jane Doe" "abc1234"
                        "fix: bug" EmptyString;
                      mkPrintedCommit "2024-01-01" "1704067200" "Joe" "def5678"
                        "feat: x" ("body" ++ String "010" EmptyString)%string])), None))
    echo (sv.NewLogRange sv.TagRange EmptyString EmptyString)
  = sv.Ok [sv.GitCommitLog.mk "2024-01-02" 1704153600 "Jane Doe" "abc1234" ("fix: bug", EmptyString);
           sv.GitCommitLog.mk "2024-01-01" 1704067200 "Joe" "def5678" ("feat: x", "body")].
Proof.
  rewrite (Log_round_trip _ echo _ (sv.NewLogRange sv.TagRange EmptyString EmptyString)
             [mkPrintedCommit "2024-01-02" "1704153600" "Jane Doe" "abc1234"
                "fix: bug" EmptyString;
              mkPrintedCommit "2024-01-01" "1704067200" "Joe" "def5678"
                "feat: x" ("body" ++ String "010" EmptyString)%string]).
  - reflexivity.
  - constructor; [|constructor; [|constructor]];
      (repeat (split; [reflexivity|]); apply Nat.leb_le; reflexivity).
  - reflexivity.
Defined.

(** ** The panics of the parsers *)

Lemma foldTokens_panic {A : Type} (body : A -> string -> sv.result A) ts p :
  forall acc,
    foldTokens body acc ts Finished = sv.Panic p ->
    exists acc' t, In t ts /\ body acc' (ofBytes t) = sv.Panic p.
Proof.
  induction ts as [|t ts IH]; intros acc; cbn [foldTokens]; [discriminate|].
  destruct (body acc (ofBytes t)) as [acc'| | |] eqn:E; try discriminate.
  - intros H. destruct (IH _ H) as (a & t' & Hin & Hb). exists a, t'. split; [now right|assumption].
  - intros [= <-]. exists acc, t. split; [now left|assumption].
Qed.

Lemma parseCommitLog_panic {CommitMessage : Type}
      (mp : sv.MessageProcessor CommitMessage) commit p :
  sv.parseCommitLog mp commit = sv.Panic p ->
  exists i n,
    p = sv.IndexOutOfRange i n
    /\ n = S (GoStrings.Count (Trim commit sv.dquote) sv.logSeparator)
    /\ (n <= i <= 5)%nat.
Proof.
  pose proof (Split_fields_length (Trim commit sv.dquote) sv.logSeparator
                logSeparator_nonempty) as Hl.
  unfold sv.parseCommitLog.
  destruct (GoStrings.Split (Trim commit sv.dquote) sv.logSeparator)
    as [|f0 [|f1 [|f2 [|f3 [|f4 [|f5 more]]]]]];
    cbn [List.length] in Hl; try lia; rewrite <- Hl;
    cbn [sv.index nth_error sv.bind List.length].
  - intros [= <-]. exists 1%nat, 1%nat. repeat split; lia.
  - destruct (Atoi f1). intros [= <-]. exists 4%nat, 2%nat. repeat split; lia.
  - destruct (Atoi f1). intros [= <-]. exists 4%nat, 3%nat. repeat split; lia.
  - destruct (Atoi f1). intros [= <-]. exists 4%nat, 4%nat. repeat split; lia.
  - destruct (Atoi f1). intros [= <-]. exists 5%nat, 5%nat. repeat split; lia.
  - destruct (Atoi f1). cbn [sv.bind]. destruct (sv.Parse f4 f5); discriminate.
Qed.

Lemma tagBody_panic parseTagTime acc text p :
  tagBody parseTagTime acc text = sv.Panic p -> p = sv.IndexOutOfRange 1 1.
Proof.
  unfold tagBody. destruct (negb _); [|discriminate].
  pose proof (Split_fields_length (TrimSpace text) "#"
                (fun E : b "#" = [] => ltac:(discriminate))) as Hl.
  destruct (GoStrings.Split (TrimSpace text) "#") as [|v0 [|v1 rest]];
    cbn [List.length] in Hl; try lia; cbn [sv.index nth_error sv.bind List.length].
  - destruct (sv.ParseTagTime parseTagTime v0). now intros [= <-].
  - destruct (sv.ParseTagTime parseTagTime v0). discriminate.
Qed.

(** X17.  The only run-time panic of the two parsers is the index out of
    range at a field: [parseLogOutput] panics only where [parseCommitLog]
    indexes a record of fewer than six fields, at an index from the
    number of fields up to five, and [parseTagsOutput] only at
    [values[1]] of a line with one field.  The panic of the scanner for
    too many empty tokens never comes, whatever the input. *)
Theorem parsers_panic_only_at_fields :
  (forall (CommitMessage : Type) (mp : sv.MessageProcessor CommitMessage)
          (log : string) (p : sv.panic),
      sv.parseLogOutput mp log = sv.Panic p ->
      exists i n, p = sv.IndexOutOfRange i n /\ (1 <= n <= i)%nat /\ (i <= 5)%nat)
  /\ (forall (parseTagTime : string -> option Time) (input : string) (p : sv.panic),
        sv.parseTagsOutput parseTagTime input = sv.Panic p ->
        p = sv.IndexOutOfRange 1 1).
Proof.
  split.
  - intros CM mp log p. rewrite parseLogOutput_tokens, logTokens_spec. cbn [fst snd].
    intros H. destruct (foldTokens_panic _ _ _ _ H) as (acc & t & _ & Hb).
    cbv zeta in Hb. destruct (negb _); [|discriminate].
    destruct (sv.parseCommitLog mp (TrimSpace (Trim (ofBytes t) sv.dquote)))
      as [l|e|q|] eqn:E; try discriminate.
    injection Hb as <-.
    destruct (parseCommitLog_panic mp _ _ E) as (i & n & -> & -> & Hi).
    exists i, (S (GoStrings.Count
                    (Trim (TrimSpace (Trim (ofBytes t) sv.dquote)) sv.dquote)
                    sv.logSeparator)).
    split; [reflexivity|]. lia.
  - intros parseTagTime input p. rewrite parseTagsOutput_tokens. intros H.
    destruct (foldTokens_panic _ _ _ _ H) as (acc & t & _ & Hb).
    now apply tagBody_panic in Hb.
Qed.

(** ** A second [#] in a line of the tag listing *)

Section ReadableLines.
Local Open Scope nat_scope.
Variable parseTagTime : string -> option Time.

Lemma hash_field f :
  GoStrings.Index f hash = None ->
  GoBytes.Index (b f ++ ["#"%char]) ["#"%char] = Some (List.length (b f)).
Proof. intros H. exact (IndexByte_app _ _ [] H). Qed.

Lemma tagBody_readable acc l :
  readable l ->
  tagBody parseTagTime acc (ofBytes (dropCR (b (lineText l))))
  = sv.Ok (acc ++ [entry parseTagTime l]).
Proof.
  intros (_ & _ & Hseen & Hd & Hn). unfold tagBody. unfold seenLine in Hseen.
  assert (Hs : exists rest,
             TrimSpace (ofBytes (dropCR (b (lineText l)))) <> EmptyString
             /\ GoStrings.Split (TrimSpace (ofBytes (dropCR (b (lineText l))))) "#"
                = datePart l :: namePart l :: rest).
  { assert (Hne : ["#"%char] <> []) by discriminate.
    assert (Hn' : GoBytes.Index (b (namePart l)) ["#"%char] = None) by exact Hn.
    destruct Hseen as [->|[more ->]].
    - exists []. split.
      + intros H. apply (f_equal b) in H. rewrite !b_app in H.
        destruct (b (datePart l)); discriminate.
      + unfold GoStrings.Split. rewrite !b_app.
        change (b hash) with ["#"%char]. change (b "#") with ["#"%char].
        rewrite (Split_cons_field _ Hne _ _ (hash_field _ Hd)).
        rewrite (Split_one _ _ Hn'). cbn [map]. now rewrite !ofBytes_b.
    - exists (map ofBytes (GoBytes.Split (b more) ["#"%char])). split.
      + intros H. apply (f_equal b) in H. rewrite !b_app in H.
        destruct (b (datePart l)); discriminate.
      + unfold GoStrings.Split. rewrite !b_app.
        change (b hash) with ["#"%char]. change (b "#") with ["#"%char].
        rewrite (Split_cons_field _ Hne _ _ (hash_field _ Hd)).
        rewrite (Split_cons_field _ Hne _ _ (hash_field _ Hn)).
        cbn [map]. now rewrite !ofBytes_b. }
  destruct Hs as (rest & Hne & ->). apply String.eqb_neq in Hne. rewrite Hne.
  cbn [negb sv.index nth_error sv.bind].
  unfold sv.ParseTagTime, entry. destruct (parseTagTime (datePart l)); reflexivity.
Qed.

Lemma foldTokens_readable ls : forall acc,
  Forall readable ls ->
  foldTokens (tagBody parseTagTime) acc (map (fun l => dropCR (b (lineText l))) ls) Finished
  = sv.Ok (acc ++ map (entry parseTagTime) ls).
Proof.
  induction ls as [|l ls IH]; intros acc H.
  - cbn. now rewrite app_nil_r.
  - inversion H as [|? ? Hl Hls]; subst. cbn [map foldTokens].
    rewrite (tagBody_readable _ _ Hl), IH by assumption.
    now rewrite <- app_assoc.
Qed.

End ReadableLines.

(** X18.  Of a line of the tag listing [parseTagsOutput] reads the first
    two fields only: for a listing of lines that read [date#name], or
    [date#name#] and more, it returns one entry per line, in the order of
    the lines, with the text between the first and the second [#] as
    name.  What follows a second [#] is dropped without an error, so
    that a tag name with a [#] in it is cut at the [#]. *)
Theorem parseTagsOutput_second_hash (parseTagTime : string -> option Time)
        (ls : list tagLine) :
  Forall readable ls ->
  sv.parseTagsOutput parseTagTime (listing ls) = sv.Ok (map (entry parseTagTime) ls).
Proof.
  intros H. rewrite parseTagsOutput_tokens, tagTokens_spec. cbn [fst].
  unfold listing. rewrite b_ofBytes. fold newline.
  rewrite (scanSpec_join _ _ newline_nonempty).
  - rewrite map_map. now apply foldTokens_readable.
  - apply Forall_map. apply Forall_impl with (2 := H).
    intros l (Hnl & Hlen & _). split.
    + unfold GoStrings.Index in Hnl. apply (IndexByte_app _ _ []) in Hnl. exact Hnl.
    + rewrite b_length. cbn [newline List.length]. lia.
Qed.

Lemma parseTagsOutput_second_hash_witness :
  sv.parseTagsOutput readStamp
    (listing [mkTagLine "2024-01-02 10:00:00 +0000#v1#rc1" "2024-01-02 10:00:00 +0000" "v1"])
  = sv.Ok [sv.GitTag.mk "v1" (mkTime 2024 1 2 10 0 0 0 0)].
Proof.
  apply (parseTagsOutput_second_hash readStamp
           [mkTagLine "2024-01-02 10:00:00 +0000#v1#rc1" "2024-01-02 10:00:00 +0000" "v1"]).
  constructor; [|constructor].
  split; [reflexivity|]. split; [apply Nat.ltb_lt; reflexivity|].
  split; [right; now exists "rc1"|]. split; reflexivity.
Defined.
